(** * forge: remote execution client and shell-job controllers

    A shallow embedding of the parts of [pkg/ssh/ssh.go] and of the shell
    provisioner controllers that the specification talks about, followed by
    the properties established for them.

    Conventions.
    - A Go [string] and a Go [[]byte] are both byte sequences; they are
      modelled by [string] (a list of 8-bit [ascii]).
    - Go [int], [int64] and [time.Duration] are modelled by [Z], [uint32]
      and [uint64] by [N]; range checks that the Go code performs are
      written out.
    - A Go [error] result is an [option error] ([None] is [nil]); a pair
      [(T, error)] is a [result T].
    - Calls that leave the process (the network, the cluster API, the
      random source) are oracles collected in an environment record; every
      such call is appended to an event history so that statements such as
      "no dial was attempted" can be made. *)

From Stdlib Require Import ZArith NArith Ascii String List Lia Bool Permutation.
From stdpp Require Import base option list gmap strings fin_maps.

Local Open Scope string_scope.
Local Open Scope Z_scope.

(* ===================================================================== *)
(** * Part I: definitions                                                 *)
(* ===================================================================== *)

(** ** Errors and results *)

(** The two sentinel causes carried by a [*strconv.NumError]. *)
Inductive NumErrCause := ErrSyntax | ErrRange.

(** The error values of the program: the sentinel variables of the ssh
    package, [io.EOF], [*strconv.NumError], the cluster API's "not found"
    status and the controller's "pod controlled by job not found", errors
    made by [fmt.Errorf] without and with a wrapped cause ([%w]), and errors
    of external origin (transport, key parser, API server), which are
    opaque to the program. *)
Inductive error :=
| ErrInvalidUsername
| ErrInvalidAuth
| ErrSSHInvalidMessageLength
| ErrTimeout
| ErrKeyGeneration
| ErrValidation
| ErrPublicKey
| ErrUnableToWriteFile
| ErrNotImplemented
| EOF
| NumError (func num : string) (cause : NumErrCause)
| ErrNotFound
| ErrPodControlledByJobNotFound
| Errorf (msg : string)
| Wrapf (msg : string) (cause : error)
| ErrExternal (msg : string).

Inductive result (A : Type) :=
| ok (a : A)
| err (e : error).
Arguments ok {A} a.
Arguments err {A} e.

(** How a call can end: it returns, it panics, or it never returns. The
    world reached is kept in every case. *)
Inductive Outcome (A W : Type) :=
| Returns (a : A) (w : W)
| Panics (msg : string) (w : W)
| Blocks (w : W).
Arguments Returns {A W} a w.
Arguments Panics {A W} msg w.
Arguments Blocks {A W} w.

Definition bind {A B W} (m : Outcome A W) (k : A -> W -> Outcome B W) : Outcome B W :=
  match m with
  | Returns a w => k a w
  | Panics msg w => Panics msg w
  | Blocks w => Blocks w
  end.

Definition world_of {A W} (m : Outcome A W) : W :=
  match m with
  | Returns _ w => w
  | Panics _ w => w
  | Blocks w => w
  end.

(** ** The Go library functions used by the code *)

Module Go.

Definition LF : ascii := "010"%char.
Definition NUL : ascii := "000"%char.
Definition SP : ascii := " "%char.

Definition len (s : string) : Z := Z.of_nat (String.length s).

(** [s[:n]] and [s[n:]]. *)
Fixpoint take (n : nat) (s : string) : string :=
  match n, s with
  | S n', String c s' => String c (take n' s')
  | _, _ => EmptyString
  end.

Fixpoint drop (n : nat) (s : string) : string :=
  match n, s with
  | S n', String _ s' => drop n' s'
  | _, _ => s
  end.

(** Does byte [c] occur in [s]? *)
Fixpoint contains (s : string) (c : ascii) : bool :=
  match s with
  | EmptyString => false
  | String a s' => Ascii.eqb a c || contains s' c
  end.

(** [strings.Split(s, sep)] for a one-byte separator: the fields between
    the separators, one more than there are separators. *)
Fixpoint Split (s : string) (sep : ascii) : list string :=
  match s with
  | EmptyString => [EmptyString]
  | String c s' =>
      if Ascii.eqb c sep then EmptyString :: Split s' sep
      else match Split s' sep with
           | f :: fs => String c f :: fs
           | [] => [String c EmptyString]
           end
  end.

(** [ReadString(delim)] of a [bufio.Reader]: the bytes up to and including the
    first [delim], and the unread remainder; when the input ends first,
    what was read and [io.EOF]. *)
Fixpoint ReadString (r : string) (delim : ascii) : string * string * option error :=
  match r with
  | EmptyString => (EmptyString, EmptyString, Some EOF)
  | String c r' =>
      if Ascii.eqb c delim then (String c EmptyString, r', None)
      else let '(line, rest, e) := ReadString r' delim in (String c line, rest, e)
  end.

(** [io.CopyN(dst, src, n)]: what is written to [dst], what is left in
    [src], and the error. A non-positive [n] copies nothing and is not an
    error; a source that ends early yields [io.EOF] after the partial copy. *)
Definition CopyN (src : string) (n : Z) : string * string * option error :=
  if n <=? 0 then (EmptyString, src, None)
  else if n <=? len src then (take (Z.to_nat n) src, drop (Z.to_nat n) src, None)
  else (src, EmptyString, Some EOF).

(** *** fmt: the verbs [%d] and [%#o] *)

Definition ldigits : string := "0123456789abcdefx".

Definition digit (d : N) : ascii :=
  match String.get (N.to_nat d) ldigits with
  | Some c => c
  | None => "?"%char
  end.

(** The conversion loop of [fmt.fmtInteger]:
    [for u >= base { buf[i] = digits[u%base]; u /= base }; buf[i] = digits[u]].
    [fuel] bounds the number of iterations; the bit size of [u] is enough. *)
Fixpoint fmtDigits (base : N) (fuel : nat) (u : N) (buf : string) : string :=
  match fuel with
  | O => String (digit u) buf
  | S fuel' =>
      if (base <=? u)%N
      then fmtDigits base fuel' (u / base)%N (String (digit (u mod base)%N) buf)
      else String (digit u) buf
  end.

Definition fmtUnsigned (base : N) (u : N) : string :=
  fmtDigits base (N.size_nat u) u EmptyString.

(** [%d] applied to an [int]. *)
Definition FormatInt (i : Z) : string :=
  if i <? 0 then String "-" (fmtUnsigned 10 (Z.abs_N i)) else fmtUnsigned 10 (Z.abs_N i).

(** [%#o] applied to an unsigned integer: a leading [0] is added unless
    the first digit already is one. *)
Definition FormatOctalSharp (u : N) : string :=
  match fmtUnsigned 8 u with
  | String "0" _ as s => s
  | s => String "0" s
  end.

(** *** strconv.ParseInt(s, 10, 64) *)

Definition maxUint64 : N := 18446744073709551615.

Definition lower (c : ascii) : ascii := ascii_of_N (N.lor (N_of_ascii c) 32).

(** The value of one byte in [ParseUint]'s loop, before the comparison with
    the base: a decimal digit, or a letter counted from ten. *)
Definition digitVal (c : ascii) : option N :=
  let n := N_of_ascii c in
  if ((48 <=? n) && (n <=? 57))%N then Some (n - 48)%N
  else let l := N_of_ascii (lower c) in
       if ((97 <=? l) && (l <=? 122))%N then Some (l - 97 + 10)%N
       else None.

(** The loop of [strconv.ParseUint] for base 10 and 64 bits, [n] being the
    value accumulated so far. [cutoff] is [maxUint64/10 + 1]. *)
Fixpoint parseUintLoop (s : string) (n : N) : N + NumErrCause :=
  match s with
  | EmptyString => inl n
  | String c s' =>
      match digitVal c with
      | None => inr ErrSyntax
      | Some d =>
          if (10 <=? d)%N then inr ErrSyntax
          else if (maxUint64 / 10 + 1 <=? n)%N then inr ErrRange
          else let n1 := (n * 10 + d)%N in
               if (maxUint64 <? n1)%N then inr ErrRange
               else parseUintLoop s' n1
      end
  end.

Definition ParseUint (s : string) : N + NumErrCause :=
  match s with
  | EmptyString => inr ErrSyntax
  | _ => parseUintLoop s 0
  end.

(** [strconv.ParseInt(s0, 10, 64)]. A range error of [ParseUint] yields
    the clamped value [maxUint64], which the sign-dependent cutoff test
    then rejects as a range error of [ParseInt]. *)
Definition ParseInt (s0 : string) : result Z :=
  match s0 with
  | EmptyString => err (NumError "ParseInt" s0 ErrSyntax)
  | String c s' =>
      let neg := Ascii.eqb c "-" in
      let s := if Ascii.eqb c "+" || neg then s' else s0 in
      match ParseUint s with
      | inr ErrSyntax => err (NumError "ParseInt" s0 ErrSyntax)
      | r =>
          let un := match r with inl n => n | inr _ => maxUint64 end in
          let cutoff := (2 ^ 63)%N in
          if negb neg && (cutoff <=? un)%N then err (NumError "ParseInt" s0 ErrRange)
          else if neg && (cutoff <? un)%N then err (NumError "ParseInt" s0 ErrRange)
          else ok (if neg then - Z.of_N un else Z.of_N un)
      end
  end.

(** *** path.Base *)

(** Remove the trailing slashes of a path. *)
Fixpoint trimSlashes (p : string) : string :=
  match p with
  | EmptyString => EmptyString
  | String c p' =>
      match trimSlashes p' with
      | EmptyString => if Ascii.eqb c "/" then EmptyString else String c EmptyString
      | t => String c t
      end
  end.

(** The part of [p] after its last slash, [cur] being the element read
    since the last slash seen. *)
Fixpoint lastElement (p cur : string) : string :=
  match p with
  | EmptyString => cur
  | String c p' =>
      if Ascii.eqb c "/" then lastElement p' EmptyString
      else lastElement p' (cur +:+ String c EmptyString)
  end.

Definition Base (p : string) : string :=
  match p with
  | EmptyString => "."
  | _ => match lastElement (trimSlashes p) EmptyString with
         | EmptyString => "/"
         | e => e
         end
  end.

(** *** Notions used in the statements *)

Definition isDigit (c : ascii) : bool :=
  ((48 <=? N_of_ascii c) && (N_of_ascii c <=? 57))%N.

Fixpoint allDigits (s : string) : bool :=
  match s with
  | EmptyString => true
  | String c s' => isDigit c && allDigits s'
  end.

End Go.

(** ** pkg/ssh: the copy protocol *)

Module Scp.
Import Go.

(** The bytes that the writer task of [SSHClient.Upload] sends down the
    session's standard input:
    [fmt.Fprintf(w, "C%#o %d %s\n", mode, len(fileContent), remoteFileName)],
    the content, and a NUL. Writes to the pipe are taken to succeed. *)
Definition uploadHeader (fileContent dst : string) (mode : N) : string :=
  "C" +:+ FormatOctalSharp mode +:+ " " +:+ FormatInt (len fileContent) +:+ " "
      +:+ Base dst +:+ String LF EmptyString.

Definition Upload (fileContent dst : string) (mode : N) : string :=
  uploadHeader fileContent dst mode +:+ fileContent +:+ String NUL EmptyString.

(** The fields of the first line of a data stream, as the reader task of
    [Download] computes them ([scpMsgs]). *)
Definition scpMsgs (dataPipe : string) : list string :=
  let '(s, _, _) := ReadString dataPipe LF in Split s SP.

(** The reader task of [SSHClient.Download]: what it writes to [dst] and
    the error it sends on the error channel, if any. *)
Definition Download (dataPipe : string) : string * option error :=
  let '(s, dr, e) := ReadString dataPipe LF in
  match e with
  | Some e => (EmptyString, Some e)
  | None =>
      let scpMsgs := Split s SP in
      let f0 := nth 0 scpMsgs EmptyString in
      if negb (length scpMsgs =? 3)%nat
         || negb (String.length f0 =? 5)%nat
         || negb (match String.get 0 f0 with Some c => Ascii.eqb c "C" | None => false end)
      then (EmptyString, Some ErrSSHInvalidMessageLength)
      else match ParseInt (nth 1 scpMsgs EmptyString) with
           | err e => (EmptyString, Some e)
           | ok length =>
               let '(written, _, e) := CopyN dr length in (written, e)
           end
  end.

(** The mode [0644], as the number it denotes. *)
Definition mode0644 : N := 420.

End Scp.

(** ** pkg/ssh: the client *)

Module SSH.
Import Go.

Definition sshPort : Z := 22.
Definition PasswordAuth : string := "password".
Definition KeyAuth : string := "key".

(** [time.Second] in nanoseconds, the unit of [time.Duration]. *)
Definition Second : Z := 1000000000.
Definition Timeout : Z := 60 * Second.

Record Credentials := {
  SSHUser : string;
  SSHPassword : string;
  SSHPrivateKey : string
}.

Record Options := {
  IPs : list string;
  KeepAlive : Z;
  Pty : bool
}.

(** [cssh.AuthMethod]: the nil interface value, [cssh.Password(secret)], or
    [cssh.PublicKeys(signer)] for a signer parsed from a key. *)
Inductive AuthMethod :=
| AuthNil
| Password (secret : string)
| PublicKeys (signer : string).

Inductive HostKeyCallback := InsecureIgnoreHostKey.

Record ClientConfig := {
  User : string;
  Auth : list AuthMethod;
  HostKey : HostKeyCallback
}.

(** The one-shot signal [close chan bool]. Nothing in the package sends on
    it, so its buffer is always empty and its state is whether it has been
    closed. The field of the client is a possibly nil reference to it. *)
Inductive Chan := ChanOpen | ChanClosed.

(** A [*cssh.Client]: a possibly nil handle on a transport connection. *)
Definition Conn := option nat.

Record SSHClient := {
  Creds : option Credentials;
  IP : string;
  Port : Z;
  Opts : Options;
  cryptoClient : Conn;
  close : option Chan
}.

Inductive Event :=
| EvConnect
| EvReadPrivateKey (key : string)
| EvDial (network addr : string) (config : ClientConfig)
| EvGoKeepAlive
| EvSleep (d : Z).

(** The process-wide state: a monotonic clock in nanoseconds, whether the
    package-level [closeMutex] is held, and the calls made so far. Each
    entry to [Connect] is recorded as well, so that attempts can be
    counted. *)
Record World := {
  now : Z;
  closeMutex : bool;
  history : list Event
}.

Definition record (e : Event) (w : World) : World :=
  {| now := now w; closeMutex := closeMutex w; history := (history w ++ [e])%list |}.

Definition advance (d : Z) (w : World) : World :=
  {| now := now w + d; closeMutex := closeMutex w; history := history w |}.

(** The surroundings of the package: the two replaceable package variables
    [readPrivateKey] and [dial] (the tests overwrite both), and the
    rendering of a [net.IP] by [%s]. A dial answers after [fst] nanoseconds
    with [snd]; its answer may depend on everything that happened before. *)
Record Env := {
  readPrivateKey : string -> result AuthMethod;
  dial : World -> string -> string -> ClientConfig -> Z * result Conn;
  ipString : string -> string
}.

Definition getAuth (env : Env) (c : Credentials) (authType : string) (w : World)
  : result AuthMethod * World :=
  if String.eqb authType PasswordAuth then (ok (Password (SSHPassword c)), w)
  else if String.eqb authType KeyAuth
       then (readPrivateKey env (SSHPrivateKey c), record (EvReadPrivateKey (SSHPrivateKey c)) w)
       else (ok AuthNil, w).

(** [Validate]: reading through a nil [Creds] pointer panics. *)
Definition Validate (client : SSHClient) (w : World) : Outcome (option error) World :=
  match Creds client with
  | None => Panics "nil pointer dereference" w
  | Some creds =>
      if String.eqb (SSHUser creds) EmptyString then Returns (Some ErrInvalidUsername) w
      else if String.eqb (SSHPassword creds) EmptyString && String.eqb (SSHPrivateKey creds) EmptyString
           then Returns (Some ErrInvalidAuth) w
           else Returns None w
  end.

(** The port that [Connect] dials: [port := sshPort; if client.Port != 0
    { port = client.Port }]. *)
Definition dialPort (client : SSHClient) : Z :=
  if Port client =? 0 then sshPort else Port client.

(** The tail of [Connect], after a successful dial: store the connection,
    take [closeMutex], make the signal channel if there is none, start the
    keepalive task when one is configured, release the mutex. *)
Definition connected (client : SSHClient) (c : Conn) (w : World)
  : Outcome (option error * SSHClient) World :=
  if closeMutex w then Blocks w
  else
    let ch := match close client with None => Some ChanOpen | Some ch => Some ch end in
    let client' := {| Creds := Creds client; IP := IP client; Port := Port client;
                      Opts := Opts client; cryptoClient := c; close := ch |} in
    if 0 <? KeepAlive (Opts client)
    then Returns (None, client') (record EvGoKeepAlive w)
    else Returns (None, client') w.

Definition Connect (env : Env) (client : SSHClient) (w : World)
  : Outcome (option error * SSHClient) World :=
  bind (Validate client (record EvConnect w)) (fun v w =>
  match v, Creds client with
  | Some e, _ => Returns (Some e, client) w
  | None, None => Panics "nil pointer dereference" w
  | None, Some creds =>
      let '(auth, w) :=
        if negb (String.eqb (SSHPrivateKey creds) EmptyString) then getAuth env creds KeyAuth w
        else if negb (String.eqb (SSHPassword creds) EmptyString) then getAuth env creds PasswordAuth w
        else (ok AuthNil, w) in
      match auth with
      | err e => Returns (Some e, client) w
      | ok auth =>
          let config := {| User := SSHUser creds; Auth := [auth];
                           HostKey := InsecureIgnoreHostKey |} in
          let addr := ipString env (IP client) +:+ ":" +:+ FormatInt (dialPort client) in
          let '(took, r) := dial env w "tcp" addr config in
          let w := advance took (record (EvDial "tcp" addr config) w) in
          match r with
          | err e => Returns (Some e, client) w
          | ok c => connected client c w
          end
      end
  end).

(** [<-client.close] as a case of a [select]: ready exactly when the
    channel is not nil and has been closed. *)
Definition recvReady (ch : option Chan) : bool :=
  match ch with
  | Some ChanClosed => true
  | _ => false
  end.

Definition Disconnect (client : SSHClient) (w : World) : Outcome SSHClient World :=
  if recvReady (close client) then Returns client w
  else if closeMutex w then Blocks w
  else match close client with
       | Some ChanOpen =>
           Returns {| Creds := Creds client; IP := IP client; Port := Port client;
                      Opts := Opts client; cryptoClient := cryptoClient client;
                      close := None |} w
       | Some ChanClosed => Panics "close of closed channel" w
       | None => Returns client w
       end.

(** [time.Sleep(d)], taken to last exactly [d]. *)
Definition Sleep (d : Z) (w : World) : World := advance d (record (EvSleep d) w).

(** The loop of [WaitForSSH], [start] being the clock at entry. [fuel]
    bounds the number of iterations of the [for]. *)
Fixpoint WaitForSSH_loop (fuel : nat) (env : Env) (maxWait start : Z)
    (client : SSHClient) (w : World) : option (Outcome (option error * SSHClient) World) :=
  match fuel with
  | O => None
  | S fuel' =>
      match Connect env client w with
      | Returns (None, client) w =>
          Some (bind (Disconnect client w) (fun client w => Returns (None, client) w))
      | Returns (Some _, client) w =>
          let timePassed := now w - start in
          if maxWait <=? timePassed then Some (Returns (Some ErrTimeout, client) w)
          else WaitForSSH_loop fuel' env maxWait start client (Sleep (2 * Second) w)
      | Panics msg w => Some (Panics msg w)
      | Blocks w => Some (Blocks w)
      end
  end.

Definition WaitForSSH (fuel : nat) (env : Env) (maxWait : Z) (client : SSHClient) (w : World)
  : option (Outcome (option error * SSHClient) World) :=
  WaitForSSH_loop fuel env maxWait (now w) client w.

(** Number of [Connect] calls, dials and sleeps in a history. *)
Definition isConnect (e : Event) : bool := match e with EvConnect => true | _ => false end.
Definition isDial (e : Event) : bool := match e with EvDial _ _ _ => true | _ => false end.
Definition isSleep (e : Event) : bool := match e with EvSleep _ => true | _ => false end.

Definition attempts (w : World) : nat := length (List.filter isConnect (history w)).
Definition dials (w : World) : list Event := List.filter isDial (history w).
Definition sleeps (w : World) : list Event := List.filter isSleep (history w).

(** *** Notions used in the statements *)

(** A client every one of whose connection attempts ends in an error. *)
Definition alwaysFails (env : Env) (client : SSHClient) : Prop :=
  forall w, exists e w', Connect env client w = Returns (Some e, client) w'.

(** Every dial answers within [d] nanoseconds. *)
Definition dialWithin (env : Env) (d : Z) : Prop :=
  forall w network addr config, 0 <= fst (dial env w network addr config) <= d.

(** Five seconds, the [maxWait] of the specification's scenario. *)
Definition fiveSeconds : Z := 5 * Second.

(** The address that [Connect] dials. *)
Definition dialAddr (env : Env) (client : SSHClient) : string :=
  ipString env (IP client) +:+ ":" +:+ FormatInt (dialPort client).

Definition configWith (creds : Credentials) (auth : AuthMethod) : ClientConfig :=
  {| User := SSHUser creds; Auth := [auth]; HostKey := InsecureIgnoreHostKey |}.

(** *** Surroundings used in examples *)

(** The replacements that [requireMockedClient] of [ssh_test.go] installs:
    a dial and a key reader that both return [nil, nil]. *)
Definition mockedEnv : Env :=
  {| readPrivateKey := fun _ => ok AuthNil;
     dial := fun _ _ _ _ => (0, ok None);
     ipString := fun ip => ip |}.

(** A host that refuses every connection, after [took] nanoseconds. *)
Definition refusingEnv (took : Z) : Env :=
  {| readPrivateKey := fun _ => ok AuthNil;
     dial := fun _ _ _ _ => (took, err (ErrExternal "connection refused"));
     ipString := fun ip => ip |}.

(** The client of [TestConnectAuthPrecedence], given an address. *)
Definition testClient : SSHClient :=
  {| Creds := Some {| SSHUser := "test"; SSHPassword := "test"; SSHPrivateKey := "/foo" |};
     IP := "192.0.2.7";
     Port := 0;
     Opts := {| IPs := []; KeepAlive := 0; Pty := false |};
     cryptoClient := None;
     close := None |}.

(** The same client with a port of its own and a keepalive interval. *)
Definition portClient : SSHClient :=
  {| Creds := Creds testClient;
     IP := IP testClient;
     Port := 2222;
     Opts := {| IPs := []; KeepAlive := 30; Pty := false |};
     cryptoClient := None;
     close := None |}.

Definition startWorld : World := {| now := 0; closeMutex := false; history := [] |}.

End SSH.

(** ** The shell provisioner controllers *)

Module Controller.

Definition ShellProvisionerRepo : string := "ghcr.io/forge-build/forge-provisioner-shell".
Definition ShellProvisionerTag : string := "latest".
Definition ForgeCoreNamespace : string := "forge-core".
Definition ForgeProvisionerShellName : string := "forge-provisioner-shell".
Definition BuildNameLabel : string := "forge.build/build-name".

(** The label key [buildv1.ProvisionerIDLabel]; its declaration is not
    among the sources, the value is the one the specification gives. *)
Definition ProvisionerIDLabel : string := "provisioner-id".

(** *** API types, as far as the controllers read them *)

Record ObjectReference := {
  refAPIVersion : string;
  refKind : string;
  refNamespace : string;
  refName : string
}.

(** [buildv1.ProvisionerSpec], with the fields of the resource schema
    [config/crd/bases/forge.build_builds.yaml]. [Run], [RunConfigMapRef]
    and [UUID] are pointers, nil when the field is absent. *)
Record ProvisionerSpec := {
  provType : string;
  Run : option string;
  RunConfigMapRef : option ObjectReference;
  UUID : option string;
  provStatus : string;
  Retries : Z;
  AllowFail : bool;
  FailureReason : string;
  FailureMessage : string
}.

Definition setUUID (id : string) (spec : ProvisionerSpec) : ProvisionerSpec :=
  {| provType := provType spec; Run := Run spec; RunConfigMapRef := RunConfigMapRef spec;
     UUID := Some id; provStatus := provStatus spec; Retries := Retries spec;
     AllowFail := AllowFail spec; FailureReason := FailureReason spec;
     FailureMessage := FailureMessage spec |}.

(** [buildv1.Build]: name, namespace and
    [Spec.Connector.Credentials.Name]. *)
Record Build := {
  buildName : string;
  buildNamespace : string;
  credentialsName : string
}.

Inductive JobConditionType :=
| JobComplete
| JobFailed
| JobOtherCondition (name : string).

(** [batchv1.Job]. [jobSelector] is [Spec.Selector], a pointer, with its
    [MatchLabels]; [jobScript] is the script the unit was given. *)
Record Job := {
  jobName : string;
  jobNamespace : string;
  jobLabels : gmap string string;
  jobSelector : option (gmap string string);
  jobConditions : list JobConditionType;
  jobScript : option string
}.

Record ContainerStateTerminated := {
  ExitCode : Z;
  Reason : string;
  Message : string
}.

(** [corev1.ContainerStatus]: the name and [State.Terminated]. *)
Record ContainerStatus := {
  csName : string;
  Terminated : option ContainerStateTerminated
}.

Record Pod := {
  InitContainerStatuses : list ContainerStatus;
  ContainerStatuses : list ContainerStatus
}.

(** [ctrl.Result]. *)
Record Result := {
  Requeue : bool;
  RequeueAfter : Z
}.

Definition noRequeue : Result := {| Requeue := false; RequeueAfter := 0 |}.

Inductive OperationResult :=
| OperationResultNone
| OperationResultCreated
| OperationResultUpdated
| OperationResultUpdatedStatus
| OperationResultUpdatedStatusOnly.

(** Modelled from the spec: the job builder of package
    [provisioner/shell/job] is not among the sources. The specification
    lists what the descriptor is assembled from: namespace, build name and
    namespace, correlation id, image repository and tag, credentials
    reference, and the script source. Each [With...] call stores its
    argument; what [Build] makes of them is left to the environment. *)
Record ShellJobBuilder := {
  bNamespace : string;
  bBuildNamespace : string;
  bBuildName : string;
  bUUID : string;
  bRepo : string;
  bTag : string;
  bSSHCredentialsSecretName : string;
  bScriptToRun : option string
}.

Definition NewShellJobBuilder : ShellJobBuilder :=
  {| bNamespace := EmptyString; bBuildNamespace := EmptyString; bBuildName := EmptyString; bUUID := EmptyString;
     bRepo := EmptyString; bTag := EmptyString; bSSHCredentialsSecretName := EmptyString; bScriptToRun := None |}.

Definition WithNamespace (v : string) (b : ShellJobBuilder) : ShellJobBuilder :=
  {| bNamespace := v; bBuildNamespace := bBuildNamespace b; bBuildName := bBuildName b;
     bUUID := bUUID b; bRepo := bRepo b; bTag := bTag b;
     bSSHCredentialsSecretName := bSSHCredentialsSecretName b; bScriptToRun := bScriptToRun b |}.
Definition WithBuildNamespace (v : string) (b : ShellJobBuilder) : ShellJobBuilder :=
  {| bNamespace := bNamespace b; bBuildNamespace := v; bBuildName := bBuildName b;
     bUUID := bUUID b; bRepo := bRepo b; bTag := bTag b;
     bSSHCredentialsSecretName := bSSHCredentialsSecretName b; bScriptToRun := bScriptToRun b |}.
Definition WithBuildName (v : string) (b : ShellJobBuilder) : ShellJobBuilder :=
  {| bNamespace := bNamespace b; bBuildNamespace := bBuildNamespace b; bBuildName := v;
     bUUID := bUUID b; bRepo := bRepo b; bTag := bTag b;
     bSSHCredentialsSecretName := bSSHCredentialsSecretName b; bScriptToRun := bScriptToRun b |}.
Definition WithUUID (v : string) (b : ShellJobBuilder) : ShellJobBuilder :=
  {| bNamespace := bNamespace b; bBuildNamespace := bBuildNamespace b; bBuildName := bBuildName b;
     bUUID := v; bRepo := bRepo b; bTag := bTag b;
     bSSHCredentialsSecretName := bSSHCredentialsSecretName b; bScriptToRun := bScriptToRun b |}.
Definition WithRepo (v : string) (b : ShellJobBuilder) : ShellJobBuilder :=
  {| bNamespace := bNamespace b; bBuildNamespace := bBuildNamespace b; bBuildName := bBuildName b;
     bUUID := bUUID b; bRepo := v; bTag := bTag b;
     bSSHCredentialsSecretName := bSSHCredentialsSecretName b; bScriptToRun := bScriptToRun b |}.
Definition WithTag (v : string) (b : ShellJobBuilder) : ShellJobBuilder :=
  {| bNamespace := bNamespace b; bBuildNamespace := bBuildNamespace b; bBuildName := bBuildName b;
     bUUID := bUUID b; bRepo := bRepo b; bTag := v;
     bSSHCredentialsSecretName := bSSHCredentialsSecretName b; bScriptToRun := bScriptToRun b |}.
Definition WithSSHCredentialsSecretName (v : string) (b : ShellJobBuilder) : ShellJobBuilder :=
  {| bNamespace := bNamespace b; bBuildNamespace := bBuildNamespace b; bBuildName := bBuildName b;
     bUUID := bUUID b; bRepo := bRepo b; bTag := bTag b;
     bSSHCredentialsSecretName := v; bScriptToRun := bScriptToRun b |}.
Definition WithScriptToRun (v : string) (b : ShellJobBuilder) : ShellJobBuilder :=
  {| bNamespace := bNamespace b; bBuildNamespace := bBuildNamespace b; bBuildName := bBuildName b;
     bUUID := bUUID b; bRepo := bRepo b; bTag := bTag b;
     bSSHCredentialsSecretName := bSSHCredentialsSecretName b; bScriptToRun := Some v |}.

(** [img] of the failure path: an id and a cluster name. *)
Record Image := {
  imgID : string;
  imgCluster : string
}.

(** *** Events and environment *)

Inductive Event :=
| EvUUIDNew (id : string)
| EvCreateOrUpdate (desired : Job)
| EvClientGet (namespace name : string)
| EvClientDelete (job : Job)
| EvJobsGet (namespace name : string)
| EvPodsList (namespace selector : string)
| EvLogInfo (msg : string) (keysAndValues : list (string * string))
| EvLogError (e : error) (msg : string) (keysAndValues : list (string * string))
| EvCacheDeleteJob (id cluster : string)
| EvSetCache (action : string) (img : Image) (state msg : string)
| EvIncrementFailedScansTotal (action id cluster : string).

(** The world of a reconcile is the list of calls made so far. *)
Definition World := list Event.

Definition record (e : Event) (w : World) : World := (w ++ [e])%list.

(** The collaborators of the controllers. Each answers from the calls made
    so far. The last six stand for names the failure path uses without
    declaring them anywhere in the sources: the action type of a job (kept
    as its [String()] rendering) and its distinguished value
    [ClusterDeleteAction], the image of a job, the running-jobs cache, and
    the outcome cache behind [setCache]. [rangeOrder] is the order in which
    a [range] visits a map, which Go leaves unspecified. *)
Record Env := {
  uuidNew : World -> string;
  builderBuild : ShellJobBuilder -> result Job;
  createOrUpdate : World -> Job -> result OperationResult;
  clientGet : World -> string -> string -> result Job;
  clientDelete : World -> Job -> option error;
  jobsGet : World -> string -> string -> result Job;
  podsList : World -> string -> string -> result (option (list Pod));
  rangeOrder : World -> gmap string ContainerStateTerminated
               -> list (string * ContainerStateTerminated);
  getActionTypeFromJob : Job -> result string;
  ClusterDeleteAction : string;
  getContainerImageFromJob : Job -> result Image;
  cacheDeleteJob : World -> string -> string -> option error;
  setCache : World -> string -> Image -> string -> string -> bool;
  StateError : string
}.

(** Reading through a pointer. *)
Definition deref {A} (p : option A) (w : World) : Outcome A World :=
  match p with
  | Some a => Returns a w
  | None => Panics "nil pointer dereference" w
  end.

Definition Second : Z := 1000000000.

(** *** The orchestrator *)

(** [Reconcile] returns its [ctrl.Result] and error, and the provisioner
    spec as the call leaves it (the spec is passed by pointer). *)
Definition Reconcile (env : Env) (build : Build) (spec : ProvisionerSpec) (w : World)
  : Outcome (Result * option error * ProvisionerSpec) World :=
  match UUID spec with
  | Some _ => Returns (noRequeue, None, spec) w
  | None =>
      let id := uuidNew env w in
      let w := record (EvUUIDNew id) w in
      let builder :=
        WithSSHCredentialsSecretName (credentialsName build)
          (WithTag ShellProvisionerTag
             (WithRepo ShellProvisionerRepo
                (WithUUID id
                   (WithBuildName (buildName build)
                      (WithBuildNamespace (buildNamespace build)
                         (WithNamespace ForgeCoreNamespace NewShellJobBuilder)))))) in
      bind (match Run spec with
            | Some _ =>
                bind (deref (Run spec) w) (fun run w => Returns (WithScriptToRun run builder) w)
            | None => Returns builder w
            end) (fun builder w =>
      bind (match RunConfigMapRef spec with
            | Some _ =>
                bind (deref (Run spec) w) (fun run w => Returns (WithScriptToRun run builder) w)
            | None => Returns builder w
            end) (fun builder w =>
      match builderBuild env builder with
      | err e => Returns (noRequeue, Some e, spec) w
      | ok desired =>
          let r := createOrUpdate env w desired in
          let w := record (EvCreateOrUpdate desired) w in
          match r with
          | err e => Returns (noRequeue, Some e, spec) w
          | ok op =>
              let spec := setUUID id spec in
              match op with
              | OperationResultNone => Returns (noRequeue, None, spec) w
              | _ => Returns ({| Requeue := false; RequeueAfter := 2 * Second |}, None, spec) w
              end
          end
      end))
  end.

(** *** The job watcher *)

(** [k8sapierror.IsNotFound] and [errors.Is(err, podControlledByJobNotFoundErr)]
    look through wrapped causes. *)
Fixpoint IsNotFound (e : error) : bool :=
  match e with
  | ErrNotFound => true
  | Wrapf _ cause => IsNotFound cause
  | _ => false
  end.

Fixpoint IsPodControlledByJobNotFound (e : error) : bool :=
  match e with
  | ErrPodControlledByJobNotFound => true
  | Wrapf _ cause => IsPodControlledByJobNotFound cause
  | _ => false
  end.

Definition deleteJob (env : Env) (job : Job) (w : World) : option error * World :=
  let r := clientDelete env w job in
  let w := record (EvClientDelete job) w in
  match r with
  | Some e => if IsNotFound e then (None, w) else (Some (Wrapf "deleting job: " e), w)
  | None => (None, w)
  end.

(** One step of the two loops of [GetTerminatedContainersStatusesByPod]. *)
Definition collect (states : gmap string ContainerStateTerminated) (status : ContainerStatus)
  : gmap string ContainerStateTerminated :=
  match Terminated status with
  | None => states
  | Some t => <[csName status := t]> states
  end.

Definition GetTerminatedContainersStatusesByPod (pod : option Pod)
  : gmap string ContainerStateTerminated :=
  match pod with
  | None => ∅
  | Some pod => foldl collect (foldl collect ∅ (InitContainerStatuses pod)) (ContainerStatuses pod)
  end.

(** [m[k]] on a [map[string]string]: the empty string when [k] is absent. *)
Definition index (m : gmap string string) (k : string) : string := default EmptyString (m !! k).

Definition podListLookup (env : Env) (namespace : string) (refreshedJob : Job) (w : World)
  : Outcome (result (option (list Pod))) World :=
  bind (deref (jobSelector refreshedJob) w) (fun matchLabels w =>
    let matchingLabelKey := "controller-uid" in
    let matchingLabelValue := index matchLabels matchingLabelKey in
    let '(matchingLabelKey, matchingLabelValue) :=
      if (String.length matchingLabelValue =? 0)%nat
      then ("batch.kubernetes.io/controller-uid",
            index matchLabels "batch.kubernetes.io/controller-uid")
      else (matchingLabelKey, matchingLabelValue) in
    let selector := matchingLabelKey +:+ "=" +:+ matchingLabelValue in
    Returns (podsList env w namespace selector) (record (EvPodsList namespace selector) w)).

Definition getPodByJob (env : Env) (job : Job) (w : World) : Outcome (result (option Pod)) World :=
  let r := jobsGet env w (jobNamespace job) (jobName job) in
  let w := record (EvJobsGet (jobNamespace job) (jobName job)) w in
  match r with
  | err e => Returns (err e) w
  | ok refreshedJob =>
      bind (podListLookup env (jobNamespace job) refreshedJob w) (fun r w =>
        match r with
        | err e => Returns (err e) w
        | ok (Some (pod :: _)) => Returns (ok (Some pod)) w
        | ok _ => Returns (ok None) w
        end)
  end.

(** The map returned is nil (empty) whenever the lookup failed; the error
    is nil when the pod was reported gone and the job could be deleted. *)
Definition GetTerminatedContainersStatusesByJob (env : Env) (job : Job) (w : World)
  : Outcome (gmap string ContainerStateTerminated * option error) World :=
  bind (getPodByJob env job w) (fun r w =>
    match r with
    | err e =>
        if IsNotFound e
        then Returns (∅, Some e) (record (EvLogInfo "Cached job must have been deleted" []) w)
        else if IsPodControlledByJobNotFound e
        then let w := record (EvLogInfo "Pod must have been deleted" []) w in
             let '(e, w) := deleteJob env job w in
             Returns (∅, e) w
        else Returns (∅, Some (Wrapf "unknown issue: " e)) w
    | ok pod => Returns (GetTerminatedContainersStatusesByPod pod, None) w
    end).

Definition processCompleteScanJob (env : Env) (job : Job) (w : World)
  : Outcome (option error) World :=
  let build := index (jobLabels job) BuildNameLabel in
  let provisionerID := index (jobLabels job) ProvisionerIDLabel in
  let w := record (EvLogInfo "Job complete" [("build", build); ("provisionerID", provisionerID)]) w in
  let w := record (EvLogInfo "Job complete - Deleting complete shell job" [("job", jobName job)]) w in
  let '(e, w) := deleteJob env job w in
  Returns e w.

(** [fmt.Sprintf("scanjob failed with reason: %s and message: %s", ...)]. *)
Definition errorMsg (status : ContainerStateTerminated) : string :=
  "scanjob failed with reason: " +:+ Reason status +:+ " and message: " +:+ Message status.

(** The failure record of one container: the error log entry naming the
    container, its reason and its message. *)
Definition failureRecord (img : Image) (container : string) (status : ContainerStateTerminated)
  : Event :=
  EvLogError (Errorf "scan job failed") "scanjob failed with reason"
    [("image", imgID img); ("cluster", imgCluster img); ("container", container);
     ("errorMessage", errorMsg status)].

(** The body of [for container, status := range statuses], over the
    entries in the order the [range] visits them. *)
Fixpoint reportFailures (env : Env) (actionType : string) (img : Image)
    (entries : list (string * ContainerStateTerminated)) (w : World) : option error * World :=
  match entries with
  | [] => (None, w)
  | (container, status) :: rest =>
      if ExitCode status =? 0 then reportFailures env actionType img rest w
      else
        let w := record (failureRecord img container status) w in
        let done := setCache env w actionType img (StateError env) (errorMsg status) in
        let w := record (EvSetCache actionType img (StateError env) (errorMsg status)) w in
        if done then reportFailures env actionType img rest w
        else (Some (Errorf "cannot set cache when job is failed"), w)
  end.

Definition processFailedScanJob (env : Env) (job : Job) (w : World)
  : Outcome (option error) World :=
  match getActionTypeFromJob env job with
  | err e => Returns (Some e) w
  | ok actionType =>
  match getContainerImageFromJob env job with
  | err e => Returns (Some e) w
  | ok img =>
      if String.eqb actionType (ClusterDeleteAction env)
      then
        let w := record (EvIncrementFailedScansTotal (ClusterDeleteAction env)
                           (imgID img) (imgCluster img)) w in
        let '(e, w) := deleteJob env job w in
        Returns e w
      else
        let w := record (EvLogInfo "Job failed"
                           [("image", imgID img); ("cluster", imgCluster img)]) w in
        bind (GetTerminatedContainersStatusesByJob env job w) (fun r w =>
          match r with
          | (_, Some e) =>
              Returns (Some e)
                (record (EvLogError e "Could not get terminated container statuses" []) w)
          | (statuses, None) =>
              let r := cacheDeleteJob env w (imgID img) (imgCluster img) in
              let w := record (EvCacheDeleteJob (imgID img) (imgCluster img)) w in
              match r with
              | Some _ => Returns (Some (Errorf "cannot decrease number of running jobs")) w
              | None =>
                  let '(e, w) :=
                    reportFailures env actionType img (rangeOrder env w statuses) w in
                  match e with
                  | Some e => Returns (Some e) w
                  | None =>
                      let w := record (EvIncrementFailedScansTotal actionType
                                         (imgID img) (imgCluster img)) w in
                      let w := record (EvLogInfo "Deleting failed scan job" []) w in
                      let '(e, w) := deleteJob env job w in
                      Returns e w
                  end
              end
          end)
  end
  end.

Definition conditionName (c : JobConditionType) : string :=
  match c with
  | JobComplete => "Complete"
  | JobFailed => "Failed"
  | JobOtherCondition name => name
  end.

(** The function returned by [reconcileJobs], applied to the namespaced
    name of the request. *)
Definition reconcileJobs (env : Env) (namespace name : string) (w : World)
  : Outcome (Result * option error) World :=
  let r := clientGet env w namespace name in
  let w := record (EvClientGet namespace name) w in
  match r with
  | err e =>
      if IsNotFound e
      then Returns (noRequeue, None)
             (record (EvLogInfo "Ignoring cached job that must have been deleted" []) w)
      else Returns (noRequeue, Some (Wrapf "getting job from cache: " e)) w
  | ok job =>
      match jobConditions job with
      | [] => Returns (noRequeue, None) (record (EvLogInfo "Ignoring Job without conditions" []) w)
      | jobCondition :: _ =>
          bind (match jobCondition with
                | JobComplete => processCompleteScanJob env job w
                | JobFailed => processFailedScanJob env job w
                | _ => Returns (Some (Errorf ("unrecognized scan job condition: "
                                              +:+ conditionName jobCondition))) w
                end) (fun e w =>
            match e with
            | Some e => Returns (noRequeue, Some e) (record (EvLogError e "Failed processing job" []) w)
            | None => Returns (noRequeue, None) w
            end)
      end
  end.

(** [kv[k]] in the key-value list of a log entry. *)
Definition keyValue (k : string) (kv : list (string * string)) : option string :=
  match List.find (fun p => String.eqb (fst p) k) kv with
  | Some p => Some (snd p)
  | None => None
  end.

(** The container a failure record refers to, for events that are one:
    the error log entries with the message of the failure loop. *)
Definition recordContainer (e : Event) : option string :=
  match e with
  | EvLogError _ msg kv =>
      if String.eqb msg "scanjob failed with reason" then keyValue "container" kv else None
  | _ => None
  end.

(** Is [e] a failure record about [container]? *)
Definition isRecordFor (container : string) (e : Event) : bool :=
  match recordContainer e with
  | Some c => String.eqb c container
  | None => false
  end.

(** The failure records about [container] in a history. *)
Definition recordsFor (container : string) (w : World) : list Event :=
  List.filter (isRecordFor container) w.

(** Is [e] a delete call for the object named like [job]? *)
Definition isDeleteOf (job : Job) (e : Event) : bool :=
  match e with
  | EvClientDelete j =>
      String.eqb (jobNamespace j) (jobNamespace job) && String.eqb (jobName j) (jobName job)
  | _ => false
  end.

(** The delete calls issued for [job] in a history. *)
Definition deletesOf (job : Job) (w : World) : list Event :=
  List.filter (isDeleteOf job) w.

(** The container statuses of a pod, init containers first. *)
Definition podStatuses (pod : option Pod) : list ContainerStatus :=
  match pod with
  | None => []
  | Some pod => (InitContainerStatuses pod ++ ContainerStatuses pod)%list
  end.

(** *** Notions used in the statements *)

(** The builder that [Reconcile] hands to [Build] when it gets that far:
    the script it carries is the inline [Run] of the spec. *)
Definition descriptor (build : Build) (spec : ProvisionerSpec) (id : string) : ShellJobBuilder :=
  {| bNamespace := ForgeCoreNamespace;
     bBuildNamespace := buildNamespace build;
     bBuildName := buildName build;
     bUUID := id;
     bRepo := ShellProvisionerRepo;
     bTag := ShellProvisionerTag;
     bSSHCredentialsSecretName := credentialsName build;
     bScriptToRun := Run spec |}.

(** The records about [c] that a pass over [entries] is to add. *)
Definition expected (img : Image) (c : string)
    (entries : list (string * ContainerStateTerminated)) : list Event :=
  flat_map (fun '(k, st) =>
              if String.eqb k c && negb (ExitCode st =? 0) then [failureRecord img k st] else [])
           entries.

(** *** Surroundings used in examples *)

Definition exampleBuild : Build :=
  {| buildName := "ubuntu-2204"; buildNamespace := "default"; credentialsName := "aws-credentials" |}.

Definition exampleSpec (run : option string) (ref : option ObjectReference)
    (uuid : option string) : ProvisionerSpec :=
  {| provType := "built-in/shell"; Run := run; RunConfigMapRef := ref; UUID := uuid;
     provStatus := "Pending"; Retries := 0; AllowFail := false;
     FailureReason := EmptyString; FailureMessage := EmptyString |}.

Definition exampleRef : ObjectReference :=
  {| refAPIVersion := "v1"; refKind := "ConfigMap"; refNamespace := "default";
     refName := "install-script" |}.

(** A failed unit whose pod ran an init container to success and a main
    container to exit code 7. *)
Definition exampleJob : Job :=
  {| jobName := "shell-42";
     jobNamespace := ForgeCoreNamespace;
     jobLabels := {[ BuildNameLabel := "ubuntu-2204"; ProvisionerIDLabel := "42" ]};
     jobSelector := Some {[ "batch.kubernetes.io/controller-uid" := "c0ffee" ]};
     jobConditions := [JobFailed];
     jobScript := Some "make install" |}.

Definition examplePod : Pod :=
  {| InitContainerStatuses :=
       [ {| csName := "fetch";
            Terminated := Some {| ExitCode := 0; Reason := "Completed"; Message := EmptyString |} |} ];
     ContainerStatuses :=
       [ {| csName := "shell";
            Terminated := Some {| ExitCode := 7; Reason := "Error";
                                  Message := "exit status 7" |} |} ] |}.


(** A cluster in which every API call succeeds, create-or-update reports
    [op], the pod behind [exampleJob] is [examplePod], every job has action
    type [action], and the outcome cache accepts a record or not as
    [accept] says. *)
Definition clusterEnvWith (op : OperationResult) (action : string) (accept : bool) : Env :=
  {| uuidNew := fun _ => "3f0c9a52-6f0e-4e0b-9d7e-5a1f3c2b7d10";
     builderBuild := fun b =>
       ok {| jobName := "shell-" +:+ bUUID b;
             jobNamespace := bNamespace b;
             jobLabels := {[ BuildNameLabel := bBuildName b; ProvisionerIDLabel := bUUID b ]};
             jobSelector := None;
             jobConditions := [];
             jobScript := bScriptToRun b |};
     createOrUpdate := fun _ _ => ok op;
     clientGet := fun _ _ _ => ok exampleJob;
     clientDelete := fun _ _ => None;
     jobsGet := fun _ _ _ => ok exampleJob;
     podsList := fun _ _ _ => ok (Some [examplePod]);
     rangeOrder := fun _ m => map_to_list m;
     getActionTypeFromJob := fun _ => ok action;
     ClusterDeleteAction := "cluster-delete";
     getContainerImageFromJob := fun j => ok {| imgID := jobName j; imgCluster := "local" |};
     cacheDeleteJob := fun _ _ _ => None;
     setCache := fun _ _ _ _ _ => accept;
     StateError := "error" |}.

Definition clusterEnv (op : OperationResult) : Env := clusterEnvWith op "provision" true.

Definition exampleImage : Image := {| imgID := "shell-42"; imgCluster := "local" |}.

Definition exit7 : ContainerStateTerminated :=
  {| ExitCode := 7; Reason := "Error"; Message := "exit status 7" |}.

End Controller.

(** ** Further notions used in the statements *)

Module ScpNotions.
Import Go Scp.

(** The header line [C<mode> <size> <name>\n] for given field texts. *)
Definition headerLine (mode size name : string) : string :=
  String "C" mode +:+ String SP (size +:+ String SP (name +:+ String LF EmptyString)).

(** Is every byte of [s] one of the digits [0] to [7]? *)
Fixpoint allOctal (s : string) : bool :=
  match s with
  | EmptyString => true
  | String c s' => ((48 <=? N_of_ascii c) && (N_of_ascii c <=? 55))%N && allOctal s'
  end.

End ScpNotions.

Module SSHNotions.
Import SSH.

Definition isGoKeepAlive (e : Event) : bool :=
  match e with
  | EvGoKeepAlive => true
  | _ => false
  end.

(** The keepalive tasks started in a history. *)
Definition keepAlives (w : World) : nat := length (List.filter isGoKeepAlive (history w)).

(** Do two clients agree on everything but the signal channel? *)
Definition sameButSignal (a b : SSHClient) : Prop :=
  Creds a = Creds b /\ IP a = IP b /\ Port a = Port b /\ Opts a = Opts b
  /\ cryptoClient a = cryptoClient b.

End SSHNotions.

(** ** pkg/ssh: the credential accessors *)

Module SSHAccess.
Import SSH.

(** The client with the credentials behind its [Creds] pointer replaced.
    The credentials are kept inside the client: a second client sharing the
    pointer is outside this model. *)
Definition withCreds (creds : Credentials) (client : SSHClient) : SSHClient :=
  {| Creds := Some creds; IP := IP client; Port := Port client; Opts := Opts client;
     cryptoClient := cryptoClient client; close := close client |}.

(** The four accessors lock [Creds.mu], read or write one field, and
    unlock. The lock is held only inside these calls, so in a sequential
    run it is always free on entry. Reaching [mu] through a nil [Creds]
    panics. *)
Definition SetSSHPrivateKey (s : string) (client : SSHClient) (w : World)
  : Outcome SSHClient World :=
  match Creds client with
  | None => Panics "nil pointer dereference" w
  | Some creds =>
      Returns (withCreds {| SSHUser := SSHUser creds; SSHPassword := SSHPassword creds;
                            SSHPrivateKey := s |} client) w
  end.

Definition GetSSHPrivateKey (client : SSHClient) (w : World) : Outcome string World :=
  match Creds client with
  | None => Panics "nil pointer dereference" w
  | Some creds => Returns (SSHPrivateKey creds) w
  end.

Definition SetSSHPassword (s : string) (client : SSHClient) (w : World)
  : Outcome SSHClient World :=
  match Creds client with
  | None => Panics "nil pointer dereference" w
  | Some creds =>
      Returns (withCreds {| SSHUser := SSHUser creds; SSHPassword := s;
                            SSHPrivateKey := SSHPrivateKey creds |} client) w
  end.

Definition GetSSHPassword (client : SSHClient) (w : World) : Outcome string World :=
  match Creds client with
  | None => Panics "nil pointer dereference" w
  | Some creds => Returns (SSHPassword creds) w
  end.

End SSHAccess.

(** ** pkg/ssh: Run *)

Module SSHRun.
Import SSH.

(** The calls that [Run] makes on the connection and on its session. *)
Inductive Event :=
| EvNewSession
| EvRequestPty (term : string) (h w : Z) (modes : list (string * Z))
| EvRun (command : string)
| EvClose
| EvLog (e : error).

Definition World := list Event.

Definition record (e : Event) (w : World) : World := (w ++ [e])%list.

(** The transport behind [Run]: whether a session can be opened, whether
    the remote side grants a terminal, what the command ends with, whether
    the session closes cleanly; and the value of [TERM] in the
    environment. *)
Record Env := {
  newSession : World -> option error;
  requestPty : World -> string -> Z -> Z -> list (string * Z) -> option error;
  sessionRun : World -> string -> option error;
  sessionClose : World -> option error;
  getenvTERM : string
}.

(** [cssh.TerminalModes{ECHO: 0, TTY_OP_ISPEED: 14400, TTY_OP_OSPEED: 14400}]. *)
Definition modes : list (string * Z) :=
  [("ECHO", 0); ("TTY_OP_ISPEED", 14400); ("TTY_OP_OSPEED", 14400)].

(** The body of [Run] once the session is open, up to the deferred close. *)
Definition runBody (env : Env) (client : SSHClient) (command : string) (w : World)
  : option error * World :=
  if Pty (Opts client)
  then
    let r := requestPty env w (getenvTERM env) 80 40 modes in
    let w := record (EvRequestPty (getenvTERM env) 80 40 modes) w in
    match r with
    | Some e => (Some e, w)
    | None => (sessionRun env w command, record (EvRun command) w)
    end
  else (sessionRun env w command, record (EvRun command) w).

(** [Run]. Opening a session on a nil connection panics. The deferred
    function closes the session and logs an error of the close. *)
Definition Run (env : Env) (client : SSHClient) (command : string) (w : World)
  : Outcome (option error) World :=
  match cryptoClient client with
  | None => Panics "nil pointer dereference" w
  | Some _ =>
      let r := newSession env w in
      let w := record EvNewSession w in
      match r with
      | Some e => Returns (Some e) w
      | None =>
          let '(res, w) := runBody env client command w in
          let c := sessionClose env w in
          let w := record EvClose w in
          Returns res (match c with Some e => record (EvLog e) w | None => w end)
      end
  end.

Definition isRun (e : Event) : bool := match e with EvRun _ => true | _ => false end.
Definition isClose (e : Event) : bool := match e with EvClose => true | _ => false end.
Definition isPty (e : Event) : bool := match e with EvRequestPty _ _ _ _ => true | _ => false end.
Definition isNewSession (e : Event) : bool := match e with EvNewSession => true | _ => false end.

Definition count (p : Event -> bool) (w : World) : nat := length (List.filter p w).

(** A transport on which everything succeeds except, when [grant] is
    false, the terminal request. *)
Definition ptyEnv (grant : bool) : Env :=
  {| newSession := fun _ => None;
     requestPty := fun _ _ _ _ _ =>
       if grant then None else Some (ErrExternal "pty request failed");
     sessionRun := fun _ _ => None;
     sessionClose := fun _ => Some EOF;
     getenvTERM := "xterm" |}.

(** A connected client that asks for a terminal. *)
Definition ptyClient : SSHClient :=
  {| Creds := Creds testClient; IP := IP testClient; Port := 0;
     Opts := {| IPs := []; KeepAlive := 0; Pty := true |};
     cryptoClient := Some 1%nat; close := Some ChanOpen |}.

End SSHRun.

Module ControllerNotions.
Import Controller.

Definition isApply (e : Event) : bool :=
  match e with
  | EvCreateOrUpdate _ => true
  | _ => false
  end.

(** The create-or-update calls in a history. *)
Definition applies (w : World) : list Event := List.filter isApply w.

Definition isLookup (e : Event) : bool :=
  match e with
  | EvJobsGet _ _ | EvPodsList _ _ => true
  | _ => false
  end.

(** The calls of the pod lookup in a history. *)
Definition lookups (w : World) : list Event := List.filter isLookup w.

Definition isAnyDelete (e : Event) : bool :=
  match e with
  | EvClientDelete _ => true
  | _ => false
  end.

(** All delete calls in a history. *)
Definition deletes (w : World) : list Event := List.filter isAnyDelete w.

Definition isAnyRecord (e : Event) : bool :=
  match recordContainer e with
  | Some _ => true
  | None => false
  end.

(** All failure records in a history. *)
Definition records (w : World) : list Event := List.filter isAnyRecord w.

Definition isCacheCall (e : Event) : bool :=
  match e with
  | EvCacheDeleteJob _ _ | EvSetCache _ _ _ _ => true
  | _ => false
  end.

(** The calls on the two caches in a history. *)
Definition cacheCalls (w : World) : list Event := List.filter isCacheCall w.

(** Do two specs agree on everything but the correlation id? *)
Definition sameButUUID (a b : ProvisionerSpec) : Prop :=
  provType a = provType b /\ Run a = Run b /\ RunConfigMapRef a = RunConfigMapRef b
  /\ provStatus a = provStatus b /\ Retries a = Retries b /\ AllowFail a = AllowFail b
  /\ FailureReason a = FailureReason b /\ FailureMessage a = FailureMessage b.

(** A pod whose init container and main container share a name. *)
Definition clashPod : Pod :=
  {| InitContainerStatuses :=
       [ {| csName := "shell";
            Terminated := Some {| ExitCode := 0; Reason := "Completed";
                                  Message := EmptyString |} |} ];
     ContainerStatuses := [ {| csName := "shell"; Terminated := Some exit7 |} ] |}.

(** A job whose first condition is [c]. *)
Definition jobWith (c : list JobConditionType) : Job :=
  {| jobName := jobName exampleJob; jobNamespace := jobNamespace exampleJob;
     jobLabels := jobLabels exampleJob; jobSelector := jobSelector exampleJob;
     jobConditions := c; jobScript := jobScript exampleJob |}.

(** A cluster like [clusterEnv] in which the watcher's [Get] answers [got],
    the job lookup of the failure path answers [found] and a delete answers
    [deleted]. *)
Definition watchEnv (got found : result Job) (deleted : option error) : Env :=
  {| uuidNew := uuidNew (clusterEnv OperationResultCreated);
     builderBuild := builderBuild (clusterEnv OperationResultCreated);
     createOrUpdate := createOrUpdate (clusterEnv OperationResultCreated);
     clientGet := fun _ _ _ => got;
     clientDelete := fun _ _ => deleted;
     jobsGet := fun _ _ _ => found;
     podsList := podsList (clusterEnv OperationResultCreated);
     rangeOrder := rangeOrder (clusterEnv OperationResultCreated);
     getActionTypeFromJob := getActionTypeFromJob (clusterEnv OperationResultCreated);
     ClusterDeleteAction := ClusterDeleteAction (clusterEnv OperationResultCreated);
     getContainerImageFromJob := getContainerImageFromJob (clusterEnv OperationResultCreated);
     cacheDeleteJob := cacheDeleteJob (clusterEnv OperationResultCreated);
     setCache := setCache (clusterEnv OperationResultCreated);
     StateError := StateError (clusterEnv OperationResultCreated) |}.

(** A cluster like [clusterEnv] whose builder or whose apply fails. *)
Definition failingEnv (build : option error) (apply : result OperationResult) : Env :=
  {| uuidNew := uuidNew (clusterEnv OperationResultCreated);
     builderBuild := fun b =>
       match build with
       | Some e => err e
       | None => builderBuild (clusterEnv OperationResultCreated) b
       end;
     createOrUpdate := fun _ _ => apply;
     clientGet := clientGet (clusterEnv OperationResultCreated);
     clientDelete := clientDelete (clusterEnv OperationResultCreated);
     jobsGet := jobsGet (clusterEnv OperationResultCreated);
     podsList := podsList (clusterEnv OperationResultCreated);
     rangeOrder := rangeOrder (clusterEnv OperationResultCreated);
     getActionTypeFromJob := getActionTypeFromJob (clusterEnv OperationResultCreated);
     ClusterDeleteAction := ClusterDeleteAction (clusterEnv OperationResultCreated);
     getContainerImageFromJob := getContainerImageFromJob (clusterEnv OperationResultCreated);
     cacheDeleteJob := cacheDeleteJob (clusterEnv OperationResultCreated);
     setCache := setCache (clusterEnv OperationResultCreated);
     StateError := StateError (clusterEnv OperationResultCreated) |}.

End ControllerNotions.

(** ** utils/predicates *)

Module Predicates.

(** A [client.Object], as far as the predicates and the helpers they call
    read it. *)
Record Object := {
  objKind : string;
  objNamespace : string;
  objName : string;
  objLabels : gmap string string;
  objAnnotations : gmap string string
}.

(** A [logr.Logger] is the key-value pairs it has been given; a line
    logged through it carries them, with its verbosity and message. *)
Definition Logger := list (string * string).

Record LogLine := {
  verbosity : Z;
  message : string;
  values : Logger
}.

Definition WithValues (logger : Logger) (kv : list (string * string)) : Logger :=
  (logger ++ kv)%list.

Definition Info (logger : Logger) (v : Z) (msg : string) : LogLine :=
  {| verbosity := v; message := msg; values := logger |}.

Record UpdateEvent := {
  ObjectOld : Object;
  ObjectNew : Object
}.

(** A function field of [predicate.Funcs]: nil, or a function from the
    event to its verdict, with the lines it logs. *)
Definition Func (E : Type) := option (E -> bool * list LogLine).

(** [predicate.Funcs]. Create, delete and generic events carry one object. *)
Record Funcs := {
  UpdateFunc : Func UpdateEvent;
  CreateFunc : Func Object;
  DeleteFunc : Func Object;
  GenericFunc : Func Object
}.

(** What the package takes from elsewhere: [utils.HasPaused] and
    [utils.HasWatchLabel], whose package is not among the sources, and
    [strings.ToLower]. *)
Record Utils := {
  HasPaused : Object -> bool;
  HasWatchLabel : Object -> string -> bool;
  ToLower : string -> string
}.

Definition processIfNotPaused (u : Utils) (logger : Logger) (obj : Object)
  : bool * list LogLine :=
  let kind := ToLower u (objKind obj) in
  let log := WithValues logger [("namespace", objNamespace obj); (kind, objName obj)] in
  if HasPaused u obj
  then (false, [Info log 4 "Resource is paused, will not attempt to map resource"])
  else (true, [Info log 6 "Resource is not paused, will attempt to map resource"]).

Definition processIfLabelMatch (u : Utils) (logger : Logger) (obj : Object)
    (labelValue : string) : bool * list LogLine :=
  if String.eqb labelValue EmptyString then (true, [])
  else
    let kind := ToLower u (objKind obj) in
    let log := WithValues logger [("namespace", objNamespace obj); (kind, objName obj)] in
    if HasWatchLabel u obj labelValue
    then (true, [Info log 6 "Resource matches label, will attempt to map resource"])
    else (false, [Info log 4 "Resource does not match label, will not attempt to map resource"]).

Definition ResourceHasFilterLabel (u : Utils) (logger : Logger) (labelValue : string) : Funcs :=
  let with_ := fun eventType =>
    WithValues logger [("predicate", "ResourceHasFilterLabel"); ("eventType", eventType)] in
  {| UpdateFunc := Some (fun e => processIfLabelMatch u (with_ "update") (ObjectNew e) labelValue);
     CreateFunc := Some (fun o => processIfLabelMatch u (with_ "create") o labelValue);
     DeleteFunc := Some (fun o => processIfLabelMatch u (with_ "delete") o labelValue);
     GenericFunc := Some (fun o => processIfLabelMatch u (with_ "generic") o labelValue) |}.

Definition ResourceNotPaused (u : Utils) (logger : Logger) : Funcs :=
  let with_ := fun eventType =>
    WithValues logger [("predicate", "ResourceNotPaused"); ("eventType", eventType)] in
  {| UpdateFunc := Some (fun e => processIfNotPaused u (with_ "update") (ObjectNew e));
     CreateFunc := Some (fun o => processIfNotPaused u (with_ "create") o);
     DeleteFunc := Some (fun o => processIfNotPaused u (with_ "delete") o);
     GenericFunc := Some (fun o => processIfNotPaused u (with_ "generic") o) |}.

Definition blocked (log : Logger) : LogLine :=
  Info log 6 "One of the provided predicates returned false, blocking further processing".

Definition allowed (log : Logger) : LogLine :=
  Info log 6 "All provided predicates returned true, allowing further processing".

(** The loop that each of the four functions of [All] runs, [field]
    picking the function of that kind from a predicate:
    [for _, p := range predicates { if !p.XFunc(e) { ...; return false } }].
    [None] is the panic of calling a nil function. *)
Fixpoint allLoop {E : Type} (field : Funcs -> Func E) (log : Logger)
    (predicates : list Funcs) (e : E) : option (bool * list LogLine) :=
  match predicates with
  | [] => Some (true, [allowed log])
  | p :: rest =>
      match field p with
      | None => None
      | Some f =>
          let '(verdict, lines) := f e in
          if verdict
          then match allLoop field log rest e with
               | Some (r, lines') => Some (r, (lines ++ lines')%list)
               | None => None
               end
          else Some (false, (lines ++ [blocked log])%list)
      end
  end.

(** [All]; its functions are never nil, but may panic when run. *)
Record AllFuncs := {
  AllUpdate : UpdateEvent -> option (bool * list LogLine);
  AllCreate : Object -> option (bool * list LogLine);
  AllDelete : Object -> option (bool * list LogLine);
  AllGeneric : Object -> option (bool * list LogLine)
}.

Definition All (logger : Logger) (predicates : list Funcs) : AllFuncs :=
  let log := WithValues logger [("predicateAggregation", "All")] in
  {| AllUpdate := allLoop UpdateFunc log predicates;
     AllCreate := allLoop CreateFunc log predicates;
     AllDelete := allLoop DeleteFunc log predicates;
     AllGeneric := allLoop GenericFunc log predicates |}.

Definition ResourceNotPausedAndHasFilterLabel (u : Utils) (logger : Logger)
    (labelValue : string) : AllFuncs :=
  All logger [ResourceNotPaused u logger; ResourceHasFilterLabel u logger labelValue].

(** *** Notions used in the statements *)

(** Does predicate [p] have its function of the kind [field], and does
    that function accept [e]? *)
Definition accepts {E : Type} (field : Funcs -> Func E) (e : E) (p : Funcs) : Prop :=
  exists f, field p = Some f /\ fst (f e) = true.

Definition rejects {E : Type} (field : Funcs -> Func E) (e : E) (p : Funcs) : Prop :=
  exists f, field p = Some f /\ fst (f e) = false.

(** The lines that the predicates of a list log for [e], in order. *)
Fixpoint linesOf {E : Type} (field : Funcs -> Func E) (e : E) (ps : list Funcs)
  : list LogLine :=
  match ps with
  | [] => []
  | p :: rest =>
      (match field p with Some f => snd (f e) | None => [] end ++ linesOf field e rest)%list
  end.

(** An instance for the examples: an object counts as paused when it has
    the paused annotation, and as carrying the watch label when that label
    is present with exactly the given value. *)
Definition annotationUtils : Utils :=
  {| HasPaused := fun o => bool_decide (is_Some (objAnnotations o !! "forge.build/paused"));
     HasWatchLabel := fun o v =>
       bool_decide (objLabels o !! "cluster.x-k8s.io/watch-filter" = Some v);
     ToLower := fun s => s |}.

Definition pausedBuild : Object :=
  {| objKind := "build"; objNamespace := "default"; objName := "ubuntu-2204";
     objLabels := {[ "cluster.x-k8s.io/watch-filter" := "forge" ]};
     objAnnotations := {[ "forge.build/paused" := "true" ]} |}.

Definition runningBuild : Object :=
  {| objKind := "build"; objNamespace := "default"; objName := "ubuntu-2204";
     objLabels := {[ "cluster.x-k8s.io/watch-filter" := "forge" ]};
     objAnnotations := ∅ |}.

(** A predicate whose functions are all nil. *)
Definition nilFuncs : Funcs :=
  {| UpdateFunc := None; CreateFunc := None; DeleteFunc := None; GenericFunc := None |}.

End Predicates.

(* ===================================================================== *)
(** * Part II: properties                                                 *)
(* ===================================================================== *)

(** Case analysis on whatever the goal branches on, innermost first. *)
Ltac break_match :=
  match goal with
  | |- context [match ?x with _ => _ end] =>
      match x with
      | context [match _ with _ => _ end] => fail 1
      | _ => destruct x eqn:?
      end
  end.

(** ** Facts about the library functions *)

Module GoFacts.
Import Go.

Lemma append_nil (b : string) : EmptyString +:+ b = b.
Proof. reflexivity. Qed.

Lemma append_cons (x : ascii) (a b : string) : String x a +:+ b = String x (a +:+ b).
Proof. reflexivity. Qed.

Create Rewrite HintDb gostr.
#[export] Hint Rewrite append_nil append_cons : gostr.

(** Push appends under the leading bytes and evaluate. *)
Ltac sapp := autorewrite with gostr; simpl.

Lemma append_assoc (a b c : string) : (a +:+ b) +:+ c = a +:+ (b +:+ c).
Proof. induction a as [|x a IH]; sapp; congruence. Qed.

Lemma length_append (a b : string) :
  String.length (a +:+ b) = (String.length a + String.length b)%nat.
Proof. induction a as [|x a IH]; sapp; congruence. Qed.

Lemma contains_append (a b : string) (c : ascii) :
  contains (a +:+ b) c = contains a c || contains b c.
Proof.
  induction a as [|x a IH]; sapp; [reflexivity|].
  rewrite IH. now rewrite orb_assoc.
Qed.

Lemma take_append (a b : string) : take (String.length a) (a +:+ b) = a.
Proof. induction a as [|x a IH]; sapp; [now destruct b | congruence]. Qed.

Lemma drop_append (a b : string) : drop (String.length a) (a +:+ b) = b.
Proof. induction a as [|x a IH]; sapp; [now destruct b | exact IH]. Qed.

(** A line without the delimiter is read whole, delimiter included. *)
Lemma ReadString_line (a rest : string) (d : ascii) :
  contains a d = false ->
  ReadString (a +:+ String d rest) d = (a +:+ String d EmptyString, rest, None).
Proof.
  induction a as [|x a IH]; sapp; intros H.
  - now rewrite Ascii.eqb_refl.
  - apply orb_false_iff in H as [Hx Ha]. rewrite Hx, (IH Ha). reflexivity.
Qed.

Lemma Split_nonempty (s : string) (sep : ascii) : Split s sep <> [].
Proof.
  induction s as [|x s IH]; simpl; [discriminate|].
  destruct (Ascii.eqb x sep); [discriminate|].
  destruct (Split s sep); [contradiction | discriminate].
Qed.

(** A string without the separator is a single field. *)
Lemma Split_single (a : string) (sep : ascii) :
  contains a sep = false -> Split a sep = [a].
Proof.
  induction a as [|x a IH]; simpl; intros H; [reflexivity|].
  apply orb_false_iff in H as [Hx Ha]. now rewrite Hx, (IH Ha).
Qed.

(** The first field ends at the first separator. *)
Lemma Split_field (a b : string) (sep : ascii) :
  contains a sep = false -> Split (a +:+ String sep b) sep = a :: Split b sep.
Proof.
  induction a as [|x a IH]; sapp; intros H.
  - now rewrite Ascii.eqb_refl.
  - apply orb_false_iff in H as [Hx Ha]. now rewrite Hx, (IH Ha).
Qed.

(** *** Decimal digits *)

Lemma small_cases (d : N) :
  (d < 10)%N ->
  d = 0%N \/ d = 1%N \/ d = 2%N \/ d = 3%N \/ d = 4%N \/ d = 5%N \/ d = 6%N \/ d = 7%N
  \/ d = 8%N \/ d = 9%N.
Proof. lia. Qed.

Lemma digitVal_digit (d : N) : (d < 10)%N -> digitVal (digit d) = Some d.
Proof.
  intros H. destruct (small_cases d H) as [->|[->|[->|[->|[->|[->|[->|[->|[->| ->]]]]]]]]];
    reflexivity.
Qed.

Lemma isDigit_digit (d : N) : (d < 10)%N -> isDigit (digit d) = true.
Proof.
  intros H. destruct (small_cases d H) as [->|[->|[->|[->|[->|[->|[->|[->|[->| ->]]]]]]]]];
    reflexivity.
Qed.

Lemma isDigit_neq (c x : ascii) :
  isDigit c = true -> isDigit x = false -> Ascii.eqb c x = false.
Proof.
  intros Hc Hx. apply Ascii.eqb_neq. intros ->. rewrite Hc in Hx. discriminate.
Qed.

Lemma allDigits_contains (s : string) (x : ascii) :
  allDigits s = true -> isDigit x = false -> contains s x = false.
Proof.
  induction s as [|c s IH]; simpl; intros H Hx; [reflexivity|].
  apply andb_true_iff in H as [Hc Hs].
  now rewrite (isDigit_neq c x Hc Hx), (IH Hs Hx).
Qed.

Lemma size_nat_gt (u : N) : (u < 2 ^ N.of_nat (N.size_nat u))%N.
Proof.
  destruct u as [|p]; simpl; [lia|].
  induction p as [p IH|p IH|]; simpl Pos.size_nat.
  - rewrite Nat2N.inj_succ, N.pow_succ_r'. lia.
  - rewrite Nat2N.inj_succ, N.pow_succ_r'. lia.
  - simpl. lia.
Qed.

(** The conversion loop in base ten emits decimal digits only. *)
Lemma fmtDigits_allDigits (fuel : nat) (u : N) (buf : string) :
  (u < 2 ^ N.of_nat fuel)%N -> allDigits buf = true ->
  allDigits (fmtDigits 10 fuel u buf) = true.
Proof.
  revert u buf. induction fuel as [|fuel IH]; intros u buf Hu Hbuf.
  - simpl in *. assert (u = 0%N) as -> by lia. simpl. now rewrite Hbuf.
  - cbn [fmtDigits]. destruct (N.leb_spec 10 u) as [Hge|Hlt].
    + apply IH.
      * rewrite Nat2N.inj_succ, N.pow_succ_r' in Hu.
        apply N.Div0.div_lt_upper_bound. nia.
      * cbn [allDigits]. rewrite isDigit_digit, Hbuf; [reflexivity|].
        apply N.mod_lt. lia.
    + cbn [allDigits]. now rewrite isDigit_digit, Hbuf.
Qed.

(** Reading back what the conversion loop wrote: the digits of [u] in front
    of [rest] bring the accumulator from zero to [u]. *)
Lemma parseUintLoop_fmtDigits (fuel : nat) (u : N) (buf : string) :
  (u < 2 ^ N.of_nat fuel)%N -> (u <= maxUint64)%N ->
  parseUintLoop (fmtDigits 10 fuel u buf) 0 = parseUintLoop buf u.
Proof.
  revert u buf. induction fuel as [|fuel IH]; intros u buf Hu Hmax.
  - simpl in Hu. assert (u = 0%N) as -> by lia. reflexivity.
  - assert (Hstep : forall d v, (d < 10)%N -> (v < maxUint64 / 10 + 1)%N ->
              (v * 10 + d <= maxUint64)%N ->
              parseUintLoop (String (digit d) buf) v = parseUintLoop buf (v * 10 + d)%N).
    { intros d v Hd Hv Hn. cbn [parseUintLoop]. rewrite (digitVal_digit d Hd).
      destruct (N.leb_spec 10 d); [lia|].
      destruct (N.leb_spec (maxUint64 / 10 + 1) v); [lia|].
      destruct (N.ltb_spec maxUint64 (v * 10 + d)); [lia | reflexivity]. }
    cbn [fmtDigits]. destruct (N.leb_spec 10 u) as [Hge|Hlt].
    + rewrite IH.
      * assert (Hdm : u = (u / 10 * 10 + u mod 10)%N).
        { rewrite N.mul_comm. apply N.div_mod. lia. }
        assert (Hmod : (u mod 10 < 10)%N) by (apply N.mod_lt; lia).
        rewrite Hstep; [now rewrite <- Hdm | exact Hmod | | lia].
        unfold maxUint64 in *.
        assert (u / 10 <= 18446744073709551615 / 10)%N by (apply N.Div0.div_le_mono; lia).
        lia.
      * rewrite Nat2N.inj_succ, N.pow_succ_r' in Hu.
        apply N.Div0.div_lt_upper_bound. nia.
      * pose proof (N.Div0.div_le_upper_bound u 10 u). nia.
    + rewrite <- (N.add_0_l u) at 2. rewrite <- (N.mul_0_l 10).
      apply Hstep; [exact Hlt | unfold maxUint64; now vm_compute | lia].
Qed.

Lemma fmtUnsigned_allDigits (u : N) : allDigits (fmtUnsigned 10 u) = true.
Proof. apply fmtDigits_allDigits; [apply size_nat_gt | reflexivity]. Qed.

Lemma fmtUnsigned_nonempty (base u : N) : fmtUnsigned base u <> EmptyString.
Proof.
  unfold fmtUnsigned. generalize EmptyString at 1. generalize (N.size_nat u).
  intros fuel; revert u. induction fuel as [|fuel IH]; intros u buf; cbn [fmtDigits].
  - discriminate.
  - destruct (base <=? u)%N; [apply IH | discriminate].
Qed.

Lemma ParseUint_fmtUnsigned (u : N) :
  (u <= maxUint64)%N -> ParseUint (fmtUnsigned 10 u) = inl u.
Proof.
  intros Hmax. unfold ParseUint.
  pose proof (fmtUnsigned_nonempty 10 u) as Hne.
  destruct (fmtUnsigned 10 u) eqn:E; [contradiction|].
  rewrite <- E. unfold fmtUnsigned.
  rewrite parseUintLoop_fmtDigits; [reflexivity | apply size_nat_gt | exact Hmax].
Qed.

(** [%d] of a non-negative [int64] is read back by [ParseInt]. *)
Lemma ParseInt_FormatInt (i : Z) :
  0 <= i < 2 ^ 63 -> ParseInt (FormatInt i) = ok i.
Proof.
  intros Hi. unfold FormatInt. destruct (Z.ltb_spec i 0) as [|_]; [lia|].
  pose proof (fmtUnsigned_allDigits (Z.abs_N i)) as Hd.
  pose proof (ParseUint_fmtUnsigned (Z.abs_N i)) as Hp.
  pose proof (fmtUnsigned_nonempty 10 (Z.abs_N i)) as Hne.
  destruct (fmtUnsigned 10 (Z.abs_N i)) as [|c s] eqn:E; [contradiction|].
  cbn [allDigits] in Hd. apply andb_true_iff in Hd as [Hc _].
  unfold ParseInt.
  assert (Hplus : Ascii.eqb c "+" = false) by (apply isDigit_neq; [exact Hc | reflexivity]).
  assert (Hminus : Ascii.eqb c "-" = false) by (apply isDigit_neq; [exact Hc | reflexivity]).
  rewrite Hplus, Hminus. cbn [orb negb andb].
  rewrite Hp by (unfold maxUint64; lia).
  destruct (N.leb_spec (2 ^ 63) (Z.abs_N i)) as [Hbig|_]; [lia|].
  f_equal. lia.
Qed.

Lemma FormatInt_digits (i : Z) : 0 <= i -> allDigits (FormatInt i) = true.
Proof.
  intros Hi. unfold FormatInt. destruct (Z.ltb_spec i 0); [lia|].
  apply fmtUnsigned_allDigits.
Qed.

End GoFacts.

(** ** The copy protocol *)

Module ScpProps.
Import Go GoFacts Scp.

(** What the reader task does with a stream that starts with a well-formed
    header line [C<mode> <size> <name>\n]: the three fields are found, and
    [size] bytes of what follows are copied. *)
Lemma Download_wellformed (m D B payload : string) (n : Z) :
  String.length m = 4%nat -> contains m SP = false -> contains m LF = false ->
  allDigits D = true -> ParseInt D = ok n ->
  contains B SP = false -> contains B LF = false ->
  let stream := (String "C" m +:+ String SP (D +:+ String SP (B +:+ String LF EmptyString)))
                +:+ payload in
  scpMsgs stream = [String "C" m; D; B +:+ String LF EmptyString]
  /\ Download stream = (let '(written, _, e) := CopyN payload n in (written, e)).
Proof.
  intros Hlen HmSP HmLF HD Hparse HBSP HBLF stream.
  assert (HDSP : contains D SP = false) by (apply allDigits_contains; [exact HD | reflexivity]).
  assert (HDLF : contains D LF = false) by (apply allDigits_contains; [exact HD | reflexivity]).
  set (line := String "C" m +:+ String SP (D +:+ String SP B)).
  assert (Hstream : stream = line +:+ String LF payload).
  { unfold stream, line. rewrite !append_assoc. sapp. rewrite !append_assoc. sapp.
    rewrite !append_assoc. reflexivity. }
  assert (HlineLF : contains line LF = false).
  { unfold line. rewrite contains_append. cbn [contains]. rewrite contains_append. cbn [contains].
    rewrite HmLF, HDLF, HBLF. reflexivity. }
  assert (Hread : ReadString stream LF = (line +:+ String LF EmptyString, payload, None)).
  { rewrite Hstream. now apply ReadString_line. }
  assert (Hsplit : Split (line +:+ String LF EmptyString) SP
                   = [String "C" m; D; B +:+ String LF EmptyString]).
  { unfold line. rewrite !append_assoc. sapp. rewrite !append_assoc. sapp.
    change (String "C" (m +:+ String " " (D +:+ String " " (B +:+ String LF EmptyString))))
      with (String "C" m +:+ String SP (D +:+ String SP (B +:+ String LF EmptyString))).
    rewrite Split_field by (cbn [contains]; now rewrite HmSP).
    rewrite Split_field by exact HDSP.
    rewrite Split_single; [reflexivity|].
    rewrite contains_append. cbn [contains]. now rewrite HBSP. }
  split.
  - unfold scpMsgs. rewrite Hread. exact Hsplit.
  - unfold Download. rewrite Hread, Hsplit. cbn [nth length String.length String.get].
    rewrite Hlen. cbn. rewrite Hparse. reflexivity.
Qed.

Lemma CopyN_exact (X rest : string) :
  CopyN (X +:+ rest) (len X) = (X, rest, None) .
Proof.
  unfold CopyN, len. destruct X as [|c X].
  - reflexivity.
  - destruct (Z.leb_spec (Z.of_nat (String.length (String c X))) 0) as [H|_].
    { cbn [String.length] in H. lia. }
    rewrite length_append.
    destruct (Z.leb_spec (Z.of_nat (String.length (String c X)))
                (Z.of_nat (String.length (String c X) + String.length rest))) as [_|H]; [|lia].
    rewrite Nat2Z.id, take_append, drop_append. reflexivity.
Qed.

(** C1. Round trip of the copy protocol. For every content [X] (of a
    length that fits Go's [int]) and every destination path whose base name
    contains neither a space nor a newline, what [Upload] writes for mode
    [0644] is accepted by the reader task of [Download]: the first header
    field it finds is [C0644], the mode as [Upload] wrote it, and it copies
    exactly [X] to the destination, without an error. *)
Theorem upload_download_roundtrip (X dst : string) :
  contains (Base dst) SP = false ->
  contains (Base dst) LF = false ->
  len X < 2 ^ 63 ->
  nth 0 (scpMsgs (Upload X dst mode0644)) EmptyString = "C" +:+ FormatOctalSharp mode0644
  /\ FormatOctalSharp mode0644 = "0644"
  /\ Download (Upload X dst mode0644) = (X, None).
Proof.
  intros HSP HLF Hlen.
  assert (Hmode : FormatOctalSharp mode0644 = "0644") by reflexivity.
  assert (Hpos : 0 <= len X) by (unfold len; lia).
  destruct (Download_wellformed "0644" (FormatInt (len X)) (Base dst)
              (X +:+ String NUL EmptyString) (len X)) as [Hfields Hdown];
    try reflexivity; try assumption.
  { now apply FormatInt_digits. }
  { apply ParseInt_FormatInt. lia. }
  assert (Hup : Upload X dst mode0644
                = (String "C" "0644" +:+ String SP (FormatInt (len X) +:+
                     String SP (Base dst +:+ String LF EmptyString)))
                  +:+ (X +:+ String NUL EmptyString)).
  { unfold Upload, uploadHeader. rewrite Hmode. reflexivity. }
  rewrite Hup, Hfields, Hdown, CopyN_exact, Hmode. repeat split; reflexivity.
Qed.

Lemma upload_download_roundtrip_witness :
  nth 0 (scpMsgs (Upload "#!/bin/sh" "/tmp/run.sh" mode0644)) EmptyString
    = "C" +:+ FormatOctalSharp mode0644
  /\ FormatOctalSharp mode0644 = "0644"
  /\ Download (Upload "#!/bin/sh" "/tmp/run.sh" mode0644) = ("#!/bin/sh", None).
Proof.
  apply (upload_download_roundtrip "#!/bin/sh" "/tmp/run.sh"); [reflexivity | reflexivity |].
  vm_compute. reflexivity.
Defined.

(** C1, as stated for every destination path, fails: the base name is
    written into the header as it is, and one that contains a space makes a
    fourth field, which the reader rejects. *)
Lemma roundtrip_fails_on_spaced_name :
  Upload "hi" "/tmp/my file" mode0644
    = "C0644 2 my file" +:+ String LF ("hi" +:+ String NUL EmptyString)
  /\ Download (Upload "hi" "/tmp/my file" mode0644) = (EmptyString, Some ErrSSHInvalidMessageLength)
  /\ ~ (forall X dst, Download (Upload X dst mode0644) = (X, None)).
Proof.
  split; [reflexivity|]. split; [reflexivity|].
  intros H. specialize (H "hi" "/tmp/my file"). vm_compute in H. discriminate H.
Qed.

Lemma ParseInt_err (s : string) (e : error) :
  ParseInt s = err e -> exists cause, e = NumError "ParseInt" s cause.
Proof.
  unfold ParseInt. destruct s as [|c s]; [intros [= <-]; eauto|].
  destruct (ParseUint _) as [n|[]];
    repeat match goal with
           | |- context [if ?b then _ else _] => destruct b
           end;
    intros [= <-]; eauto.
Qed.

(** C4. A header line is rejected at once, whatever follows it on the
    stream and without anything being copied. When the line does not split
    into exactly three fields, or its first field is not five bytes long,
    or does not begin with [C], the error is the invalid-message-length
    error. When the shape is right and the second field is not a number
    that [ParseInt] accepts, the error is the one [ParseInt] returned, a
    [NumError], which is not the invalid-message-length error. *)
Theorem malformed_header_rejected (line rest : string) :
  contains line LF = false ->
  let fields := Split (line +:+ String LF EmptyString) SP in
  let f0 := nth 0 fields EmptyString in
  (length fields <> 3%nat \/ String.length f0 <> 5%nat \/ String.get 0 f0 <> Some "C"%char ->
   Download (line +:+ String LF rest) = (EmptyString, Some ErrSSHInvalidMessageLength))
  /\ (length fields = 3%nat -> String.length f0 = 5%nat -> String.get 0 f0 = Some "C"%char ->
      forall e, ParseInt (nth 1 fields EmptyString) = err e ->
      Download (line +:+ String LF rest) = (EmptyString, Some e)
      /\ (e = NumError "ParseInt" (nth 1 fields EmptyString) ErrSyntax
          \/ e = NumError "ParseInt" (nth 1 fields EmptyString) ErrRange)).
Proof.
  intros HLF fields f0.
  assert (Hread : ReadString (line +:+ String LF rest) LF
                  = (line +:+ String LF EmptyString, rest, None))
    by now apply ReadString_line.
  split.
  - intros Hbad. unfold Download. rewrite Hread. fold fields. fold f0.
    destruct (Nat.eqb_spec (length fields) 3) as [H3|H3]; [|reflexivity].
    destruct (Nat.eqb_spec (String.length f0) 5) as [H5|H5]; [|reflexivity].
    destruct (String.get 0 f0) as [c|] eqn:Hget.
    + destruct (Ascii.eqb_spec c "C") as [->|Hc]; [|reflexivity].
      destruct Hbad as [?|[?|?]]; congruence.
    + reflexivity.
  - intros H3 H5 HC e He. unfold Download. rewrite Hread. fold fields. fold f0.
    rewrite H3, H5, HC, He. cbn.
    destruct (ParseInt_err _ _ He) as [[] ->]; auto.
Qed.

(** The three headers of the specification. *)
Lemma malformed_header_rejected_witness :
  Download ("C644 10" +:+ String LF "payload") = (EmptyString, Some ErrSSHInvalidMessageLength)
  /\ Download ("X0644 10 f" +:+ String LF "payload")
     = (EmptyString, Some ErrSSHInvalidMessageLength)
  /\ Download ("C0644 abc f" +:+ String LF "payload")
     = (EmptyString, Some (NumError "ParseInt" "abc" ErrSyntax)).
Proof.
  split; [|split].
  - destruct (malformed_header_rejected "C644 10" "payload" eq_refl) as [H _].
    apply H. left. vm_compute. discriminate.
  - destruct (malformed_header_rejected "X0644 10 f" "payload" eq_refl) as [H _].
    apply H. right; right. vm_compute. discriminate.
  - destruct (malformed_header_rejected "C0644 abc f" "payload" eq_refl) as [_ H].
    apply (H eq_refl eq_refl eq_refl (NumError "ParseInt" "abc" ErrSyntax) eq_refl).
Defined.

(** C4, as stated, fails on its third header: a non-numeric length passes
    the shape test and is rejected by [ParseInt], whose own error is what
    the reader reports. *)
Lemma non_numeric_length_error :
  Download ("C0644 abc f" +:+ String LF EmptyString)
    = (EmptyString, Some (NumError "ParseInt" "abc" ErrSyntax))
  /\ Download ("C0644 abc f" +:+ String LF EmptyString)
     <> (EmptyString, Some ErrSSHInvalidMessageLength).
Proof. split; [reflexivity | vm_compute; discriminate]. Qed.

End ScpProps.

(** ** The ssh client *)

Module SSHProps.
Import Go GoFacts SSH.

Lemma attempts_record (e : Event) (w : World) :
  attempts (record e w) = (attempts w + (if isConnect e then 1 else 0))%nat.
Proof.
  unfold attempts, record; cbn [history]. rewrite List.filter_app, length_app.
  cbn. now destruct (isConnect e).
Qed.

Lemma attempts_advance (d : Z) (w : World) : attempts (advance d w) = attempts w.
Proof. reflexivity. Qed.

Lemma sleeps_record (e : Event) (w : World) :
  sleeps (record e w) = (sleeps w ++ (if isSleep e then [e] else []))%list.
Proof.
  unfold sleeps, record; cbn [history]. rewrite List.filter_app.
  cbn. now destruct (isSleep e).
Qed.

Lemma dials_record (e : Event) (w : World) :
  dials (record e w) = (dials w ++ (if isDial e then [e] else []))%list.
Proof.
  unfold dials, record; cbn [history]. rewrite List.filter_app.
  cbn. now destruct (isDial e).
Qed.

Lemma dials_advance (d : Z) (w : World) : dials (advance d w) = dials w.
Proof. reflexivity. Qed.

Lemma sleeps_advance (d : Z) (w : World) : sleeps (advance d w) = sleeps w.
Proof. reflexivity. Qed.

Lemma now_record (e : Event) (w : World) : now (record e w) = now w.
Proof. reflexivity. Qed.

(** Unfold [Connect] and split on every test it makes. *)
Ltac connect_cases :=
  unfold Connect, Validate, connected, getAuth, bind;
  repeat (break_match; try discriminate; cbn [world_of fst snd];
          repeat match goal with
                 | H : (_, _) = (_, _) |- _ => injection H as <- <-
                 end).

Lemma Connect_attempts (env : Env) (client : SSHClient) (w : World) :
  attempts (world_of (Connect env client w)) = S (attempts w).
Proof.
  connect_cases;
    rewrite ?attempts_record, ?attempts_advance, ?attempts_record; cbn; lia.
Qed.

Lemma Connect_sleeps (env : Env) (client : SSHClient) (w : World) :
  sleeps (world_of (Connect env client w)) = sleeps w.
Proof.
  connect_cases;
    repeat (rewrite sleeps_record || rewrite sleeps_advance); cbn;
    now rewrite ?app_nil_r.
Qed.

(** Only the dial takes time. *)
Lemma Connect_now (env : Env) (client : SSHClient) (w : World) (d : Z) :
  (forall w' network addr config, 0 <= fst (dial env w' network addr config) <= d) ->
  now w <= now (world_of (Connect env client w)) <= now w + d.
Proof.
  intros Hd.
  assert (0 <= d) by (specialize (Hd w EmptyString EmptyString {| User := EmptyString; Auth := []; HostKey := InsecureIgnoreHostKey |}); lia).
  connect_cases; cbn [now advance record]; try lia;
    match goal with
    | H : dial env ?w' ?n ?a ?c = (?t, _) |- _ =>
        specialize (Hd w' n a c); rewrite H in Hd; cbn [fst] in Hd; lia
    end.
Qed.

(** A failed [Connect] leaves the client as it was. *)
Lemma Connect_failure_client (env : Env) (client client' : SSHClient) (w w' : World) (e : error) :
  Connect env client w = Returns (Some e, client') w' -> client' = client.
Proof.
  revert e client' w'. connect_cases; intros e' client' w'; intros [= ? ? ?]; subst; reflexivity.
Qed.

(** After a successful [Connect] the mutex is free and the signal channel
    exists. *)
Lemma Connect_success (env : Env) (client client1 : SSHClient) (w w1 : World) :
  Connect env client w = Returns (None, client1) w1 ->
  closeMutex w1 = false /\ close client1 <> None.
Proof.
  revert client1 w1. connect_cases; intros client1 w1; intros [= ? ?]; subst;
    cbn [closeMutex close record advance] in *; split; (assumption || discriminate).
Qed.

(** *** WaitForSSH *)

Lemma WaitForSSH_loop_timeout (env : Env) (client : SSHClient) (maxWait start d : Z) :
  alwaysFails env client -> dialWithin env d ->
  forall (fuel : nat) (w : World),
    (1 <= fuel)%nat ->
    maxWait - (now w - start) <= 2 * Second * (Z.of_nat fuel - 1) ->
    exists w' n,
      WaitForSSH_loop fuel env maxWait start client w
        = Some (Returns (Some ErrTimeout, client) w')
      /\ attempts w' = (attempts w + n)%nat
      /\ (1 <= n)%nat
      /\ (n = 1%nat \/ (Z.of_nat n - 2) * (2 * Second) + (now w - start) < maxWait)
      /\ sleeps w' = (sleeps w ++ repeat (EvSleep (2 * Second)) (n - 1))%list
      /\ maxWait <= now w' - start
      /\ now w' - now w <= (Z.of_nat n - 1) * (2 * Second) + Z.of_nat n * d
      /\ now w' - start <= Z.max (now w - start) (maxWait + 2 * Second - 1) + d.
Proof.
  intros Hfail Hd. induction fuel as [|fuel IH]; intros w Hfuel Hrem; [lia|].
  destruct (Hfail w) as (e & w1 & HC).
  pose proof (Connect_now env client w d Hd) as Hnow.
  pose proof (Connect_attempts env client w) as Hatt.
  pose proof (Connect_sleeps env client w) as Hsl.
  rewrite HC in Hnow, Hatt, Hsl. cbn [world_of] in Hnow, Hatt, Hsl.
  cbn [WaitForSSH_loop]. rewrite HC.
  destruct (Z.leb_spec maxWait (now w1 - start)) as [Hbreak|Hcont].
  - exists w1, 1%nat. rewrite Hatt, Hsl. cbn [repeat Nat.sub]. rewrite app_nil_r.
    repeat split; lia.
  - assert (Hs : 0 < Second) by reflexivity.
    destruct (IH (Sleep (2 * Second) w1)) as (w' & n & Hloop & Ha & Hn & Hbound & Hs' & Hmax & Hel & Hup).
    { destruct fuel; [|lia]. cbn in Hrem. lia. }
    { cbn [Sleep now advance record]. lia. }
    exists w', (S n). rewrite Hloop.
    unfold Sleep in Ha, Hs', Hel, Hup, Hbound.
    rewrite attempts_advance, attempts_record in Ha. cbn [isConnect] in Ha.
    rewrite sleeps_advance, sleeps_record, Hsl in Hs'. cbn [isSleep] in Hs'.
    cbn [now advance record] in Hel, Hup, Hbound.
    repeat split; try lia.
    rewrite Hs', <- app_assoc. cbn [app]. f_equal.
    destruct n as [|n]; [lia|]. cbn [Nat.sub repeat]. now rewrite Nat.sub_0_r.
Qed.

(** C5. [WaitForSSH] with a connect that always fails and [maxWait] of
    five seconds, on a clock on which only dials and sleeps take time and a
    dial answers within [d]: the loop ends (four iterations are enough) with
    the timeout error, after [n] connects, [1 <= n <= 4], separated by
    [n - 1] sleeps of exactly two seconds each; the time elapsed is at least
    five seconds, less than seven seconds plus [d], and at most the sleeps
    plus [n] dials. In particular [n] is four whenever three dials take
    less than a second together. *)
Theorem WaitForSSH_always_failing (env : Env) (client : SSHClient) (d : Z) (fuel : nat)
    (w : World) :
  alwaysFails env client -> dialWithin env d -> (4 <= fuel)%nat ->
  exists w' n,
    WaitForSSH fuel env fiveSeconds client w = Some (Returns (Some ErrTimeout, client) w')
    /\ attempts w' = (attempts w + n)%nat
    /\ (1 <= n <= 4)%nat
    /\ sleeps w' = (sleeps w ++ repeat (EvSleep (2 * Second)) (n - 1))%list
    /\ fiveSeconds <= now w' - now w < 7 * Second + d
    /\ now w' - now w <= (Z.of_nat n - 1) * (2 * Second) + Z.of_nat n * d
    /\ (3 * d < Second -> n = 4%nat).
Proof.
  intros Hfail Hd Hfuel.
  destruct (WaitForSSH_loop_timeout env client fiveSeconds (now w) d Hfail Hd fuel w)
    as (w' & n & Hloop & Ha & Hn & Hbound & Hs & Hmax & Hel & Hup).
  { lia. }
  { unfold fiveSeconds, Second. lia. }
  exists w', n. unfold WaitForSSH. rewrite Hloop.
  assert (Hn4 : (n <= 4)%nat).
  { unfold fiveSeconds, Second in Hbound. destruct Hbound as [->|Hb]; lia. }
  split; [reflexivity|]. split; [exact Ha|]. split; [lia|]. split; [exact Hs|].
  unfold fiveSeconds, Second in *.
  split; [lia|]. split; [exact Hel|].
  intros Hfast. destruct n as [|[|[|[|[|n]]]]]; lia.
Qed.

Lemma refusingEnv_alwaysFails (took : Z) : alwaysFails (refusingEnv took) testClient.
Proof. intros w. eexists. eexists. reflexivity. Qed.

Lemma refusingEnv_dialWithin (took : Z) : 0 <= took -> dialWithin (refusingEnv took) took.
Proof. intros H w network addr config. cbn. lia. Qed.

(** With dials refused after one second each, three connects are made. *)
Lemma WaitForSSH_always_failing_witness :
  exists w' n,
    WaitForSSH 8 (refusingEnv Second) fiveSeconds testClient startWorld
      = Some (Returns (Some ErrTimeout, testClient) w')
    /\ attempts w' = (attempts startWorld + n)%nat
    /\ (1 <= n <= 4)%nat
    /\ sleeps w' = (sleeps startWorld ++ repeat (EvSleep (2 * Second)) (n - 1))%list
    /\ fiveSeconds <= now w' - now startWorld < 7 * Second + Second
    /\ now w' - now startWorld <= (Z.of_nat n - 1) * (2 * Second) + Z.of_nat n * Second
    /\ (3 * Second < Second -> n = 4%nat).
Proof.
  apply (WaitForSSH_always_failing (refusingEnv Second) testClient Second 8 startWorld).
  - apply refusingEnv_alwaysFails.
  - apply refusingEnv_dialWithin. unfold Second. lia.
  - lia.
Defined.

(** C5, as stated, fails on the number of connects: when every attempt is
    refused at once, the third attempt ends four seconds in, which is
    short of five, and a fourth is made at six seconds. *)
Lemma WaitForSSH_four_connects :
  exists w',
    WaitForSSH 8 (refusingEnv 0) fiveSeconds testClient startWorld
      = Some (Returns (Some ErrTimeout, testClient) w')
    /\ attempts w' = 4%nat
    /\ now w' = 6 * Second
    /\ ~ (2 <= attempts w' <= 3)%nat.
Proof.
  eexists. split; [vm_compute; reflexivity|].
  split; [reflexivity|]. split; [reflexivity|]. cbn. lia.
Qed.

(** *** Connect *)

(** Unless [Validate] returns nil, [Connect] stops right after it. *)
Lemma Connect_invalid (env : Env) (client : SSHClient) (w : World) :
  Validate client (record EvConnect w) <> Returns None (record EvConnect w) ->
  world_of (Connect env client w) = record EvConnect w
  /\ forall e, Validate client (record EvConnect w) = Returns (Some e) (record EvConnect w) ->
               Connect env client w = Returns (Some e, client) (record EvConnect w).
Proof.
  intros Hv. unfold Connect, Validate in *.
  destruct (Creds client) as [creds|]; cbn [bind world_of].
  - destruct (String.eqb (SSHUser creds) EmptyString).
    + split; [reflexivity | intros e' [= <-]; reflexivity].
    + destruct (String.eqb (SSHPassword creds) EmptyString && String.eqb (SSHPrivateKey creds) EmptyString).
      * split; [reflexivity | intros e' [= <-]; reflexivity].
      * contradiction Hv; reflexivity.
  - split; [reflexivity | intros e' [=]].
Qed.

(** The dials of a [Connect] whose [Validate] passed: none when the key
    cannot be read, else one, carrying one authentication method, the key
    when there is one and the password otherwise. *)
Lemma Connect_valid_dials (env : Env) (client : SSHClient) (creds : Credentials) (w : World) :
  Creds client = Some creds ->
  Validate client (record EvConnect w) = Returns None (record EvConnect w) ->
  dials (world_of (Connect env client w)) =
    match (if negb (String.eqb (SSHPrivateKey creds) EmptyString)
           then readPrivateKey env (SSHPrivateKey creds)
           else ok (Password (SSHPassword creds))) with
    | ok auth => (dials w ++ [EvDial "tcp" (dialAddr env client) (configWith creds auth)])%list
    | err _ => dials w
    end.
Proof.
  intros Hc Hv. unfold Validate in Hv. rewrite Hc in Hv.
  destruct (String.eqb (SSHUser creds) EmptyString) eqn:Hu; [discriminate|].
  unfold Connect, Validate, bind. rewrite Hc, Hu.
  destruct (String.eqb (SSHPrivateKey creds) EmptyString) eqn:Hk;
    destruct (String.eqb (SSHPassword creds) EmptyString) eqn:Hp;
    cbn [andb negb] in Hv |- *; try discriminate;
    unfold getAuth, connected, dialAddr, configWith; cbn [String.eqb Ascii.eqb Bool.eqb PasswordAuth KeyAuth];
    repeat (break_match; try discriminate; cbn [world_of];
            repeat match goal with
                   | H : (_, _) = (_, _) |- _ => injection H as <- <-
                   | H : ok _ = ok _ |- _ => injection H as <-
                   end);
    repeat (rewrite dials_record || rewrite dials_advance); cbn [isDial];
    rewrite ?app_nil_r; try reflexivity; try congruence.
Qed.

Lemma eqb_empty_false (s : string) : s <> EmptyString -> String.eqb s EmptyString = false.
Proof. intros H. now apply String.eqb_neq. Qed.

(** C6. [Connect] runs [Validate] before anything else: unless [Validate]
    returns nil, the history gains the entry to [Connect] and nothing more,
    so no key is read and no dial made, and an error of [Validate] is what
    [Connect] returns. When [Validate] passes, the private key decides
    whenever there is one, whether or not a password is present too: if it
    can be read, the one dial made carries exactly that method; if not,
    [Connect] returns the reader's error without dialling and without
    trying the password. Only with an empty key is the password used, again
    as the only method of the one dial. *)
Theorem Connect_validates_then_authenticates (env : Env) (client : SSHClient) (w : World) :
  let w0 := record EvConnect w in
  let out := Connect env client w in
  (Validate client w0 <> Returns None w0 ->
     history (world_of out) = (history w ++ [EvConnect])%list
     /\ dials (world_of out) = dials w
     /\ forall e, Validate client w0 = Returns (Some e) w0 -> out = Returns (Some e, client) w0)
  /\ (forall creds, Creds client = Some creds -> Validate client w0 = Returns None w0 ->
       (SSHPrivateKey creds <> EmptyString ->
          (forall auth, readPrivateKey env (SSHPrivateKey creds) = ok auth ->
             dials (world_of out)
             = (dials w ++ [EvDial "tcp" (dialAddr env client) (configWith creds auth)])%list)
          /\ (forall e, readPrivateKey env (SSHPrivateKey creds) = err e ->
                out = Returns (Some e, client) (record (EvReadPrivateKey (SSHPrivateKey creds)) w0)
                /\ dials (world_of out) = dials w))
       /\ (SSHPrivateKey creds = EmptyString ->
             dials (world_of out)
             = (dials w ++ [EvDial "tcp" (dialAddr env client)
                              (configWith creds (Password (SSHPassword creds)))])%list)).
Proof.
  intros w0 out. split.
  - intros Hv. destruct (Connect_invalid env client w Hv) as [Hw He].
    fold out in Hw, He. fold w0 in Hw, He. rewrite Hw. repeat split.
    + unfold w0. rewrite dials_record. cbn [isDial]. apply app_nil_r.
    + exact He.
  - intros creds Hc Hv.
    pose proof (Connect_valid_dials env client creds w Hc Hv) as Hd. fold out in Hd.
    split.
    + intros Hk. rewrite (eqb_empty_false _ Hk) in Hd. cbn [negb] in Hd. split.
      * intros auth Ha. now rewrite Ha in Hd.
      * intros e He. rewrite He in Hd. split; [|exact Hd].
        unfold out, Connect, bind. fold w0. rewrite Hv, Hc.
        rewrite (eqb_empty_false _ Hk). cbn [negb]. unfold getAuth. cbn. now rewrite He.
    + intros Hk. rewrite Hk in Hd. exact Hd.
Qed.

(** [TestConnectAuthPrecedence]: user, password and key all set. *)
Lemma Connect_validates_then_authenticates_witness :
  dials (world_of (Connect mockedEnv testClient startWorld))
  = [EvDial "tcp" "192.0.2.7:22"
       {| User := "test"; Auth := [AuthNil]; HostKey := InsecureIgnoreHostKey |}].
Proof.
  destruct (Connect_validates_then_authenticates mockedEnv testClient startWorld) as [_ H].
  destruct (H {| SSHUser := "test"; SSHPassword := "test"; SSHPrivateKey := "/foo" |}
              eq_refl eq_refl) as [Hkey _].
  destruct Hkey as [Hok _]; [discriminate|].
  exact (Hok AuthNil eq_refl).
Defined.

(** C10. A [Connect] that gets as far as dialling (its [Validate] passes
    and its key, if any, can be read) dials once, port 22 of the client's
    address when the [Port] field is zero, and the port of that field when
    it is not. *)
Theorem Connect_dials_port (env : Env) (client : SSHClient) (creds : Credentials) (w : World) :
  Creds client = Some creds ->
  Validate client (record EvConnect w) = Returns None (record EvConnect w) ->
  (SSHPrivateKey creds <> EmptyString ->
   exists auth, readPrivateKey env (SSHPrivateKey creds) = ok auth) ->
  (Port client = 0 ->
   exists config,
     dials (world_of (Connect env client w))
     = (dials w ++ [EvDial "tcp" (ipString env (IP client) +:+ ":22") config])%list)
  /\ (Port client <> 0 ->
      exists config,
        dials (world_of (Connect env client w))
        = (dials w ++ [EvDial "tcp" (ipString env (IP client) +:+ ":" +:+ FormatInt (Port client))
                         config])%list).
Proof.
  intros Hc Hv Hkey.
  pose proof (Connect_valid_dials env client creds w Hc Hv) as Hd.
  assert (Hex : exists auth,
             dials (world_of (Connect env client w))
             = (dials w ++ [EvDial "tcp" (dialAddr env client) (configWith creds auth)])%list).
  { destruct (String.eqb_spec (SSHPrivateKey creds) EmptyString) as [Hk|Hk]; cbn [negb] in Hd.
    - eauto.
    - destruct (Hkey Hk) as [auth Ha]. rewrite Ha in Hd. eauto. }
  destruct Hex as [auth Hex]. unfold dialAddr, dialPort in Hex. split.
  - intros Hp. rewrite Hp in Hex. exists (configWith creds auth). exact Hex.
  - intros Hp. destruct (Z.eqb_spec (Port client) 0) as [|_]; [contradiction|].
    exists (configWith creds auth). exact Hex.
Qed.

Lemma Connect_dials_port_witness :
  (exists config,
     dials (world_of (Connect mockedEnv testClient startWorld))
     = [EvDial "tcp" "192.0.2.7:22" config])
  /\ (exists config,
        dials (world_of (Connect mockedEnv portClient startWorld))
        = [EvDial "tcp" "192.0.2.7:2222" config]).
Proof.
  split.
  - destruct (Connect_dials_port mockedEnv testClient
                {| SSHUser := "test"; SSHPassword := "test"; SSHPrivateKey := "/foo" |}
                startWorld eq_refl eq_refl) as [H _].
    + intros _. exists AuthNil. reflexivity.
    + exact (H eq_refl).
  - destruct (Connect_dials_port mockedEnv portClient
                {| SSHUser := "test"; SSHPassword := "test"; SSHPrivateKey := "/foo" |}
                startWorld eq_refl eq_refl) as [_ H].
    + intros _. exists AuthNil. reflexivity.
    + apply H. discriminate.
Defined.

(** *** Disconnect *)

(** With the mutex free, [Disconnect] returns, and a [Disconnect] of what
    it leaves returns the same again. *)
Lemma Disconnect_idempotent (client : SSHClient) (w : World) :
  closeMutex w = false ->
  exists client', Disconnect client w = Returns client' w
                  /\ close client' <> Some ChanOpen
                  /\ Disconnect client' w = Returns client' w.
Proof.
  intros Hm. unfold Disconnect. rewrite Hm.
  destruct (close client) as [[]|] eqn:Hc; cbn [recvReady].
  - eexists. split; [reflexivity|]. cbn [close recvReady]. split; [discriminate | reflexivity].
  - exists client. rewrite Hc. cbn. split; [reflexivity|]. split; [discriminate | reflexivity].
  - exists client. rewrite Hc. cbn. split; [reflexivity|]. split; [discriminate | reflexivity].
Qed.

(** C9. On a client that [Connect] has just connected, [Disconnect]
    returns, and a second [Disconnect] right after it returns as well,
    without panicking or blocking, and changes neither the client nor the
    world. *)
Theorem Disconnect_twice (env : Env) (client client1 : SSHClient) (w w1 : World) :
  Connect env client w = Returns (None, client1) w1 ->
  exists client2,
    Disconnect client1 w1 = Returns client2 w1
    /\ Disconnect client2 w1 = Returns client2 w1.
Proof.
  intros HC. destruct (Connect_success env client client1 w w1 HC) as [Hm _].
  destruct (Disconnect_idempotent client1 w1 Hm) as (client2 & H1 & _ & H2).
  exists client2. split; assumption.
Qed.

Lemma Disconnect_twice_witness :
  exists client1 w1 client2,
    Connect mockedEnv portClient startWorld = Returns (None, client1) w1
    /\ Disconnect client1 w1 = Returns client2 w1
    /\ Disconnect client2 w1 = Returns client2 w1.
Proof.
  eexists. eexists.
  destruct (Disconnect_twice mockedEnv portClient _ startWorld _ eq_refl) as [client2 H].
  exists client2. split; [reflexivity | exact H].
Defined.

End SSHProps.

(** ** The controllers *)

Module ControllerProps.
Import Controller.

(** *** The orchestrator *)

(** C3. With the correlation id already set, [Reconcile] returns an empty
    result and no error, leaves the spec, and so the id, as it is, and
    makes no call at all: no id is generated and no execution unit is
    created or updated. *)
Theorem Reconcile_id_already_set (env : Env) (build : Build) (spec : ProvisionerSpec)
    (id : string) (w : World) :
  UUID spec = Some id ->
  Reconcile env build spec w = Returns (noRequeue, None, spec) w.
Proof. intros H. unfold Reconcile. now rewrite H. Qed.

Lemma Reconcile_id_already_set_witness :
  Reconcile (clusterEnv OperationResultCreated) exampleBuild
    (exampleSpec (Some "make install") None (Some "42")) []
  = Returns (noRequeue, None, exampleSpec (Some "make install") None (Some "42")) [].
Proof.
  apply (Reconcile_id_already_set (clusterEnv OperationResultCreated) exampleBuild
           (exampleSpec (Some "make install") None (Some "42")) "42" []).
  reflexivity.
Defined.

(** What [Reconcile] does for a spec without an id whose script is given
    inline, or both inline and by reference. *)
Lemma Reconcile_unset (env : Env) (build : Build) (spec : ProvisionerSpec) (w : World) :
  UUID spec = None ->
  (RunConfigMapRef spec = None \/ Run spec <> None) ->
  let id := uuidNew env w in
  let w1 := record (EvUUIDNew id) w in
  Reconcile env build spec w =
    match builderBuild env (descriptor build spec id) with
    | err e => Returns (noRequeue, Some e, spec) w1
    | ok desired =>
        match createOrUpdate env w1 desired with
        | err e => Returns (noRequeue, Some e, spec) (record (EvCreateOrUpdate desired) w1)
        | ok OperationResultNone =>
            Returns (noRequeue, None, setUUID id spec) (record (EvCreateOrUpdate desired) w1)
        | ok _ =>
            Returns ({| Requeue := false; RequeueAfter := 2 * Second |}, None, setUUID id spec)
              (record (EvCreateOrUpdate desired) w1)
        end
    end.
Proof.
  intros Hid Hsrc id w1. unfold Reconcile. rewrite Hid. fold id. fold w1.
  unfold descriptor.
  destruct (Run spec) as [run|] eqn:Hrun; destruct (RunConfigMapRef spec) as [ref|] eqn:Href;
    cbn [bind deref]; try reflexivity.
  destruct Hsrc as [H|H]; [discriminate | contradiction].
Qed.

(** C8. For a spec without an id whose descriptor can be assembled and
    built, a create-or-update that succeeds with operation [op] makes
    [Reconcile] return no error and write the new id onto the spec; the
    two-second requeue delay is requested when [op] is anything but "none",
    and no delay is requested when it is "none". *)
Theorem Reconcile_apply_succeeds (env : Env) (build : Build) (spec : ProvisionerSpec)
    (w : World) (desired : Job) (op : OperationResult) :
  UUID spec = None ->
  (RunConfigMapRef spec = None \/ Run spec <> None) ->
  let id := uuidNew env w in
  let w1 := record (EvUUIDNew id) w in
  builderBuild env (descriptor build spec id) = ok desired ->
  createOrUpdate env w1 desired = ok op ->
  exists res,
    Reconcile env build spec w
      = Returns (res, None, setUUID id spec) (record (EvCreateOrUpdate desired) w1)
    /\ UUID (setUUID id spec) = Some id
    /\ (op <> OperationResultNone -> res = {| Requeue := false; RequeueAfter := 2 * Second |})
    /\ (op = OperationResultNone -> res = noRequeue).
Proof.
  intros Hid Hsrc id w1 Hb Hop.
  rewrite (Reconcile_unset env build spec w Hid Hsrc). fold id. fold w1. rewrite Hb, Hop.
  destruct op; eexists; (split; [reflexivity|]); (split; [reflexivity|]);
    split; intros H; try reflexivity; try discriminate; contradiction.
Qed.

Lemma Reconcile_apply_succeeds_witness :
  exists res desired w',
    Reconcile (clusterEnv OperationResultCreated) exampleBuild
      (exampleSpec (Some "make install") None None) []
    = Returns (res, None,
               setUUID "3f0c9a52-6f0e-4e0b-9d7e-5a1f3c2b7d10"
                 (exampleSpec (Some "make install") None None)) w'
    /\ w' = [EvUUIDNew "3f0c9a52-6f0e-4e0b-9d7e-5a1f3c2b7d10"; EvCreateOrUpdate desired]
    /\ RequeueAfter res = 2000000000.
Proof.
  destruct (Reconcile_apply_succeeds (clusterEnv OperationResultCreated) exampleBuild
              (exampleSpec (Some "make install") None None) [] _ OperationResultCreated
              eq_refl (or_introl eq_refl) eq_refl eq_refl) as (res & HR & _ & Hres & _).
  exists res. eexists. eexists. split; [exact HR|]. split; [reflexivity|].
  rewrite Hres by discriminate. reflexivity.
Defined.

(** C8, as stated, fails when the apply succeeds without changing
    anything: the id is written, but no delay is requested. *)
Lemma Reconcile_unchanged_no_requeue :
  exists desired,
    createOrUpdate (clusterEnv OperationResultNone)
      [EvUUIDNew "3f0c9a52-6f0e-4e0b-9d7e-5a1f3c2b7d10"] desired = ok OperationResultNone
    /\ Reconcile (clusterEnv OperationResultNone) exampleBuild
         (exampleSpec (Some "make install") None None) []
       = Returns (noRequeue, None,
                  exampleSpec (Some "make install") None
                    (Some "3f0c9a52-6f0e-4e0b-9d7e-5a1f3c2b7d10"))
           [EvUUIDNew "3f0c9a52-6f0e-4e0b-9d7e-5a1f3c2b7d10"; EvCreateOrUpdate desired]
    /\ RequeueAfter noRequeue <> 2 * Second.
Proof.
  eexists. split; [reflexivity|]. split; [reflexivity|]. discriminate.
Qed.

(** C7, on the code: a spec whose only script source is the external
    reference makes [Reconcile] read through the nil [Run] pointer. It
    panics right after generating the id; no descriptor is built and
    nothing is applied. *)
Theorem Reconcile_external_reference_panics (env : Env) (build : Build)
    (ref : ObjectReference) (w : World) :
  Reconcile env build (exampleSpec None (Some ref) None) w
  = Panics "nil pointer dereference" (record (EvUUIDNew (uuidNew env w)) w).
Proof. reflexivity. Qed.

(** When both sources are given, the descriptor still carries the inline
    script: the reference is tested for nil and never read. *)
Lemma Reconcile_reference_never_read (env : Env) (build : Build) (run : string)
    (ref ref' : ObjectReference) (w : World) :
  Reconcile env build (exampleSpec (Some run) (Some ref) None) w
  = match Reconcile env build (exampleSpec (Some run) (Some ref') None) w with
    | Returns (res, e, spec) w' =>
        Returns (res, e, match UUID spec with
                         | Some id => setUUID id (exampleSpec (Some run) (Some ref) None)
                         | None => exampleSpec (Some run) (Some ref) None
                         end) w'
    | Panics msg w' => Panics msg w'
    | Blocks w' => Blocks w'
    end.
Proof.
  unfold Reconcile. cbn [UUID exampleSpec Run RunConfigMapRef bind deref].
  destruct (builderBuild env _) as [desired|e]; [|reflexivity].
  destruct (createOrUpdate env _ desired) as [[]|e]; reflexivity.
Qed.

(** *** The job watcher *)

(** **** The map of terminated statuses *)

Lemma collect_other (states : gmap string ContainerStateTerminated) (status : ContainerStatus)
    (name : string) :
  csName status <> name -> collect states status !! name = states !! name.
Proof.
  intros Hne. unfold collect. destruct (Terminated status); [|reflexivity].
  now rewrite lookup_insert_ne.
Qed.

Lemma foldl_collect_other (l : list ContainerStatus)
    (states : gmap string ContainerStateTerminated) (name : string) :
  name ∉ (csName <$> l) -> foldl collect states l !! name = states !! name.
Proof.
  revert states. induction l as [|x l IH]; intros states Hnot; [reflexivity|].
  cbn [foldl]. rewrite fmap_cons in Hnot.
  apply not_elem_of_cons in Hnot as [Hx Hl].
  rewrite IH by exact Hl. apply collect_other. congruence.
Qed.

(** With distinct container names, every terminated status of the list is
    what the map holds under its container's name. *)
Lemma foldl_collect_lookup (l : list ContainerStatus)
    (states : gmap string ContainerStateTerminated) (s : ContainerStatus)
    (t : ContainerStateTerminated) :
  NoDup (csName <$> l) -> s ∈ l -> Terminated s = Some t ->
  foldl collect states l !! csName s = Some t.
Proof.
  revert states. induction l as [|x l IH]; intros states Hnd Hin Ht.
  - inversion Hin.
  - rewrite fmap_cons in Hnd. apply NoDup_cons in Hnd as [Hx Hnd].
    cbn [foldl]. apply elem_of_cons in Hin as [->|Hin].
    + rewrite foldl_collect_other by exact Hx.
      unfold collect. rewrite Ht. apply lookup_insert_eq.
    + now apply IH.
Qed.

(** Whatever the map holds was put there for a terminated status of the
    list, or was there before. *)
Lemma foldl_collect_lookup_inv (l : list ContainerStatus)
    (states : gmap string ContainerStateTerminated) (name : string)
    (t : ContainerStateTerminated) :
  foldl collect states l !! name = Some t ->
  states !! name = Some t
  \/ exists s, s ∈ l /\ csName s = name /\ Terminated s = Some t.
Proof.
  revert states. induction l as [|x l IH]; intros states H; [now left|].
  cbn [foldl] in H. destruct (IH _ H) as [Hx|(s & Hin & Hn & Ht)].
  - unfold collect in Hx. destruct (Terminated x) as [tx|] eqn:Htx; [|now left].
    destruct (decide (csName x = name)) as [Heq|Hne].
    + rewrite <- Heq, lookup_insert_eq in Hx. injection Hx as ->.
      right. exists x. split; [apply elem_of_cons; now left | now split].
    + rewrite lookup_insert_ne in Hx by exact Hne. now left.
  - right. exists s. split; [apply elem_of_cons; now right | now split].
Qed.

Lemma statuses_lookup_inv (pod : option Pod) (name : string) (t : ContainerStateTerminated) :
  GetTerminatedContainersStatusesByPod pod !! name = Some t ->
  exists s, s ∈ podStatuses pod /\ csName s = name /\ Terminated s = Some t.
Proof.
  destruct pod as [pod|]; cbn [podStatuses GetTerminatedContainersStatusesByPod].
  - rewrite <- foldl_app. intros H.
    destruct (foldl_collect_lookup_inv _ _ _ _ H) as [He|Hs]; [|exact Hs].
    rewrite lookup_empty in He. discriminate.
  - rewrite lookup_empty. discriminate.
Qed.

Lemma statuses_lookup (pod : option Pod) (s : ContainerStatus) (t : ContainerStateTerminated) :
  NoDup (csName <$> podStatuses pod) -> s ∈ podStatuses pod -> Terminated s = Some t ->
  GetTerminatedContainersStatusesByPod pod !! csName s = Some t.
Proof.
  destruct pod as [pod|]; cbn [podStatuses GetTerminatedContainersStatusesByPod].
  - rewrite <- foldl_app. apply foldl_collect_lookup.
  - intros _ Hin. inversion Hin.
Qed.

(** **** Histories *)

Lemma recordsFor_record (c : string) (e : Event) (w : World) :
  recordsFor c (record e w) = (recordsFor c w ++ (if isRecordFor c e then [e] else []))%list.
Proof.
  unfold recordsFor, record. rewrite List.filter_app. cbn. now destruct (isRecordFor c e).
Qed.

Lemma deletesOf_record (job : Job) (e : Event) (w : World) :
  deletesOf job (record e w) = (deletesOf job w ++ (if isDeleteOf job e then [e] else []))%list.
Proof.
  unfold deletesOf, record. rewrite List.filter_app. cbn. now destruct (isDeleteOf job e).
Qed.

Lemma isDeleteOf_self (job : Job) : isDeleteOf job (EvClientDelete job) = true.
Proof. cbn. now rewrite !String.eqb_refl. Qed.

Lemma isRecordFor_failureRecord (img : Image) (c k : string) (st : ContainerStateTerminated) :
  isRecordFor c (failureRecord img k st) = String.eqb k c.
Proof. reflexivity. Qed.

(** **** The failure loop *)

Lemma reportFailures_spec (env : Env) (job : Job) (action : string) (img : Image) :
  (forall w a i s m, setCache env w a i s m = true) ->
  forall entries w,
  exists w',
    reportFailures env action img entries w = (None, w')
    /\ (forall c, recordsFor c w' = (recordsFor c w ++ expected img c entries)%list)
    /\ deletesOf job w' = deletesOf job w.
Proof.
  intros Hset. induction entries as [|[k st] entries IH]; intros w.
  - exists w. cbn. split; [reflexivity|]. split; [|reflexivity].
    intros c. now rewrite app_nil_r.
  - cbn [reportFailures expected flat_map]. destruct (Z.eqb_spec (ExitCode st) 0) as [Hz|Hnz].
    + destruct (IH w) as (w' & Hr & Hrec & Hdel). exists w'.
      split; [exact Hr|]. split; [|exact Hdel].
      intros c. rewrite Hrec. rewrite andb_false_r. reflexivity.
    + rewrite Hset.
      destruct (IH (record (EvSetCache action img (StateError env) (errorMsg st))
                      (record (failureRecord img k st) w))) as (w' & Hr & Hrec & Hdel).
      exists w'. split; [exact Hr|]. split.
      * intros c. rewrite Hrec, !recordsFor_record, isRecordFor_failureRecord.
        cbn [isRecordFor recordContainer]. rewrite app_nil_r, andb_true_r.
        fold (expected img c entries). now rewrite <- app_assoc.
      * rewrite Hdel, !deletesOf_record. cbn. now rewrite !app_nil_r.
Qed.

(** Over entries with distinct keys, one entry decides the records about
    its container. *)
Lemma expected_NoDup (img : Image) (c : string)
    (entries : list (string * ContainerStateTerminated)) :
  NoDup (entries.*1) ->
  (forall st, (c, st) ∈ entries ->
     expected img c entries = if ExitCode st =? 0 then [] else [failureRecord img c st])
  /\ (c ∉ entries.*1 -> expected img c entries = []).
Proof.
  induction entries as [|[k st'] entries IH]; intros Hnd.
  - split; [intros st Hin; inversion Hin | reflexivity].
  - rewrite fmap_cons in Hnd. cbn [fst] in Hnd. apply NoDup_cons in Hnd as [Hk Hnd].
    destruct (IH Hnd) as [IHin IHout]. cbn [expected flat_map]. fold (expected img c entries).
    split.
    + intros st Hin. apply elem_of_cons in Hin as [Heq|Hin].
      * injection Heq as <- <-. rewrite String.eqb_refl, IHout by exact Hk.
        cbn [andb]. rewrite app_nil_r. now destruct (ExitCode st =? 0).
      * assert (Hne : String.eqb k c = false).
        { apply String.eqb_neq. intros ->. apply Hk.
          apply (list_elem_of_fmap_2 fst) in Hin. exact Hin. }
        rewrite Hne. cbn [andb app]. now apply IHin.
    + intros Hout. rewrite fmap_cons in Hout. cbn [fst] in Hout.
      apply not_elem_of_cons in Hout as [Hne Hout].
      assert (Hneb : String.eqb k c = false) by (apply String.eqb_neq; congruence).
      rewrite Hneb. cbn [andb app]. now apply IHout.
Qed.

(** The records that one [range] over the map adds about [c], in whatever
    order the entries are visited. *)
Lemma expected_range (img : Image) (c : string)
    (statuses : gmap string ContainerStateTerminated)
    (entries : list (string * ContainerStateTerminated)) :
  entries ≡ₚ map_to_list statuses ->
  expected img c entries =
    match statuses !! c with
    | Some st => if ExitCode st =? 0 then [] else [failureRecord img c st]
    | None => []
    end.
Proof.
  intros Hperm.
  assert (Hnd : NoDup (entries.*1)).
  { rewrite Hperm. apply NoDup_fst_map_to_list. }
  destruct (expected_NoDup img c entries Hnd) as [Hin Hout].
  destruct (statuses !! c) as [st|] eqn:Hl.
  - apply Hin. rewrite Hperm. now apply elem_of_map_to_list.
  - apply Hout. intros Hc. apply list_elem_of_fmap in Hc as ([k st] & -> & Hc).
    rewrite Hperm in Hc. apply elem_of_map_to_list in Hc. cbn in Hl. congruence.
Qed.

(** **** The failure path *)

(** The pod lookup adds neither failure records nor delete calls. *)
Lemma getPodByJob_quiet (env : Env) (job : Job) (w : World) (p : Event -> bool) :
  (forall ns n, p (EvJobsGet ns n) = false) ->
  (forall ns sel, p (EvPodsList ns sel) = false) ->
  List.filter p (world_of (getPodByJob env job w)) = List.filter p w.
Proof.
  intros HJ HP. unfold getPodByJob, podListLookup, bind, deref, record.
  repeat (break_match; cbn [world_of]);
    rewrite ?List.filter_app; cbn [List.filter]; rewrite ?HJ, ?HP, ?app_nil_r; reflexivity.
Qed.

Lemma processFailedScanJob_spec (env : Env) (job : Job) (action : string) (img : Image)
    (pod : option Pod) (w : World) :
  getActionTypeFromJob env job = ok action ->
  String.eqb action (ClusterDeleteAction env) = false ->
  getContainerImageFromJob env job = ok img ->
  (forall w, exists w', getPodByJob env job w = Returns (ok pod) w') ->
  (forall w id cluster, cacheDeleteJob env w id cluster = None) ->
  (forall w a i s m, setCache env w a i s m = true) ->
  (forall w m, rangeOrder env w m ≡ₚ map_to_list m) ->
  exists e w',
    processFailedScanJob env job w = Returns e w'
    /\ (forall c, recordsFor c w' =
                  (recordsFor c w ++
                   match GetTerminatedContainersStatusesByPod pod !! c with
                   | Some st => if ExitCode st =? 0 then [] else [failureRecord img c st]
                   | None => []
                   end)%list)
    /\ deletesOf job w' = (deletesOf job w ++ [EvClientDelete job])%list
    /\ (e = None \/ exists cause, e = Some (Wrapf "deleting job: " cause)).
Proof.
  intros Hact Hne Himg Hpod Hcache Hset Hperm.
  unfold processFailedScanJob. rewrite Hact, Himg, Hne.
  set (w1 := record (EvLogInfo "Job failed" _) w).
  unfold GetTerminatedContainersStatusesByJob.
  destruct (Hpod w1) as [w2 Hw2].
  pose proof (getPodByJob_quiet env job w1) as Hquiet. rewrite Hw2 in Hquiet.
  cbn [world_of] in Hquiet. rewrite Hw2. cbn [bind]. rewrite Hcache.
  set (w3 := record (EvCacheDeleteJob _ _) w2).
  set (statuses := GetTerminatedContainersStatusesByPod pod).
  destruct (reportFailures_spec env job action img Hset (rangeOrder env w3 statuses) w3)
    as (w4 & Hrep & Hrec & Hdel).
  rewrite Hrep.
  set (w5 := record (EvLogInfo "Deleting failed scan job" []) (record _ w4)).
  assert (Hrec5 : forall c, recordsFor c w5 =
            (recordsFor c w ++ expected img c (rangeOrder env w3 statuses))%list).
  { intros c. unfold w5. rewrite !recordsFor_record. cbn [isRecordFor recordContainer].
    rewrite !app_nil_r, Hrec. unfold w3. rewrite recordsFor_record.
    cbn [isRecordFor recordContainer]. rewrite app_nil_r.
    unfold recordsFor. rewrite (Hquiet (isRecordFor c)) by reflexivity.
    unfold w1. fold (recordsFor c (record (EvLogInfo "Job failed"
                        [("image", imgID img); ("cluster", imgCluster img)]) w)).
    rewrite recordsFor_record. cbn [isRecordFor recordContainer]. now rewrite app_nil_r. }
  assert (Hdel5 : deletesOf job w5 = deletesOf job w).
  { unfold w5. rewrite !deletesOf_record. cbn [isDeleteOf]. rewrite !app_nil_r, Hdel.
    unfold w3. rewrite deletesOf_record. cbn [isDeleteOf]. rewrite app_nil_r.
    unfold deletesOf. rewrite (Hquiet (isDeleteOf job)) by reflexivity.
    unfold w1. fold (deletesOf job (record (EvLogInfo "Job failed"
                        [("image", imgID img); ("cluster", imgCluster img)]) w)).
    rewrite deletesOf_record. cbn [isDeleteOf]. now rewrite app_nil_r. }
  unfold deleteJob.
  assert (Hfinal : forall c, recordsFor c (record (EvClientDelete job) w5) =
            (recordsFor c w ++
             match statuses !! c with
             | Some st => if ExitCode st =? 0 then [] else [failureRecord img c st]
             | None => []
             end)%list).
  { intros c. rewrite recordsFor_record. cbn [isRecordFor recordContainer].
    rewrite app_nil_r, Hrec5. f_equal. apply expected_range, Hperm. }
  assert (Hdfinal : deletesOf job (record (EvClientDelete job) w5)
                    = (deletesOf job w ++ [EvClientDelete job])%list).
  { now rewrite deletesOf_record, isDeleteOf_self, Hdel5. }
  destruct (clientDelete env w5 job) as [cause|].
  - destruct (IsNotFound cause); eexists; eexists;
      (split; [reflexivity|]); (split; [exact Hfinal|]); (split; [exact Hdfinal|]); eauto.
  - eexists; eexists;
      (split; [reflexivity|]); (split; [exact Hfinal|]); (split; [exact Hdfinal|]); eauto.
Qed.

(** The gate in front of the failure path: for a cluster-delete action the
    job is deleted at once and no container is looked at. *)
Lemma processFailedScanJob_cluster_delete (env : Env) (job : Job) (action : string)
    (img : Image) (w : World) :
  getActionTypeFromJob env job = ok action ->
  String.eqb action (ClusterDeleteAction env) = true ->
  getContainerImageFromJob env job = ok img ->
  exists e w',
    processFailedScanJob env job w = Returns e w'
    /\ (forall c, recordsFor c w' = recordsFor c w)
    /\ deletesOf job w' = (deletesOf job w ++ [EvClientDelete job])%list.
Proof.
  intros Hact Heq Himg. unfold processFailedScanJob, deleteJob. rewrite Hact, Himg, Heq.
  assert (Hrec : forall c w0, recordsFor c (record (EvClientDelete job)
                   (record (EvIncrementFailedScansTotal (ClusterDeleteAction env)
                              (imgID img) (imgCluster img)) w0)) = recordsFor c w0).
  { intros c w0. rewrite !recordsFor_record. cbn. now rewrite !app_nil_r. }
  assert (Hdel : forall w0, deletesOf job (record (EvClientDelete job)
                   (record (EvIncrementFailedScansTotal (ClusterDeleteAction env)
                              (imgID img) (imgCluster img)) w0))
                 = (deletesOf job w0 ++ [EvClientDelete job])%list).
  { intros w0. rewrite !deletesOf_record, isDeleteOf_self. cbn. now rewrite app_nil_r. }
  destruct (clientDelete env _ job) as [cause|]; [destruct (IsNotFound cause)|];
    eexists; eexists; (split; [reflexivity|]); (split; [intros c; apply Hrec | apply Hdel]).
Qed.

(** What [reconcileJobs] adds after the failure path has run changes
    neither the failure records nor the delete calls. *)
Lemma reconcileJobs_failed (env : Env) (namespace name : string) (job : Job)
    (conds : list JobConditionType) (w : World) (e : option error) (w1 : World) :
  clientGet env w namespace name = ok job ->
  jobConditions job = JobFailed :: conds ->
  processFailedScanJob env job (record (EvClientGet namespace name) w) = Returns e w1 ->
  exists res w',
    reconcileJobs env namespace name w = Returns res w'
    /\ (forall c, recordsFor c w' = recordsFor c w1)
    /\ deletesOf job w' = deletesOf job w1.
Proof.
  intros Hget Hconds Hp. unfold reconcileJobs. rewrite Hget, Hconds, Hp. cbn [bind].
  destruct e as [e|]; eexists; eexists; (split; [reflexivity|]); split; try reflexivity.
  - intros c. rewrite recordsFor_record. cbn. apply app_nil_r.
  - rewrite deletesOf_record. cbn. apply app_nil_r.
Qed.

Lemma lookups_record (e : Event) (w : World) :
  ControllerNotions.lookups (record e w)
  = (ControllerNotions.lookups w
     ++ (if ControllerNotions.isLookup e then [e] else []))%list.
Proof.
  unfold ControllerNotions.lookups, record. rewrite List.filter_app. cbn.
  now destruct (ControllerNotions.isLookup e).
Qed.

(** The gate in front of the failure path looks nothing up. *)
Lemma processFailedScanJob_cluster_delete_lookups (env : Env) (job : Job) (action : string)
    (img : Image) (w : World) :
  getActionTypeFromJob env job = ok action ->
  String.eqb action (ClusterDeleteAction env) = true ->
  getContainerImageFromJob env job = ok img ->
  ControllerNotions.lookups (world_of (processFailedScanJob env job w))
  = ControllerNotions.lookups w.
Proof.
  intros Hact Heq Himg. unfold processFailedScanJob, deleteJob. rewrite Hact, Himg, Heq.
  destruct (clientDelete env _ job) as [cause|]; [destruct (IsNotFound cause)|];
    cbn [world_of]; rewrite !lookups_record; cbn; now rewrite !app_nil_r.
Qed.

Lemma reconcileJobs_failed_lookups (env : Env) (namespace name : string) (job : Job)
    (conds : list JobConditionType) (w : World) (e : option error) (w1 : World) :
  clientGet env w namespace name = ok job ->
  jobConditions job = JobFailed :: conds ->
  processFailedScanJob env job (record (EvClientGet namespace name) w) = Returns e w1 ->
  ControllerNotions.lookups (world_of (reconcileJobs env namespace name w))
  = ControllerNotions.lookups w1.
Proof.
  intros Hget Hconds Hp. unfold reconcileJobs. rewrite Hget, Hconds, Hp. cbn [bind].
  destruct e as [e|]; cbn [world_of]; [|reflexivity].
  rewrite lookups_record. cbn. apply app_nil_r.
Qed.

(** When the action type or the image of a failed unit cannot be derived,
    the failure path returns that error at once. *)
Lemma processFailedScanJob_underivable (env : Env) (job : Job) (e : error) (w : World) :
  getActionTypeFromJob env job = err e
  \/ ((exists action, getActionTypeFromJob env job = ok action)
      /\ getContainerImageFromJob env job = err e) ->
  processFailedScanJob env job w = Returns (Some e) w.
Proof.
  unfold processFailedScanJob. intros [Hact|[[action Hact] Himg]]; rewrite Hact.
  - reflexivity.
  - now rewrite Himg.
Qed.

(** C2. A unit whose first condition is Failed. When its action type or
    its image cannot be derived from it, the reconcile returns the error of
    the derivation: it adds no failure record, looks up no pod and deletes
    nothing. When both can be derived and the action type is the
    cluster-delete action, the reconcile adds no failure record, whatever
    the containers did, looks up no pod, and issues one delete call for the
    unit. When both can be derived and the action type is another one, on
    the path on which the collaborators answer (the pod lookup returns
    [pod], possibly none, and the caches accept what they are given) and
    for a pod whose containers have distinct names: whatever the order in
    which the statuses are visited, for every init or main container with a
    terminated status the reconcile adds exactly one failure record naming
    the container, its reason and its message when the exit code is not
    zero, and none when it is zero; about names without a non-zero exit it
    adds no record; and it issues exactly one delete call for the unit,
    whether or not any record was added. *)
Theorem failed_unit_records_and_delete (env : Env) (namespace name : string) (job : Job)
    (conds : list JobConditionType) (w : World) :
  clientGet env w namespace name = ok job ->
  jobConditions job = JobFailed :: conds ->
  (forall e,
     getActionTypeFromJob env job = err e
     \/ ((exists action, getActionTypeFromJob env job = ok action)
         /\ getContainerImageFromJob env job = err e) ->
     exists w',
       reconcileJobs env namespace name w = Returns (noRequeue, Some e) w'
       /\ (forall c, recordsFor c w' = recordsFor c w)
       /\ ControllerNotions.lookups w' = ControllerNotions.lookups w
       /\ deletesOf job w' = deletesOf job w)
  /\ (forall action img,
      getActionTypeFromJob env job = ok action ->
      getContainerImageFromJob env job = ok img ->
      (String.eqb action (ClusterDeleteAction env) = true ->
       exists res w',
         reconcileJobs env namespace name w = Returns res w'
         /\ (forall c, recordsFor c w' = recordsFor c w)
         /\ ControllerNotions.lookups w' = ControllerNotions.lookups w
         /\ deletesOf job w' = (deletesOf job w ++ [EvClientDelete job])%list)
      /\ (String.eqb action (ClusterDeleteAction env) = false ->
          forall pod,
          (forall w, exists w', getPodByJob env job w = Returns (ok pod) w') ->
          (forall w id cluster, cacheDeleteJob env w id cluster = None) ->
          (forall w a i s m, setCache env w a i s m = true) ->
          (forall w m, rangeOrder env w m ≡ₚ map_to_list m) ->
          NoDup (csName <$> podStatuses pod) ->
          exists res w',
            reconcileJobs env namespace name w = Returns res w'
            /\ (forall s t, s ∈ podStatuses pod -> Terminated s = Some t ->
                  recordsFor (csName s) w' =
                    (recordsFor (csName s) w ++
                     (if ExitCode t =? 0 then [] else [failureRecord img (csName s) t]))%list)
            /\ (forall c,
                  (forall s t, s ∈ podStatuses pod -> Terminated s = Some t -> csName s = c ->
                               ExitCode t = 0) ->
                  recordsFor c w' = recordsFor c w)
            /\ deletesOf job w' = (deletesOf job w ++ [EvClientDelete job])%list)).
Proof.
  intros Hget Hconds.
  set (w0 := record (EvClientGet namespace name) w).
  assert (Hrec0 : forall c, recordsFor c w0 = recordsFor c w).
  { intros c. unfold w0. rewrite recordsFor_record. cbn. apply app_nil_r. }
  assert (Hdel0 : deletesOf job w0 = deletesOf job w).
  { unfold w0. rewrite deletesOf_record. cbn. apply app_nil_r. }
  assert (Hlook0 : ControllerNotions.lookups w0 = ControllerNotions.lookups w).
  { unfold w0. rewrite lookups_record. cbn. apply app_nil_r. }
  split; [intros e He | intros action img Hact Himg; split].
  - pose proof (processFailedScanJob_underivable env job e w0 He) as Hp.
    unfold reconcileJobs. rewrite Hget, Hconds. fold w0. rewrite Hp. cbn [bind].
    eexists. split; [reflexivity|]. split; [|split].
    + intros c. rewrite recordsFor_record, Hrec0. cbn. apply app_nil_r.
    + rewrite lookups_record, Hlook0. cbn. apply app_nil_r.
    + rewrite deletesOf_record, Hdel0. cbn. apply app_nil_r.
  - intros Heq.
    destruct (processFailedScanJob_cluster_delete env job action img w0 Hact Heq Himg)
      as (e & w1 & Hp & Hrec & Hdel).
    pose proof (processFailedScanJob_cluster_delete_lookups env job action img w0
                  Hact Heq Himg) as Hlook.
    rewrite Hp in Hlook. cbn [world_of] in Hlook.
    pose proof (reconcileJobs_failed_lookups env namespace name job conds w e w1
                  Hget Hconds Hp) as Hlook'.
    destruct (reconcileJobs_failed env namespace name job conds w e w1 Hget Hconds Hp)
      as (res & w' & Hr & Hrec' & Hdel').
    rewrite Hr in Hlook'. cbn [world_of] in Hlook'.
    exists res, w'. split; [exact Hr|]. split; [|split].
    + intros c. now rewrite Hrec', Hrec, Hrec0.
    + now rewrite Hlook', Hlook, Hlook0.
    + now rewrite Hdel', Hdel, Hdel0.
  - intros Hne pod Hpod Hcache Hset Hperm Hnd.
    destruct (processFailedScanJob_spec env job action img pod w0
                Hact Hne Himg Hpod Hcache Hset Hperm) as (e & w1 & Hp & Hrec & Hdel & _).
    destruct (reconcileJobs_failed env namespace name job conds w e w1 Hget Hconds Hp)
      as (res & w' & Hr & Hrec' & Hdel').
    exists res, w'. split; [exact Hr|]. split; [|split].
    + intros s t Hin Ht. rewrite Hrec', Hrec, Hrec0.
      now rewrite (statuses_lookup pod s t Hnd Hin Ht).
    + intros c Hzero. rewrite Hrec', Hrec, Hrec0.
      destruct (GetTerminatedContainersStatusesByPod pod !! c) as [st|] eqn:Hl;
        [|apply app_nil_r].
      destruct (statuses_lookup_inv pod c st Hl) as (s & Hin & Hn & Ht).
      rewrite (Hzero s st Hin Ht Hn). apply app_nil_r.
    + now rewrite Hdel', Hdel, Hdel0.
Qed.

(** The unit of the examples: one container that exited with 0 and one
    that exited with 7. *)
Lemma failed_unit_records_and_delete_witness :
  exists res w',
    reconcileJobs (clusterEnv OperationResultCreated) ForgeCoreNamespace "shell-42" []
      = Returns res w'
    /\ recordsFor "fetch" w' = []
    /\ recordsFor "shell" w' = [failureRecord exampleImage "shell" exit7]
    /\ deletesOf exampleJob w' = [EvClientDelete exampleJob].
Proof.
  destruct (failed_unit_records_and_delete (clusterEnv OperationResultCreated)
              ForgeCoreNamespace "shell-42" exampleJob [] [] eq_refl eq_refl) as [_ H0].
  destruct (H0 "provision" exampleImage eq_refl eq_refl) as [_ H].
  destruct (H eq_refl (Some examplePod)) as (res & w' & Hr & Hrec & _ & Hdel);
    try reflexivity.
  - intros w. eexists. reflexivity.
  - apply NoDup_cons. split; [|apply NoDup_singleton].
    intros Hin. apply list_elem_of_singleton in Hin. discriminate Hin.
  - exists res, w'. split; [exact Hr|]. split; [|split; [|exact Hdel]].
    + refine (Hrec {| csName := "fetch";
                      Terminated := Some {| ExitCode := 0; Reason := "Completed";
                                            Message := EmptyString |} |}
                {| ExitCode := 0; Reason := "Completed"; Message := EmptyString |} _ eq_refl).
      apply elem_of_cons. now left.
    + refine (Hrec {| csName := "shell"; Terminated := Some exit7 |} exit7 _ eq_refl).
      apply elem_of_cons. right. apply elem_of_cons. now left.
Defined.

(** C2, as stated, fails behind two gates of the failure path. For a
    cluster-delete action the container that exited with 7 gets no failure
    record. When the outcome cache refuses the record, the record has been
    logged and the reconcile returns without deleting the unit. *)
Lemma failed_unit_gated :
  (exists res w',
     reconcileJobs (clusterEnvWith OperationResultCreated "cluster-delete" true)
       ForgeCoreNamespace "shell-42" [] = Returns res w'
     /\ recordsFor "shell" w' = []
     /\ deletesOf exampleJob w' = [EvClientDelete exampleJob])
  /\ (exists res w',
        reconcileJobs (clusterEnvWith OperationResultCreated "provision" false)
          ForgeCoreNamespace "shell-42" [] = Returns res w'
        /\ recordsFor "shell" w' = [failureRecord exampleImage "shell" exit7]
        /\ deletesOf exampleJob w' = []).
Proof.
  split; eexists; eexists; (split; [vm_compute; reflexivity|]); split; vm_compute; reflexivity.
Qed.

End ControllerProps.

(** ** The copy protocol, continued *)

Module ScpMore.
Import Go GoFacts Scp ScpProps ScpNotions.

Lemma ReadString_no_delim (s : string) (d : ascii) :
  contains s d = false -> ReadString s d = (s, EmptyString, Some EOF).
Proof.
  induction s as [|c s IH]; cbn [contains ReadString]; intros H; [reflexivity|].
  apply orb_false_iff in H as [Hc Hs]. now rewrite Hc, (IH Hs).
Qed.

(** X1. A stream that ends before any newline gives the reader nothing to
    parse: it reports [io.EOF] and writes nothing. The empty stream is one
    such. *)
Theorem Download_no_header_line (stream : string) :
  contains stream LF = false -> Download stream = (EmptyString, Some EOF).
Proof. intros H. unfold Download. now rewrite (ReadString_no_delim _ _ H). Qed.

Lemma Download_no_header_line_witness :
  Download EmptyString = (EmptyString, Some EOF)
  /\ Download "C0644 12 run.sh" = (EmptyString, Some EOF).
Proof.
  split.
  - apply (Download_no_header_line EmptyString). reflexivity.
  - apply (Download_no_header_line "C0644 12 run.sh"). reflexivity.
Defined.

(** X2. After a well-formed header the reader copies exactly the declared
    number of bytes and stops: whatever follows them on the stream, the
    sender's closing NUL included, is neither written nor looked at. *)
Theorem Download_copies_declared_length (mode size name payload rest : string) :
  String.length mode = 4%nat -> contains mode SP = false -> contains mode LF = false ->
  allDigits size = true -> ParseInt size = ok (len payload) ->
  contains name SP = false -> contains name LF = false ->
  Download (headerLine mode size name +:+ payload +:+ rest) = (payload, None).
Proof.
  intros Hl HmS HmL Hd Hp HnS HnL.
  destruct (Download_wellformed mode size name (payload +:+ rest) (len payload)
              Hl HmS HmL Hd Hp HnS HnL) as [_ H].
  unfold headerLine. rewrite H, CopyN_exact. reflexivity.
Qed.

Lemma Download_copies_declared_length_witness :
  Download (headerLine "0644" "3" "f" +:+ "abc" +:+ "trailing bytes") = ("abc", None).
Proof.
  apply (Download_copies_declared_length "0644" "3" "f" "abc" "trailing bytes");
    reflexivity.
Defined.

(** X3. A stream that ends before the declared number of bytes: the reader
    writes every byte that did arrive and then reports [io.EOF]; the
    partial copy is not taken back. *)
Theorem Download_truncated_payload (mode size name payload : string) (n : Z) :
  String.length mode = 4%nat -> contains mode SP = false -> contains mode LF = false ->
  allDigits size = true -> ParseInt size = ok n ->
  contains name SP = false -> contains name LF = false ->
  len payload < n ->
  Download (headerLine mode size name +:+ payload) = (payload, Some EOF).
Proof.
  intros Hl HmS HmL Hd Hp HnS HnL Hshort.
  destruct (Download_wellformed mode size name payload n Hl HmS HmL Hd Hp HnS HnL) as [_ H].
  unfold headerLine. rewrite H. unfold CopyN.
  assert (0 <= len payload) by (unfold len; lia).
  destruct (Z.leb_spec n 0); [lia|]. destruct (Z.leb_spec n (len payload)); [lia|].
  reflexivity.
Qed.

Lemma Download_truncated_payload_witness :
  Download (headerLine "0644" "10" "f" +:+ "abc") = ("abc", Some EOF).
Proof.
  apply (Download_truncated_payload "0644" "10" "f" "abc" 10); reflexivity.
Defined.

(** X4. The four bytes after the [C] are not examined: two headers that
    differ only there, whether or not those bytes are octal digits, make
    the reader write the same bytes and report the same outcome. *)
Theorem Download_ignores_mode (mode mode' size name payload : string) (n : Z) :
  String.length mode = 4%nat -> contains mode SP = false -> contains mode LF = false ->
  String.length mode' = 4%nat -> contains mode' SP = false -> contains mode' LF = false ->
  allDigits size = true -> ParseInt size = ok n ->
  contains name SP = false -> contains name LF = false ->
  Download (headerLine mode size name +:+ payload)
  = Download (headerLine mode' size name +:+ payload).
Proof.
  intros Hl HmS HmL Hl' HmS' HmL' Hd Hp HnS HnL.
  destruct (Download_wellformed mode size name payload n Hl HmS HmL Hd Hp HnS HnL) as [_ H].
  destruct (Download_wellformed mode' size name payload n Hl' HmS' HmL' Hd Hp HnS HnL)
    as [_ H'].
  unfold headerLine. now rewrite H, H'.
Qed.

Lemma Download_ignores_mode_witness :
  Download (headerLine "0644" "3" "f" +:+ "abc") = Download (headerLine "rwx!" "3" "f" +:+ "abc").
Proof.
  apply (Download_ignores_mode "0644" "rwx!" "3" "f" "abc" 3); reflexivity.
Defined.

(** The reader on a header line whose size field is any text without a
    space or a newline. *)
Lemma Download_header (mode size name payload : string) :
  String.length mode = 4%nat -> contains mode SP = false -> contains mode LF = false ->
  contains size SP = false -> contains size LF = false ->
  contains name SP = false -> contains name LF = false ->
  Download (headerLine mode size name +:+ payload)
  = match ParseInt size with
    | err e => (EmptyString, Some e)
    | ok n => let '(written, _, e) := CopyN payload n in (written, e)
    end.
Proof.
  intros Hlen HmSP HmLF HDSP HDLF HBSP HBLF. unfold headerLine.
  set (line := String "C" mode +:+ String SP (size +:+ String SP name)).
  assert (Hstream : (String "C" mode +:+ String SP (size +:+ String SP (name +:+ String LF EmptyString)))
                    +:+ payload = line +:+ String LF payload).
  { unfold line. rewrite !append_assoc. sapp. rewrite !append_assoc. sapp.
    rewrite !append_assoc. reflexivity. }
  assert (HlineLF : contains line LF = false).
  { unfold line. rewrite contains_append. cbn [contains]. rewrite contains_append. cbn [contains].
    rewrite HmLF, HDLF, HBLF. reflexivity. }
  assert (Hsplit : Split (line +:+ String LF EmptyString) SP
                   = [String "C" mode; size; name +:+ String LF EmptyString]).
  { unfold line. rewrite !append_assoc. sapp. rewrite !append_assoc. sapp.
    change (String "C" (mode +:+ String " " (size +:+ String " " (name +:+ String LF EmptyString))))
      with (String "C" mode +:+ String SP (size +:+ String SP (name +:+ String LF EmptyString))).
    rewrite Split_field by (cbn [contains]; now rewrite HmSP).
    rewrite Split_field by exact HDSP.
    rewrite Split_single; [reflexivity|].
    rewrite contains_append. cbn [contains]. now rewrite HBSP. }
  rewrite Hstream. unfold Download. rewrite (ReadString_line _ _ _ HlineLF), Hsplit.
  cbn [nth length String.length String.get]. rewrite Hlen. cbn.
  destruct (ParseInt size); reflexivity.
Qed.

(** X5. A header whose size field is zero or negative is not an error:
    the reader accepts it, writes nothing and reports success, whatever
    bytes follow. *)
Theorem Download_nonpositive_length (mode size name payload : string) (n : Z) :
  String.length mode = 4%nat -> contains mode SP = false -> contains mode LF = false ->
  contains size SP = false -> contains size LF = false ->
  contains name SP = false -> contains name LF = false ->
  ParseInt size = ok n -> n <= 0 ->
  Download (headerLine mode size name +:+ payload) = (EmptyString, None).
Proof.
  intros Hl HmS HmL HsS HsL HnS HnL Hp Hn.
  rewrite (Download_header mode size name payload Hl HmS HmL HsS HsL HnS HnL), Hp.
  unfold CopyN. destruct (Z.leb_spec n 0); [reflexivity | lia].
Qed.

Lemma Download_nonpositive_length_witness :
  Download (headerLine "0644" "-5" "f" +:+ "abcdefgh") = (EmptyString, None).
Proof.
  apply (Download_nonpositive_length "0644" "-5" "f" "abcdefgh" (-5)); try reflexivity. lia.
Defined.

(** *** Which modes survive the round trip *)

Lemma allOctal_contains (s : string) (x : ascii) :
  allOctal s = true -> isDigit x = false -> contains s x = false.
Proof.
  induction s as [|c s IH]; cbn [allOctal contains]; intros H Hx; [reflexivity|].
  apply andb_true_iff in H as [Hc Hs]. rewrite (IH Hs Hx), orb_false_r.
  apply Ascii.eqb_neq. intros ->. unfold isDigit in Hx.
  apply andb_true_iff in Hc as [H1 H2]. apply N.leb_le in H1, H2.
  apply andb_false_iff in Hx as [Hx|Hx]; apply N.leb_gt in Hx; lia.
Qed.

Lemma small_cases8 (d : N) :
  (d < 8)%N ->
  d = 0%N \/ d = 1%N \/ d = 2%N \/ d = 3%N \/ d = 4%N \/ d = 5%N \/ d = 6%N \/ d = 7%N.
Proof. lia. Qed.

Lemma fmtDigits_allOctal (fuel : nat) (u : N) (buf : string) :
  (u < 2 ^ N.of_nat fuel)%N -> allOctal buf = true ->
  allOctal (fmtDigits 8 fuel u buf) = true.
Proof.
  assert (Hdig : forall d, (d < 8)%N -> allOctal (String (digit d) buf) = allOctal buf).
  { intros d Hd.
    destruct (small_cases8 d Hd) as [->|[->|[->|[->|[->|[->|[->| ->]]]]]]]; reflexivity. }
  revert u buf Hdig. induction fuel as [|fuel IH]; intros u buf Hdig Hu Hbuf.
  - cbn in Hu. assert (u = 0%N) as -> by lia. cbn [fmtDigits]. now rewrite Hdig.
  - cbn [fmtDigits]. destruct (N.leb_spec 8 u) as [Hge|Hlt].
    + apply IH.
      * intros d Hd.
        destruct (small_cases8 d Hd) as [->|[->|[->|[->|[->|[->|[->| ->]]]]]]]; reflexivity.
      * rewrite Nat2N.inj_succ, N.pow_succ_r' in Hu. apply N.Div0.div_lt_upper_bound. nia.
      * rewrite Hdig; [exact Hbuf | apply N.mod_lt; lia].
    + now rewrite Hdig.
Qed.

(** The first digit written for a positive number is not [0]. *)
Lemma fmtDigits_leading (fuel : nat) (u : N) (buf : string) :
  (1 <= u)%N -> (u < 2 ^ N.of_nat fuel)%N ->
  exists c rest, fmtDigits 8 fuel u buf = String c rest /\ c <> "0"%char.
Proof.
  revert u buf. induction fuel as [|fuel IH]; intros u buf H1 Hu.
  - cbn in Hu. lia.
  - cbn [fmtDigits]. destruct (N.leb_spec 8 u) as [Hge|Hlt].
    + apply IH.
      * apply N.div_le_lower_bound; lia.
      * rewrite Nat2N.inj_succ, N.pow_succ_r' in Hu. apply N.Div0.div_lt_upper_bound. nia.
    + exists (digit u), buf. split; [reflexivity|].
      destruct (small_cases8 u Hlt) as [->|[->|[->|[->|[->|[->|[->| ->]]]]]]];
        try discriminate. lia.
Qed.

Lemma FormatOctalSharp_positive (u : N) :
  (1 <= u)%N -> FormatOctalSharp u = String "0" (fmtUnsigned 8 u).
Proof.
  intros H1. unfold FormatOctalSharp.
  destruct (fmtDigits_leading (N.size_nat u) u EmptyString H1 (size_nat_gt u))
    as (c & rest & E & Hc).
  unfold fmtUnsigned. rewrite E.
  destruct c as [[] [] [] [] [] [] [] []]; try reflexivity. contradiction.
Qed.

Lemma FormatOctalSharp_allOctal (u : N) : allOctal (FormatOctalSharp u) = true.
Proof.
  destruct (N.eq_dec u 0%N) as [->|Hne]; [reflexivity|].
  rewrite FormatOctalSharp_positive by lia. cbn [allOctal].
  apply fmtDigits_allOctal; [apply size_nat_gt | reflexivity].
Qed.

Lemma fmtDigits_grows (base : N) (fuel : nat) (u : N) (buf : string) :
  (S (String.length buf) <= String.length (fmtDigits base fuel u buf))%nat.
Proof.
  revert u buf. induction fuel as [|fuel IH]; intros u buf; cbn [fmtDigits].
  - cbn. lia.
  - destruct (base <=? u)%N; [|cbn; lia].
    specialize (IH (u / base)%N (String (digit (u mod base)) buf)). cbn in IH. lia.
Qed.

(** A number of at least [8^k] has more than [k] octal digits. *)
Lemma fmtDigits_length (k fuel : nat) (u : N) (buf : string) :
  (8 ^ N.of_nat k <= u)%N -> (u < 2 ^ N.of_nat fuel)%N ->
  (k + 1 + String.length buf <= String.length (fmtDigits 8 fuel u buf))%nat.
Proof.
  revert fuel u buf. induction k as [|k IH]; intros fuel u buf Hk Hu.
  - pose proof (fmtDigits_grows 8 fuel u buf). lia.
  - rewrite Nat2N.inj_succ, N.pow_succ_r' in Hk.
    assert (Hpos : (1 <= 8 ^ N.of_nat k)%N).
    { pose proof (N.pow_nonzero 8 (N.of_nat k)). lia. }
    destruct fuel as [|fuel]; [cbn in Hu; lia|].
    cbn [fmtDigits]. destruct (N.leb_spec 8 u) as [_|Hlt]; [|lia].
    specialize (IH fuel (u / 8)%N (String (digit (u mod 8)) buf)).
    cbn [String.length] in IH.
    assert (H1 : (8 ^ N.of_nat k <= u / 8)%N) by (apply N.div_le_lower_bound; lia).
    assert (H2 : (u / 8 < 2 ^ N.of_nat fuel)%N).
    { rewrite Nat2N.inj_succ, N.pow_succ_r' in Hu. apply N.Div0.div_lt_upper_bound. nia. }
    specialize (IH H1 H2). lia.
Qed.

(** The modes with exactly three octal digits, [0100] to [0777], are the
    ones that [%#o] renders in four bytes. *)
Lemma FormatOctalSharp_length (mode : N) :
  String.length (FormatOctalSharp mode) = 4%nat <-> (64 <= mode < 512)%N.
Proof.
  destruct (N.ltb_spec mode 512) as [Hlt|Hge].
  - assert (Hall : forallb (fun n => Bool.eqb (String.length (FormatOctalSharp (N.of_nat n)) =? 4)%nat
                                        (64 <=? n)%nat) (seq 0 512) = true)
      by (vm_compute; reflexivity).
    rewrite forallb_forall in Hall. specialize (Hall (N.to_nat mode)).
    rewrite N2Nat.id in Hall.
    assert (Hin : In (N.to_nat mode) (seq 0 512)) by (apply in_seq; lia).
    apply Hall, Bool.eqb_prop in Hin.
    destruct (Nat.leb_spec 64 (N.to_nat mode)); apply Nat.eqb_eq in Hin || apply Nat.eqb_neq in Hin;
      split; intros; lia.
  - assert (H : (3 + 1 + 0 <= String.length (fmtUnsigned 8 mode))%nat).
    { apply (fmtDigits_length 3 (N.size_nat mode) mode EmptyString); [exact Hge | apply size_nat_gt]. }
    rewrite FormatOctalSharp_positive by lia. cbn [String.length]. split; intros; lia.
Qed.

Lemma Upload_headerLine (X dst : string) (mode : N) :
  Upload X dst mode
  = headerLine (FormatOctalSharp mode) (FormatInt (len X)) (Base dst)
    +:+ X +:+ String NUL EmptyString.
Proof. reflexivity. Qed.

(** X6. The round trip holds for every mode with exactly three octal
    digits, [0100] to [0777]: for content of a length that fits Go's [int]
    and a destination whose base name has neither a space nor a newline,
    the reader copies out exactly what [Upload] was given. *)
Theorem roundtrip_three_digit_modes (X dst : string) (mode : N) :
  (64 <= mode < 512)%N ->
  contains (Base dst) SP = false ->
  contains (Base dst) LF = false ->
  len X < 2 ^ 63 ->
  Download (Upload X dst mode) = (X, None).
Proof.
  intros Hmode HSP HLF Hlen.
  assert (Hpos : 0 <= len X) by (unfold len; lia).
  assert (H1 : String.length (FormatOctalSharp mode) = 4%nat)
    by now apply FormatOctalSharp_length.
  assert (H2 : contains (FormatOctalSharp mode) SP = false)
    by (apply allOctal_contains; [apply FormatOctalSharp_allOctal | reflexivity]).
  assert (H3 : contains (FormatOctalSharp mode) LF = false)
    by (apply allOctal_contains; [apply FormatOctalSharp_allOctal | reflexivity]).
  assert (H4 : allDigits (FormatInt (len X)) = true) by now apply FormatInt_digits.
  assert (H5 : ParseInt (FormatInt (len X)) = ok (len X)) by (apply ParseInt_FormatInt; lia).
  rewrite Upload_headerLine. unfold headerLine.
  rewrite (proj2 (Download_wellformed _ _ _ (X +:+ String NUL EmptyString) _
                    H1 H2 H3 H4 H5 HSP HLF)), CopyN_exact.
  reflexivity.
Qed.

Lemma roundtrip_three_digit_modes_witness :
  Download (Upload "echo ok" "/usr/local/bin/hook" 493) = ("echo ok", None).
Proof.
  apply (roundtrip_three_digit_modes "echo ok" "/usr/local/bin/hook" 493);
    [lia | reflexivity | reflexivity | vm_compute; reflexivity].
Defined.

Lemma ReadString_skip (p r : string) (d : ascii) :
  contains p d = false ->
  ReadString (p +:+ r) d = (let '(l, rest, e) := ReadString r d in (p +:+ l, rest, e)).
Proof.
  induction p as [|c p IH]; sapp; intros H.
  - now destruct (ReadString r d) as [[l rest] e].
  - apply orb_false_iff in H as [Hc Hp]. rewrite Hc, (IH Hp).
    now destruct (ReadString r d) as [[l rest] e].
Qed.

Lemma ReadString_found (r : string) (d : ascii) :
  contains r d = true -> exists l rest, ReadString r d = (l, rest, None).
Proof.
  induction r as [|c r IH]; cbn [contains ReadString]; intros H; [discriminate|].
  destruct (Ascii.eqb c d); [eauto|]. cbn [orb] in H.
  destruct (IH H) as (l & rest & E). rewrite E. eauto.
Qed.

(** A stream whose first field, up to the first space, is not five bytes
    long is rejected, whatever the rest of its first line is. *)
Lemma Download_first_field (f0 r : string) :
  contains f0 SP = false -> contains f0 LF = false -> contains r LF = true ->
  String.length f0 <> 5%nat ->
  Download (f0 +:+ String SP r) = (EmptyString, Some ErrSSHInvalidMessageLength).
Proof.
  intros HSP HLF Hr Hlen.
  destruct (ReadString_found r LF Hr) as (l & rest & E).
  unfold Download. rewrite (ReadString_skip f0 _ LF HLF). cbn [ReadString].
  change (Ascii.eqb SP LF) with false. cbn iota. rewrite E.
  change (f0 +:+ String SP l) with (f0 +:+ String SP l).
  rewrite Split_field by exact HSP. cbn [nth].
  destruct (Nat.eqb_spec (String.length f0) 5) as [|_]; [contradiction|].
  cbn [negb]. now rewrite orb_true_r.
Qed.

(** X7. For every other mode, below [0100] or above [0777], whatever the
    content and the destination, the reader rejects what [Upload] writes
    with the invalid-message-length error and copies nothing: the mode
    field [Upload] writes is then not four bytes long. *)
Theorem upload_mode_rejected (X dst : string) (mode : N) :
  (mode < 64 \/ 512 <= mode)%N ->
  Download (Upload X dst mode) = (EmptyString, Some ErrSSHInvalidMessageLength).
Proof.
  intros Hmode.
  assert (Hup : Upload X dst mode
                = String "C" (FormatOctalSharp mode)
                  +:+ String SP ((FormatInt (len X) +:+ String SP (Base dst +:+ String LF EmptyString))
                                 +:+ X +:+ String NUL EmptyString)).
  { unfold Upload, uploadHeader. repeat (rewrite append_assoc || rewrite append_cons
                                          || rewrite append_nil). reflexivity. }
  rewrite Hup. apply Download_first_field.
  - cbn [contains]. rewrite allOctal_contains;
      [reflexivity | apply FormatOctalSharp_allOctal | reflexivity].
  - cbn [contains]. rewrite allOctal_contains;
      [reflexivity | apply FormatOctalSharp_allOctal | reflexivity].
  - rewrite !contains_append. cbn [contains]. rewrite !contains_append. cbn [contains].
    rewrite Ascii.eqb_refl. now rewrite !orb_true_r.
  - cbn [String.length]. intros H. injection H as H.
    apply FormatOctalSharp_length in H. lia.
Qed.

Lemma upload_mode_rejected_witness :
  Download (Upload "echo ok" "/tmp/hook" 7) = (EmptyString, Some ErrSSHInvalidMessageLength)
  /\ Download (Upload "echo ok" "/tmp/hook" 2541)
     = (EmptyString, Some ErrSSHInvalidMessageLength).
Proof.
  split.
  - apply (upload_mode_rejected "echo ok" "/tmp/hook" 7). left. lia.
  - apply (upload_mode_rejected "echo ok" "/tmp/hook" 2541). right. lia.
Defined.

End ScpMore.

(** ** The ssh client, continued *)

Module SSHMore.
Import Go GoFacts SSH SSHProps SSHNotions SSHAccess.

Lemma keepAlives_record (e : Event) (w : World) :
  keepAlives (record e w) = (keepAlives w + (if isGoKeepAlive e then 1 else 0))%nat.
Proof.
  unfold keepAlives, record; cbn [history]. rewrite List.filter_app, length_app.
  cbn. now destruct (isGoKeepAlive e).
Qed.

Lemma keepAlives_advance (d : Z) (w : World) : keepAlives (advance d w) = keepAlives w.
Proof. reflexivity. Qed.

(** X8. A [Connect] that returns an error has changed nothing on the
    client, started no keepalive task, and left [closeMutex] as it found
    it. *)
Theorem Connect_failure_leaves_client (env : Env) (client client' : SSHClient)
    (w w' : World) (e : error) :
  Connect env client w = Returns (Some e, client') w' ->
  client' = client /\ keepAlives w' = keepAlives w /\ closeMutex w' = closeMutex w.
Proof.
  revert e client' w'. connect_cases; intros e' client' w'; intros [= ? ? ?]; subst;
    repeat (rewrite keepAlives_record || rewrite keepAlives_advance);
    cbn [isGoKeepAlive closeMutex record advance]; repeat split; lia.
Qed.

Lemma Connect_failure_leaves_client_witness :
  exists e w',
    Connect (refusingEnv Second) portClient startWorld = Returns (Some e, portClient) w'
    /\ keepAlives w' = keepAlives startWorld /\ closeMutex w' = closeMutex startWorld.
Proof.
  eexists. eexists. split; [reflexivity|].
  eapply (Connect_failure_leaves_client (refusingEnv Second) portClient portClient startWorld).
  reflexivity.
Defined.

(** X9. A [Connect] that succeeds stores the connection the dial returned
    and changes nothing else but the signal channel: a client without one
    gets a fresh open one, a client that has one keeps it. One keepalive
    task is started when the keepalive interval is positive and none
    otherwise, and [closeMutex] is free afterwards. *)
Theorem Connect_success_state (env : Env) (client client1 : SSHClient) (w w1 : World) :
  Connect env client w = Returns (None, client1) w1 ->
  Creds client1 = Creds client /\ IP client1 = IP client /\ Port client1 = Port client
  /\ Opts client1 = Opts client
  /\ close client1 = Some (default ChanOpen (close client))
  /\ (exists w0 config took,
        dial env w0 "tcp" (dialAddr env client) config = (took, ok (cryptoClient client1)))
  /\ keepAlives w1 = (keepAlives w + (if (0 <? KeepAlive (Opts client))%Z then 1 else 0))%nat
  /\ closeMutex w1 = false.
Proof.
  revert client1 w1. connect_cases; intros client1 w1; intros [= ? ?]; subst;
    cbn [Creds IP Port Opts close cryptoClient default option_map];
    repeat (rewrite keepAlives_record || rewrite keepAlives_advance);
    cbn [isGoKeepAlive closeMutex record advance] in *;
    repeat match goal with
           | H : close _ = _ |- _ => rewrite H
           | H : (0 <? _) = _ |- _ => rewrite H
           end;
    cbn [default];
    (repeat split; try reflexivity; try lia; try assumption;
     try (unfold dialAddr; eauto)).
Qed.

Lemma Connect_success_state_witness :
  exists client1 w1,
    Connect mockedEnv portClient startWorld = Returns (None, client1) w1
    /\ close client1 = Some ChanOpen
    /\ keepAlives w1 = 1%nat
    /\ closeMutex w1 = false.
Proof.
  eexists. eexists. split; [reflexivity|].
  destruct (Connect_success_state mockedEnv portClient _ startWorld _ eq_refl)
    as (_ & _ & _ & _ & Hc & _ & Hk & Hm).
  split; [exact Hc|]. split; [exact Hk | exact Hm].
Defined.

(** X10. [Disconnect] never panics. It blocks only when [closeMutex] is
    held and the signal has not been closed yet. Otherwise it returns,
    leaving the world as it was and no open signal channel behind, and it
    changes nothing on the client but the signal channel: the transport
    connection stored by [Connect] is neither closed nor cleared. *)
Theorem Disconnect_outcomes (client : SSHClient) (w : World) :
  (exists client',
     Disconnect client w = Returns client' w
     /\ sameButSignal client' client
     /\ close client' <> Some ChanOpen
     /\ (closeMutex w = false \/ close client = Some ChanClosed))
  \/ (Disconnect client w = Blocks w
      /\ closeMutex w = true /\ close client <> Some ChanClosed).
Proof.
  unfold Disconnect, sameButSignal.
  destruct (close client) as [[]|] eqn:Hc; cbn [recvReady];
    destruct (closeMutex w) eqn:Hm;
    try (right; repeat split; (reflexivity || discriminate));
    left; eexists; (split; [reflexivity|]); cbn [Creds IP Port Opts cryptoClient close];
    rewrite ?Hc; repeat split; try discriminate; auto.
Qed.

(** *** WaitForSSH, continued *)

(** X11. The only error [WaitForSSH] ever returns is the timeout error:
    what made the connects fail is not reported. It returns that error only
    once [maxWait] has elapsed since the call began, and with the client as
    it was given. *)
Theorem WaitForSSH_error_is_timeout (fuel : nat) (env : Env) (maxWait : Z)
    (client client' : SSHClient) (w w' : World) (e : error) :
  WaitForSSH fuel env maxWait client w = Some (Returns (Some e, client') w') ->
  e = ErrTimeout /\ client' = client /\ maxWait <= now w' - now w.
Proof.
  unfold WaitForSSH. generalize (now w) as start. revert client w.
  induction fuel as [|fuel IH]; intros client w start H; [discriminate|].
  cbn [WaitForSSH_loop] in H.
  destruct (Connect env client w) as [[[e1|] c1] w1|msg w1|w1] eqn:HC; try discriminate.
  - pose proof (Connect_failure_client env client c1 w w1 e1 HC) as ->.
    destruct (Z.leb_spec maxWait (now w1 - start)) as [Hle|Hgt].
    + injection H as <- <- <-. repeat split; assumption || reflexivity.
    + exact (IH _ _ _ H).
  - destruct (Disconnect c1 w1); cbn [bind] in H; discriminate.
Qed.

Lemma WaitForSSH_error_is_timeout_witness :
  exists w',
    WaitForSSH 8 (refusingEnv 0) fiveSeconds testClient startWorld
      = Some (Returns (Some ErrTimeout, testClient) w')
    /\ fiveSeconds <= now w' - now startWorld.
Proof.
  eexists. split; [vm_compute; reflexivity|].
  eapply (WaitForSSH_error_is_timeout 8 (refusingEnv 0) fiveSeconds testClient testClient
            startWorld _ ErrTimeout).
  vm_compute. reflexivity.
Defined.

Lemma Disconnect_world (client client' : SSHClient) (w w' : World) :
  Disconnect client w = Returns client' w' -> w' = w /\ close client' <> Some ChanOpen.
Proof.
  unfold Disconnect.
  destruct (close client) as [[]|] eqn:Hc; cbn [recvReady];
    destruct (closeMutex w); try discriminate;
    intros [= <- <-]; (split; [reflexivity|]); cbn [close]; rewrite ?Hc; discriminate.
Qed.

(** X12. Whenever [WaitForSSH] returns, with success or with the timeout,
    it has slept exactly two seconds between consecutive connects and at no
    other time: [n] connects, [n >= 1], and [n - 1] sleeps. When it returns
    success the probe has been disconnected: no open signal channel is left
    and [closeMutex] is free. *)
Theorem WaitForSSH_sleeps_between (fuel : nat) (env : Env) (maxWait : Z)
    (client client' : SSHClient) (w w' : World) (r : option error) :
  WaitForSSH fuel env maxWait client w = Some (Returns (r, client') w') ->
  exists n,
    (1 <= n)%nat
    /\ attempts w' = (attempts w + n)%nat
    /\ sleeps w' = (sleeps w ++ repeat (EvSleep (2 * Second)) (n - 1))%list
    /\ (r = None -> close client' <> Some ChanOpen /\ closeMutex w' = false).
Proof.
  unfold WaitForSSH. generalize (now w) as start. revert client w.
  induction fuel as [|fuel IH]; intros client w start H; [discriminate|].
  cbn [WaitForSSH_loop] in H.
  pose proof (Connect_attempts env client w) as Hatt.
  pose proof (Connect_sleeps env client w) as Hsl.
  destruct (Connect env client w) as [[[e1|] c1] w1|msg w1|w1] eqn:HC; try discriminate;
    cbn [world_of] in Hatt, Hsl.
  - destruct (Z.leb_spec maxWait (now w1 - start)) as [Hle|Hgt].
    + injection H as <- <- <-. exists 1%nat. rewrite Hatt, Hsl. cbn [Nat.sub repeat].
      rewrite app_nil_r. repeat split; try lia; discriminate.
    + destruct (IH _ _ _ H) as (n & Hn & Ha & Hs & Hr). exists (S n).
      unfold Sleep in Ha, Hs.
      rewrite attempts_advance, attempts_record in Ha. cbn [isConnect] in Ha.
      rewrite sleeps_advance, sleeps_record, Hsl in Hs. cbn [isSleep] in Hs.
      split; [lia|]. split; [lia|]. split; [|exact Hr].
      rewrite Hs, <- app_assoc. cbn [app]. f_equal.
      destruct n as [|n]; [lia|]. cbn [Nat.sub repeat]. now rewrite Nat.sub_0_r.
  - destruct (Connect_success env client c1 w w1 HC) as [Hm _].
    destruct (Disconnect c1 w1) as [c2 w2|msg w2|w2] eqn:HD; cbn [bind] in H; try discriminate.
    injection H as <- <- <-.
    destruct (Disconnect_world c1 c2 w1 w2 HD) as [-> Hc].
    exists 1%nat. rewrite Hatt, Hsl. cbn [Nat.sub repeat]. rewrite app_nil_r.
    repeat split; try lia; assumption.
Qed.

Lemma WaitForSSH_sleeps_between_witness :
  exists client' w' n,
    WaitForSSH 8 mockedEnv fiveSeconds portClient startWorld
      = Some (Returns (None, client') w')
    /\ (1 <= n)%nat
    /\ attempts w' = (attempts startWorld + n)%nat
    /\ sleeps w' = (sleeps startWorld ++ repeat (EvSleep (2 * Second)) (n - 1))%list
    /\ close client' <> Some ChanOpen.
Proof.
  eexists. eexists.
  destruct (WaitForSSH_sleeps_between 8 mockedEnv fiveSeconds portClient _ startWorld _ None
              eq_refl) as (n & Hn & Ha & Hs & Hr).
  exists n. split; [reflexivity|]. repeat split; try assumption; try lia.
  exact (proj1 (Hr eq_refl)).
Defined.

(** X13. For every [maxWait], [WaitForSSH] with a connect that always
    fails comes to an end with the timeout error: [fuel] iterations are
    enough as soon as [maxWait <= 2s * (fuel - 1)]. A connect is always
    attempted once, even when [maxWait] is zero or negative, and then only
    once; for a positive [maxWait] at most [(maxWait - 1) / 2s + 2]
    connects are made. *)
Theorem WaitForSSH_terminates (env : Env) (client : SSHClient) (maxWait d : Z) (fuel : nat)
    (w : World) :
  alwaysFails env client -> dialWithin env d -> (1 <= fuel)%nat ->
  maxWait <= 2 * Second * (Z.of_nat fuel - 1) ->
  exists w' n,
    WaitForSSH fuel env maxWait client w = Some (Returns (Some ErrTimeout, client) w')
    /\ attempts w' = (attempts w + n)%nat
    /\ (1 <= n)%nat
    /\ (maxWait <= 0 -> n = 1%nat)
    /\ (0 < maxWait -> Z.of_nat n <= (maxWait - 1) / (2 * Second) + 2).
Proof.
  intros Hfail Hd Hfuel Hmax.
  destruct (WaitForSSH_loop_timeout env client maxWait (now w) d Hfail Hd fuel w Hfuel)
    as (w' & n & Hloop & Ha & Hn & Hbound & _).
  { lia. }
  exists w', n. unfold WaitForSSH. rewrite Hloop.
  rewrite Z.sub_diag, Z.add_0_r in Hbound.
  assert (Hs : 0 < 2 * Second) by reflexivity.
  repeat split; try assumption.
  - intros Hle. destruct Hbound as [|Hb]; [assumption|]. nia.
  - intros Hpos. destruct Hbound as [->|Hb].
    + assert (0 <= (maxWait - 1) / (2 * Second)) by (apply Z.div_pos; lia). lia.
    + assert ((Z.of_nat n - 2) <= (maxWait - 1) / (2 * Second)); [|lia].
      apply Z.div_le_lower_bound; lia.
Qed.

Lemma WaitForSSH_terminates_witness :
  exists w' n,
    WaitForSSH 1 (refusingEnv 0) 0 testClient startWorld
      = Some (Returns (Some ErrTimeout, testClient) w')
    /\ attempts w' = (attempts startWorld + n)%nat
    /\ n = 1%nat.
Proof.
  destruct (WaitForSSH_terminates (refusingEnv 0) testClient 0 0 1 startWorld)
    as (w' & n & H & Ha & _ & Hn & _).
  - apply refusingEnv_alwaysFails.
  - apply refusingEnv_dialWithin. lia.
  - lia.
  - cbn. lia.
  - exists w', n. split; [exact H|]. split; [exact Ha|]. apply Hn. lia.
Defined.

(** *** The credential accessors *)

(** X14. On a client with credentials, each setter stores its argument so
    that the matching getter returns it, and touches nothing else: the
    other secret, the user name and the rest of the client stay as they
    were. *)
Theorem set_then_get (client : SSHClient) (creds : Credentials) (s : string) (w : World) :
  Creds client = Some creds ->
  (exists c1,
     SetSSHPrivateKey s client w = Returns c1 w
     /\ GetSSHPrivateKey c1 w = Returns s w
     /\ GetSSHPassword c1 w = Returns (SSHPassword creds) w
     /\ Creds c1 = Some {| SSHUser := SSHUser creds; SSHPassword := SSHPassword creds;
                           SSHPrivateKey := s |}
     /\ sameButSignal (withCreds creds c1) client /\ close c1 = close client)
  /\ (exists c1,
        SetSSHPassword s client w = Returns c1 w
        /\ GetSSHPassword c1 w = Returns s w
        /\ GetSSHPrivateKey c1 w = Returns (SSHPrivateKey creds) w
        /\ Creds c1 = Some {| SSHUser := SSHUser creds; SSHPassword := s;
                              SSHPrivateKey := SSHPrivateKey creds |}
        /\ sameButSignal (withCreds creds c1) client /\ close c1 = close client).
Proof.
  intros Hc.
  unfold SetSSHPrivateKey, SetSSHPassword, GetSSHPrivateKey, GetSSHPassword, sameButSignal.
  rewrite Hc. split; eexists; (split; [reflexivity|]); cbn; rewrite ?Hc; repeat split.
Qed.

Lemma set_then_get_witness :
  exists c1,
    SetSSHPrivateKey "/keys/id_ed25519" testClient startWorld = Returns c1 startWorld
    /\ GetSSHPrivateKey c1 startWorld = Returns "/keys/id_ed25519" startWorld
    /\ GetSSHPassword c1 startWorld = Returns "test" startWorld.
Proof.
  destruct (set_then_get testClient
              {| SSHUser := "test"; SSHPassword := "test"; SSHPrivateKey := "/foo" |}
              "/keys/id_ed25519" startWorld eq_refl) as [(c1 & H1 & H2 & H3 & _) _].
  exists c1. split; [exact H1|]. split; [exact H2 | exact H3].
Defined.

(** X15. A key set with [SetSSHPrivateKey] is the one the next [Connect]
    authenticates with: for a named user and a non-empty key that the
    reader accepts, the one dial of that [Connect] goes to the client's
    address with the method read from the new key, whatever password or
    earlier key the client had. *)
Theorem Connect_after_SetSSHPrivateKey (env : Env) (client : SSHClient) (creds : Credentials)
    (key : string) (auth : AuthMethod) (w : World) :
  Creds client = Some creds ->
  SSHUser creds <> EmptyString ->
  key <> EmptyString ->
  readPrivateKey env key = ok auth ->
  exists c1,
    SetSSHPrivateKey key client w = Returns c1 w
    /\ dials (world_of (Connect env c1 w))
       = (dials w ++ [EvDial "tcp" (dialAddr env client) (configWith creds auth)])%list.
Proof.
  intros Hc Hu Hk Hr. unfold SetSSHPrivateKey. rewrite Hc. eexists. split; [reflexivity|].
  set (creds' := {| SSHUser := SSHUser creds; SSHPassword := SSHPassword creds;
                    SSHPrivateKey := key |}).
  rewrite (Connect_valid_dials env (withCreds creds' client) creds' w eq_refl).
  - cbn [SSHPrivateKey creds']. rewrite (eqb_empty_false _ Hk). cbn [negb]. rewrite Hr.
    reflexivity.
  - unfold Validate. cbn [Creds withCreds SSHUser SSHPassword SSHPrivateKey creds'].
    rewrite (eqb_empty_false _ Hu), (eqb_empty_false _ Hk), andb_false_r. reflexivity.
Qed.

Lemma Connect_after_SetSSHPrivateKey_witness :
  exists c1,
    SetSSHPrivateKey "/keys/id_ed25519" testClient startWorld = Returns c1 startWorld
    /\ dials (world_of (Connect mockedEnv c1 startWorld))
       = [EvDial "tcp" "192.0.2.7:22"
            {| User := "test"; Auth := [AuthNil]; HostKey := InsecureIgnoreHostKey |}].
Proof.
  apply (Connect_after_SetSSHPrivateKey mockedEnv testClient
           {| SSHUser := "test"; SSHPassword := "test"; SSHPrivateKey := "/foo" |}
           "/keys/id_ed25519" AuthNil startWorld); (reflexivity || discriminate).
Defined.

End SSHMore.

(** ** Run *)

Module SSHRunProps.
Import SSH SSHRun.

Lemma count_record (p : Event -> bool) (e : Event) (w : World) :
  count p (record e w) = (count p w + (if p e then 1 else 0))%nat.
Proof.
  unfold count, record. rewrite List.filter_app, length_app. cbn. now destruct (p e).
Qed.

Lemma runBody_counts (env : Env) (client : SSHClient) (command : string) (w : World) :
  count isNewSession (snd (runBody env client command w)) = count isNewSession w
  /\ count isClose (snd (runBody env client command w)) = count isClose w.
Proof.
  unfold runBody. repeat break_match; cbn [snd]; rewrite ?count_record; cbn; lia.
Qed.

(** X16. On a connected client [Run] opens one session and, when that
    succeeds, closes it once before returning, whether the terminal request
    or the command failed or not; when no session could be opened nothing
    is closed, nothing requested and nothing run, and the error of the open
    is returned. The close is the last call on the session; when it answers
    an error, that error is logged, once and after the close, and it is not
    what [Run] returns: [Run] returns what the body returned. When the
    close answers nil nothing is logged. *)
Theorem Run_closes_session (env : Env) (client : SSHClient) (conn : nat) (command : string)
    (w : World) :
  cryptoClient client = Some conn ->
  exists r w',
    Run env client command w = Returns r w'
    /\ count isNewSession w' = (count isNewSession w + 1)%nat
    /\ (forall e, newSession env w = Some e ->
          r = Some e /\ w' = record EvNewSession w)
    /\ (newSession env w = None ->
          count isClose w' = (count isClose w + 1)%nat
          /\ r = fst (runBody env client command (record EvNewSession w))
          /\ let w1 := snd (runBody env client command (record EvNewSession w)) in
             (sessionClose env w1 = None -> w' = record EvClose w1)
             /\ (forall e, sessionClose env w1 = Some e ->
                   w' = record (EvLog e) (record EvClose w1))).
Proof.
  intros Hc. unfold Run. rewrite Hc.
  destruct (newSession env w) as [e|] eqn:Hn.
  - eexists. eexists. split; [reflexivity|]. split; [|split].
    + rewrite count_record. reflexivity.
    + intros e' [= <-]. now split.
    + discriminate.
  - destruct (runBody env client command (record EvNewSession w)) as [res w1] eqn:Hb.
    pose proof (runBody_counts env client command (record EvNewSession w)) as [Hns Hcl].
    rewrite Hb in Hns, Hcl. cbn [snd] in Hns, Hcl.
    rewrite count_record in Hns, Hcl. cbn [isNewSession isClose] in Hns, Hcl.
    destruct (sessionClose env w1) as [e|] eqn:Hclose;
      eexists; eexists; (split; [reflexivity|]); (split; [|split]);
      rewrite ?count_record; cbn [isNewSession isClose fst snd]; try lia; try discriminate;
      intros _; (split; [lia|]); (split; [reflexivity|]); cbn zeta;
      (split; [intros H | intros e' H]); rewrite Hclose in H;
      (discriminate H || (injection H as <-; reflexivity) || reflexivity).
Qed.

Lemma Run_closes_session_witness :
  exists r w',
    Run (ptyEnv false) ptyClient "uname -a" [] = Returns r w'
    /\ count isNewSession w' = 1%nat
    /\ count isClose w' = 1%nat
    /\ r = Some (ErrExternal "pty request failed")
    /\ w' = [EvNewSession; EvRequestPty "xterm" 80 40 modes; EvClose; EvLog EOF].
Proof.
  destruct (Run_closes_session (ptyEnv false) ptyClient 1 "uname -a" [] eq_refl)
    as (r & w' & H & Hn & _ & Hc).
  destruct (Hc eq_refl) as (Hcl & Hr & _ & Hlog).
  exists r, w'. split; [exact H|]. split; [exact Hn|]. split; [exact Hcl|].
  split; [exact Hr|]. exact (Hlog EOF eq_refl).
Defined.

(** X17. With a session open: a client configured for a terminal has one
    requested, before the command, with the value of [TERM], the numbers 80
    and 40 and the fixed modes; if the request is refused the command is
    never run and the refusal is what [Run] returns; if it is granted, and
    always for a client without the option, the command is run once and its
    outcome is what [Run] returns. A client without the option never
    requests a terminal. *)
Theorem Run_terminal_then_command (env : Env) (client : SSHClient) (conn : nat)
    (command : string) (w : World) :
  cryptoClient client = Some conn ->
  newSession env w = None ->
  let w0 := record EvNewSession w in
  let request := EvRequestPty (getenvTERM env) 80 40 modes in
  exists r w',
    Run env client command w = Returns r w'
    /\ (Pty (Opts client) = false ->
        count isPty w' = count isPty w
        /\ count isRun w' = (count isRun w + 1)%nat
        /\ r = sessionRun env w0 command)
    /\ (Pty (Opts client) = true ->
        count isPty w' = (count isPty w + 1)%nat
        /\ (forall e, requestPty env w0 (getenvTERM env) 80 40 modes = Some e ->
              r = Some e /\ count isRun w' = count isRun w)
        /\ (requestPty env w0 (getenvTERM env) 80 40 modes = None ->
              r = sessionRun env (record request w0) command
              /\ count isRun w' = (count isRun w + 1)%nat
              /\ exists tail, w' = (w0 ++ request :: EvRun command :: tail)%list)).
Proof.
  intros Hc Hn w0 request. unfold Run. rewrite Hc, Hn. fold w0. unfold runBody.
  fold request.
  assert (Hcnt : forall p e (v : World), count p (record e v) = (count p v + (if p e then 1 else 0))%nat)
    by (intros; apply count_record).
  destruct (Pty (Opts client)) eqn:Hp.
  - destruct (requestPty env w0 (getenvTERM env) 80 40 modes) as [e|] eqn:Hr.
    + destruct (sessionClose env (record request w0)) as [ec|];
        eexists; eexists; (split; [reflexivity|]); (split; [discriminate|]); intros _.
      * split; [unfold w0, request; rewrite !Hcnt; cbn; lia|].
        split; [|discriminate].
        intros e' [= <-]. split; [reflexivity|].
        unfold w0, request; rewrite !Hcnt; cbn; lia.
      * split; [unfold w0, request; rewrite !Hcnt; cbn; lia|].
        split; [|discriminate].
        intros e' [= <-]. split; [reflexivity|].
        unfold w0, request; rewrite !Hcnt; cbn; lia.
    + destruct (sessionClose env (record (EvRun command) (record request w0))) as [ec|];
        eexists; eexists; (split; [reflexivity|]); (split; [discriminate|]); intros _.
      * split; [unfold w0, request; rewrite !Hcnt; cbn; lia|].
        split; [discriminate|]. intros _. split; [reflexivity|].
        split; [unfold w0, request; rewrite !Hcnt; cbn; lia|].
        unfold record. rewrite <- !app_assoc. cbn [app]. eauto.
      * split; [unfold w0, request; rewrite !Hcnt; cbn; lia|].
        split; [discriminate|]. intros _. split; [reflexivity|].
        split; [unfold w0, request; rewrite !Hcnt; cbn; lia|].
        unfold record. rewrite <- !app_assoc. cbn [app]. eauto.
  - destruct (sessionClose env (record (EvRun command) w0)) as [ec|];
      eexists; eexists; (split; [reflexivity|]); (split; [|discriminate]); intros _;
      unfold w0; rewrite !Hcnt; cbn; repeat split; lia.
Qed.

Lemma Run_terminal_then_command_witness :
  exists w',
    Run (ptyEnv false) ptyClient "uname -a" []
      = Returns (Some (ErrExternal "pty request failed")) w'
    /\ count isRun w' = 0%nat.
Proof.
  destruct (Run_terminal_then_command (ptyEnv false) ptyClient 1 "uname -a" []
              eq_refl eq_refl) as (r & w' & H & _ & Hp).
  destruct (Hp eq_refl) as (_ & Hrefused & _).
  destruct (Hrefused (ErrExternal "pty request failed") eq_refl) as [-> Hrun].
  exists w'. split; [exact H | exact Hrun].
Defined.

End SSHRunProps.

(** ** The controllers, continued *)

Module ControllerMore.
Import Controller ControllerProps ControllerNotions.

Lemma filter_record (p : Event -> bool) (e : Event) (w : World) :
  List.filter p (record e w) = (List.filter p w ++ (if p e then [e] else []))%list.
Proof. unfold record. rewrite List.filter_app. cbn. now destruct (p e). Qed.

(** *** The orchestrator *)

(** What a [Reconcile] that returns has done, in every case. *)
Lemma Reconcile_returns (env : Env) (build : Build) (spec spec' : ProvisionerSpec)
    (w w' : World) (res : Result) (e : option error) :
  Reconcile env build spec w = Returns (res, e, spec') w' ->
  (UUID spec <> None /\ spec' = spec /\ w' = w /\ e = None /\ res = noRequeue)
  \/ (UUID spec = None /\ exists id,
        id = uuidNew env w
        /\ ((exists b err0, builderBuild env b = err err0 /\ e = Some err0 /\ spec' = spec
                            /\ w' = record (EvUUIDNew id) w /\ res = noRequeue)
            \/ (exists b desired,
                  builderBuild env b = ok desired
                  /\ w' = record (EvCreateOrUpdate desired) (record (EvUUIDNew id) w)
                  /\ ((exists err0, createOrUpdate env (record (EvUUIDNew id) w) desired = err err0
                                    /\ e = Some err0 /\ spec' = spec /\ res = noRequeue)
                      \/ (exists op, createOrUpdate env (record (EvUUIDNew id) w) desired = ok op
                                     /\ e = None /\ spec' = setUUID id spec
                                     /\ res = if match op with OperationResultNone => true
                                                               | _ => false end
                                              then noRequeue
                                              else {| Requeue := false;
                                                      RequeueAfter := 2 * Second |}))))).
Proof.
  unfold Reconcile. destruct (UUID spec) as [id|] eqn:Hid.
  - intros [= <- <- <- <-]. left. repeat split; congruence.
  - intros H. right. split; [reflexivity|]. eexists. split; [reflexivity|].
    destruct (Run spec) as [run|]; destruct (RunConfigMapRef spec) as [ref|];
      cbn [bind deref] in H; try discriminate;
      (destruct (builderBuild env _) as [desired|e0] eqn:Hb;
       [ destruct (createOrUpdate env _ desired) as [op|e0] eqn:Ha;
         [ destruct op; injection H as <- <- <- <-; right; eexists; eexists;
           (split; [exact Hb|]); (split; [reflexivity|]); right; eexists;
           (split; [exact Ha|]); repeat split
         | injection H as <- <- <- <-; right; eexists; eexists;
           (split; [exact Hb|]); (split; [reflexivity|]); left; eexists;
           (split; [exact Ha|]); repeat split ]
       | injection H as <- <- <- <-; left; eexists; eexists;
         (split; [exact Hb|]); repeat split ]).
Qed.

(** X18. Whenever [Reconcile] returns, the spec it leaves differs from the
    one it was given at most in the correlation id, and that id is set
    afterwards exactly when it was set before or the call returned no
    error: a failed call never leaves an id behind. The call has applied at
    most one descriptor and deleted nothing, and the delay it asks for is
    none or two seconds. *)
Theorem Reconcile_invariants (env : Env) (build : Build) (spec spec' : ProvisionerSpec)
    (w w' : World) (res : Result) (e : option error) :
  Reconcile env build spec w = Returns (res, e, spec') w' ->
  sameButUUID spec' spec
  /\ (UUID spec' <> None <-> UUID spec <> None \/ e = None)
  /\ (length (applies w') <= length (applies w) + 1)%nat
  /\ deletes w' = deletes w
  /\ Requeue res = false
  /\ (RequeueAfter res = 0 \/ RequeueAfter res = 2 * Second).
Proof.
  intros H. unfold sameButUUID, applies, deletes.
  destruct (Reconcile_returns _ _ _ _ _ _ _ _ H)
    as [(Hid & -> & -> & -> & ->)
       |(Hid & id & _ & [(b & e0 & _ & -> & -> & -> & ->)
                        |(b & desired & _ & -> & [(e0 & _ & -> & -> & ->)
                                                 |(op & _ & -> & -> & ->)])])];
    rewrite ?filter_record; cbn [isApply isAnyDelete]; rewrite ?app_nil_r, ?length_app;
    cbn [length setUUID provType Run RunConfigMapRef UUID provStatus Retries AllowFail
         FailureReason FailureMessage noRequeue Requeue RequeueAfter];
    repeat split; try lia; try tauto; try congruence; try (intros; discriminate);
    try (intros [?|?]; congruence); try (left; reflexivity);
    try (destruct op; cbn; auto).
Qed.

Lemma Reconcile_invariants_witness :
  exists res e spec' w',
    Reconcile (failingEnv None (err (ErrExternal "admission webhook denied the request")))
      exampleBuild (exampleSpec (Some "make install") None None) []
    = Returns (res, e, spec') w'
    /\ (UUID spec' <> None <-> UUID (exampleSpec (Some "make install") None None) <> None
                               \/ e = None)
    /\ e = Some (ErrExternal "admission webhook denied the request").
Proof.
  eexists. eexists. eexists. eexists. split; [reflexivity|].
  split; [|reflexivity].
  exact (proj1 (proj2 (Reconcile_invariants
            (failingEnv None (err (ErrExternal "admission webhook denied the request")))
            exampleBuild (exampleSpec (Some "make install") None None) _ [] _ _ _
            eq_refl))).
Defined.

(** X19. A failure of the builder or of the create-or-update call comes
    back from [Reconcile] as the very error value it was, with no requeue
    delay and with the spec untouched; after a failure of the builder
    nothing has been applied. *)
Theorem Reconcile_error_unchanged (env : Env) (build : Build) (spec : ProvisionerSpec)
    (w : World) :
  UUID spec = None ->
  (RunConfigMapRef spec = None \/ Run spec <> None) ->
  let w1 := record (EvUUIDNew (uuidNew env w)) w in
  (forall e, builderBuild env (descriptor build spec (uuidNew env w)) = err e ->
     Reconcile env build spec w = Returns (noRequeue, Some e, spec) w1
     /\ applies w1 = applies w)
  /\ (forall desired e,
        builderBuild env (descriptor build spec (uuidNew env w)) = ok desired ->
        createOrUpdate env w1 desired = err e ->
        Reconcile env build spec w
        = Returns (noRequeue, Some e, spec) (record (EvCreateOrUpdate desired) w1)).
Proof.
  intros Hid Hsrc w1. pose proof (Reconcile_unset env build spec w Hid Hsrc) as HR.
  cbv zeta in HR. fold w1 in HR. split.
  - intros e Hb. rewrite Hb in HR. split; [exact HR|].
    unfold w1, applies. rewrite filter_record. cbn. apply app_nil_r.
  - intros desired e Hb Ha. now rewrite Hb, Ha in HR.
Qed.

Lemma Reconcile_error_unchanged_witness :
  Reconcile (failingEnv (Some (Errorf "script is empty")) (ok OperationResultCreated))
    exampleBuild (exampleSpec (Some "make install") None None) []
  = Returns (noRequeue, Some (Errorf "script is empty"),
             exampleSpec (Some "make install") None None)
      [EvUUIDNew "3f0c9a52-6f0e-4e0b-9d7e-5a1f3c2b7d10"].
Proof.
  destruct (Reconcile_error_unchanged
              (failingEnv (Some (Errorf "script is empty")) (ok OperationResultCreated))
              exampleBuild (exampleSpec (Some "make install") None None) []
              eq_refl (or_introl eq_refl)) as [H _].
  exact (proj1 (H (Errorf "script is empty") eq_refl)).
Defined.

(** X20. Once a [Reconcile] has returned without error, every later
    [Reconcile] of the spec it left, against any state of the cluster,
    returns at once with no error and no delay, changes nothing and calls
    nothing: repeated calls apply at most one execution unit. *)
Theorem Reconcile_again_is_noop (env env' : Env) (build build' : Build)
    (spec spec' : ProvisionerSpec) (w w' w'' : World) (res : Result) :
  Reconcile env build spec w = Returns (res, None, spec') w' ->
  Reconcile env' build' spec' w'' = Returns (noRequeue, None, spec') w''.
Proof.
  intros H.
  assert (Hset : UUID spec' <> None).
  { destruct (Reconcile_returns _ _ _ _ _ _ _ _ H)
      as [(Hid & -> & _)
         |(_ & id & _ & [(b & e0 & _ & [=] & _)
                        |(b & desired & _ & _ & [(e0 & _ & [=] & _)
                                                |(op & _ & _ & -> & _)])])];
      [exact Hid | discriminate]. }
  unfold Reconcile. destruct (UUID spec'); [reflexivity | contradiction].
Qed.

Lemma Reconcile_again_is_noop_witness :
  exists res spec' w',
    Reconcile (clusterEnv OperationResultCreated) exampleBuild
      (exampleSpec (Some "make install") None None) [] = Returns (res, None, spec') w'
    /\ Reconcile (clusterEnv OperationResultNone) exampleBuild spec' w'
       = Returns (noRequeue, None, spec') w'.
Proof.
  eexists. eexists. eexists. split; [reflexivity|].
  exact (Reconcile_again_is_noop (clusterEnv OperationResultCreated)
           (clusterEnv OperationResultNone) exampleBuild exampleBuild
           (exampleSpec (Some "make install") None None) _ [] _ _ _ eq_refl).
Defined.

(** *** The job watcher *)

(** X21. [deleteJob] issues one delete call. It returns nil exactly when
    the call answered nil or "not found"; any other answer comes back
    wrapped as "deleting job: ...", and what [deleteJob] returns is never
    itself a "not found" error. *)
Theorem deleteJob_result (env : Env) (job : Job) (w : World) :
  snd (deleteJob env job w) = record (EvClientDelete job) w
  /\ (fst (deleteJob env job w) = None <->
      clientDelete env w job = None
      \/ exists e, clientDelete env w job = Some e /\ IsNotFound e = true)
  /\ (forall e, fst (deleteJob env job w) = Some e ->
        IsNotFound e = false
        /\ exists cause, clientDelete env w job = Some cause
                         /\ e = Wrapf "deleting job: " cause).
Proof.
  unfold deleteJob. destruct (clientDelete env w job) as [cause|] eqn:Hd.
  - destruct (IsNotFound cause) eqn:Hnf; cbn [fst snd].
    + split; [reflexivity|]. split; [|intros e [=]].
      split; [intros _; right; eauto | reflexivity].
    + split; [reflexivity|]. split.
      * split; [discriminate|]. intros [[=]|(e & [= <-] & He)]. congruence.
      * intros e [= <-]. cbn [IsNotFound]. split; [exact Hnf | eauto].
  - cbn [fst snd]. split; [reflexivity|]. split; [|intros e [=]].
    split; [now left | reflexivity].
Qed.

Lemma deleteJob_result_witness :
  fst (deleteJob (watchEnv (ok exampleJob) (ok exampleJob) (Some ErrNotFound)) exampleJob [])
  = None
  /\ forall e,
       fst (deleteJob (watchEnv (ok exampleJob) (ok exampleJob) (Some (ErrExternal "forbidden")))
              exampleJob []) = Some e ->
       e = Wrapf "deleting job: " (ErrExternal "forbidden").
Proof.
  split.
  - apply (deleteJob_result (watchEnv (ok exampleJob) (ok exampleJob) (Some ErrNotFound))
             exampleJob []).
    right. exists ErrNotFound. split; reflexivity.
  - destruct (deleteJob_result
                (watchEnv (ok exampleJob) (ok exampleJob) (Some (ErrExternal "forbidden")))
                exampleJob []) as (_ & _ & H).
    intros e He. destruct (H e He) as (_ & cause & Hc & ->).
    cbn in Hc. injection Hc as <-. reflexivity.
Defined.

(** X22. A unit whose first condition is Complete, whatever conditions
    follow it: the reconcile issues exactly one delete call for it, adds no
    failure record, looks up no pod and touches no cache, and asks for no
    requeue. Its error is decided by the answer of that delete call, made
    after the two log lines of the completion: nil when the delete answered
    nil or "not found", and otherwise the answer of the delete wrapped as
    "deleting job: ...". *)
Theorem complete_unit_deleted (env : Env) (namespace name : string) (job : Job)
    (conds : list JobConditionType) (w : World) :
  clientGet env w namespace name = ok job ->
  jobConditions job = JobComplete :: conds ->
  let wd :=
    record (EvLogInfo "Job complete - Deleting complete shell job" [("job", jobName job)])
      (record (EvLogInfo "Job complete"
                 [("build", index (jobLabels job) BuildNameLabel);
                  ("provisionerID", index (jobLabels job) ProvisionerIDLabel)])
         (record (EvClientGet namespace name) w)) in
  let e :=
    match clientDelete env wd job with
    | None => None
    | Some cause => if IsNotFound cause then None else Some (Wrapf "deleting job: " cause)
    end in
  exists w',
    reconcileJobs env namespace name w = Returns (noRequeue, e) w'
    /\ deletes w' = (deletes w ++ [EvClientDelete job])%list
    /\ records w' = records w
    /\ lookups w' = lookups w
    /\ cacheCalls w' = cacheCalls w.
Proof.
  intros Hget Hconds wd e. unfold reconcileJobs, processCompleteScanJob.
  rewrite Hget, Hconds. fold wd. unfold deleteJob.
  assert (Hf : forall p, p (EvClientGet namespace name) = false ->
                 (forall m kv, p (EvLogInfo m kv) = false) ->
                 List.filter p wd = List.filter p w).
  { intros p H1 H2. unfold wd. rewrite !filter_record, !H2, H1. now rewrite !app_nil_r. }
  subst e. destruct (clientDelete env wd job) as [cause|]; [destruct (IsNotFound cause)|];
    cbn [bind]; eexists; (split; [reflexivity|]);
    unfold deletes, records, lookups, cacheCalls;
    rewrite !filter_record; cbn [isAnyDelete isAnyRecord isLookup isCacheCall recordContainer];
    rewrite ?app_nil_r, !Hf by reflexivity; cbn [String.eqb Ascii.eqb Bool.eqb];
    rewrite ?app_nil_r; repeat split.
Qed.

Lemma complete_unit_deleted_witness :
  (exists w',
     reconcileJobs (watchEnv (ok (jobWith [JobComplete; JobFailed])) (ok exampleJob)
                      (Some ErrNotFound))
       ForgeCoreNamespace "shell-42" [] = Returns (noRequeue, None) w'
     /\ deletes w' = [EvClientDelete (jobWith [JobComplete; JobFailed])]
     /\ records w' = [])
  /\ (exists w',
        reconcileJobs (watchEnv (ok (jobWith [JobComplete; JobFailed])) (ok exampleJob)
                         (Some (ErrExternal "forbidden")))
          ForgeCoreNamespace "shell-42" []
        = Returns (noRequeue, Some (Wrapf "deleting job: " (ErrExternal "forbidden"))) w'
        /\ deletes w' = [EvClientDelete (jobWith [JobComplete; JobFailed])]
        /\ records w' = []).
Proof.
  split.
  - destruct (complete_unit_deleted
                (watchEnv (ok (jobWith [JobComplete; JobFailed])) (ok exampleJob)
                   (Some ErrNotFound))
                ForgeCoreNamespace "shell-42" (jobWith [JobComplete; JobFailed]) [JobFailed] []
                eq_refl eq_refl) as (w' & H & Hd & Hr & _).
    exists w'. split; [exact H|]. split; [exact Hd | exact Hr].
  - destruct (complete_unit_deleted
                (watchEnv (ok (jobWith [JobComplete; JobFailed])) (ok exampleJob)
                   (Some (ErrExternal "forbidden")))
                ForgeCoreNamespace "shell-42" (jobWith [JobComplete; JobFailed]) [JobFailed] []
                eq_refl eq_refl) as (w' & H & Hd & Hr & _).
    exists w'. split; [exact H|]. split; [exact Hd | exact Hr].
Defined.

(** X23. Three ways for the reconcile to have nothing to do. A job that the
    cache no longer has ("not found") and a job without conditions both end
    the reconcile with success after one log line; any other failure of the
    [Get] is returned wrapped as "getting job from cache: ...". In all
    three nothing is deleted, no pod is looked up and no cache is touched. *)
Theorem reconcile_nothing_to_do (env : Env) (namespace name : string) (w : World) :
  let w0 := record (EvClientGet namespace name) w in
  (forall e, clientGet env w namespace name = err e -> IsNotFound e = true ->
     reconcileJobs env namespace name w
     = Returns (noRequeue, None)
         (record (EvLogInfo "Ignoring cached job that must have been deleted" []) w0))
  /\ (forall e, clientGet env w namespace name = err e -> IsNotFound e = false ->
        reconcileJobs env namespace name w
        = Returns (noRequeue, Some (Wrapf "getting job from cache: " e)) w0)
  /\ (forall job, clientGet env w namespace name = ok job -> jobConditions job = [] ->
        reconcileJobs env namespace name w
        = Returns (noRequeue, None) (record (EvLogInfo "Ignoring Job without conditions" []) w0))
  /\ (forall m, deletes (record (EvLogInfo m []) w0) = deletes w
                /\ lookups (record (EvLogInfo m []) w0) = lookups w
                /\ cacheCalls (record (EvLogInfo m []) w0) = cacheCalls w)
  /\ deletes w0 = deletes w /\ lookups w0 = lookups w /\ cacheCalls w0 = cacheCalls w.
Proof.
  intros w0. unfold reconcileJobs. fold w0.
  assert (Hw0 : forall p, p (EvClientGet namespace name) = false ->
                  List.filter p w0 = List.filter p w).
  { intros p Hp. unfold w0. rewrite filter_record, Hp. apply app_nil_r. }
  split; [|split; [|split; [|split]]].
  - intros e He Hnf. now rewrite He, Hnf.
  - intros e He Hnf. now rewrite He, Hnf.
  - intros job Hj Hc. now rewrite Hj, Hc.
  - intros m. unfold deletes, lookups, cacheCalls. rewrite !filter_record. cbn.
    rewrite !app_nil_r, !Hw0 by reflexivity. repeat split.
  - unfold deletes, lookups, cacheCalls. rewrite !Hw0 by reflexivity. repeat split.
Qed.

Lemma reconcile_nothing_to_do_witness :
  reconcileJobs (watchEnv (err ErrNotFound) (ok exampleJob) None) ForgeCoreNamespace
    "shell-42" []
  = Returns (noRequeue, None)
      [EvClientGet ForgeCoreNamespace "shell-42";
       EvLogInfo "Ignoring cached job that must have been deleted" []]
  /\ reconcileJobs (watchEnv (ok (jobWith [])) (ok exampleJob) None) ForgeCoreNamespace
       "shell-42" []
     = Returns (noRequeue, None)
         [EvClientGet ForgeCoreNamespace "shell-42";
          EvLogInfo "Ignoring Job without conditions" []].
Proof.
  split.
  - destruct (reconcile_nothing_to_do (watchEnv (err ErrNotFound) (ok exampleJob) None)
                ForgeCoreNamespace "shell-42" []) as (H & _).
    exact (H ErrNotFound eq_refl eq_refl).
  - destruct (reconcile_nothing_to_do (watchEnv (ok (jobWith [])) (ok exampleJob) None)
                ForgeCoreNamespace "shell-42" []) as (_ & _ & H & _).
    exact (H (jobWith []) eq_refl eq_refl).
Defined.

(** X24. A unit whose first condition is neither Complete nor Failed is
    left alone: the reconcile returns the error "unrecognized scan job
    condition: <type>", logs it, and deletes nothing, looks up no pod and
    touches no cache. *)
Theorem unrecognized_condition_kept (env : Env) (namespace name : string) (job : Job)
    (cond : string) (conds : list JobConditionType) (w : World) :
  clientGet env w namespace name = ok job ->
  jobConditions job = JobOtherCondition cond :: conds ->
  exists w',
    reconcileJobs env namespace name w
    = Returns (noRequeue, Some (Errorf ("unrecognized scan job condition: " +:+ cond))) w'
    /\ w' = (w ++ [EvClientGet namespace name;
                   EvLogError (Errorf ("unrecognized scan job condition: " +:+ cond))
                     "Failed processing job" []])%list
    /\ deletes w' = deletes w /\ lookups w' = lookups w /\ cacheCalls w' = cacheCalls w
    /\ records w' = records w.
Proof.
  intros Hget Hconds. unfold reconcileJobs. rewrite Hget, Hconds. cbn [bind conditionName].
  eexists. split; [reflexivity|]. split.
  - unfold record. now rewrite <- app_assoc.
  - unfold deletes, lookups, cacheCalls, records. rewrite !filter_record. cbn.
    rewrite !app_nil_r. repeat split.
Qed.

Lemma unrecognized_condition_kept_witness :
  exists w',
    reconcileJobs (watchEnv (ok (jobWith [JobOtherCondition "Suspended"])) (ok exampleJob) None)
      ForgeCoreNamespace "shell-42" []
    = Returns (noRequeue, Some (Errorf "unrecognized scan job condition: Suspended")) w'
    /\ deletes w' = [].
Proof.
  destruct (unrecognized_condition_kept
              (watchEnv (ok (jobWith [JobOtherCondition "Suspended"])) (ok exampleJob) None)
              ForgeCoreNamespace "shell-42" (jobWith [JobOtherCondition "Suspended"])
              "Suspended" [] [] eq_refl eq_refl) as (w' & H & _ & Hd & _).
  exists w'. split; [exact H | exact Hd].
Defined.

(** **** The map of terminated statuses, continued *)

Lemma foldl_collect_mono (l : list ContainerStatus)
    (states : gmap string ContainerStateTerminated) (name : string) :
  is_Some (states !! name) -> is_Some (foldl collect states l !! name).
Proof.
  revert states. induction l as [|x l IH]; intros states H; [exact H|].
  cbn [foldl]. apply IH. unfold collect. destruct (Terminated x) as [t|]; [|exact H].
  destruct (decide (csName x = name)) as [<-|Hne].
  - rewrite lookup_insert_eq. eauto.
  - now rewrite lookup_insert_ne.
Qed.

Lemma foldl_collect_present (l : list ContainerStatus)
    (states : gmap string ContainerStateTerminated) (s : ContainerStatus) :
  s ∈ l -> Terminated s <> None -> is_Some (foldl collect states l !! csName s).
Proof.
  revert states. induction l as [|x l IH]; intros states Hin Ht; [inversion Hin|].
  cbn [foldl]. apply elem_of_cons in Hin as [->|Hin]; [|now apply IH].
  apply foldl_collect_mono. unfold collect. destruct (Terminated x); [|contradiction].
  rewrite lookup_insert_eq. eauto.
Qed.

(** X25. The map of terminated statuses has an entry under a name exactly
    when some init or main container of the pod carries that name and has
    terminated; containers that are still waiting or running never appear,
    and every entry is the terminated state of a container of that name.
    Without a pod the map is empty. *)
Theorem statuses_domain (pod : option Pod) (name : string) :
  (is_Some (GetTerminatedContainersStatusesByPod pod !! name) <->
   exists s, s ∈ podStatuses pod /\ csName s = name /\ Terminated s <> None)
  /\ (forall t, GetTerminatedContainersStatusesByPod pod !! name = Some t ->
        exists s, s ∈ podStatuses pod /\ csName s = name /\ Terminated s = Some t)
  /\ GetTerminatedContainersStatusesByPod None = ∅.
Proof.
  split; [|split; [intros t; apply statuses_lookup_inv | reflexivity]].
  split.
  - intros [t Ht]. destruct (statuses_lookup_inv pod name t Ht) as (s & Hin & Hn & Hs).
    exists s. repeat split; congruence.
  - intros (s & Hin & <- & Ht). destruct pod as [pod|]; [|inversion Hin].
    cbn [GetTerminatedContainersStatusesByPod podStatuses] in *.
    rewrite <- foldl_app. now apply foldl_collect_present.
Qed.

Lemma statuses_domain_witness :
  is_Some (GetTerminatedContainersStatusesByPod (Some examplePod) !! "shell")
  /\ GetTerminatedContainersStatusesByPod (Some examplePod) !! "sidecar" = None.
Proof.
  split.
  - apply (statuses_domain (Some examplePod) "shell").
    exists {| csName := "shell"; Terminated := Some exit7 |}.
    split; [|split; [reflexivity | discriminate]].
    apply elem_of_cons. right. apply elem_of_cons. now left.
  - destruct (GetTerminatedContainersStatusesByPod (Some examplePod) !! "sidecar")
      as [t|] eqn:E; [|reflexivity].
    destruct (statuses_domain (Some examplePod) "sidecar") as (_ & H & _).
    destruct (H t E) as (s & Hin & Hn & _).
    apply elem_of_cons in Hin as [->|Hin]; [discriminate Hn|].
    apply elem_of_cons in Hin as [->|Hin]; [discriminate Hn | inversion Hin].
Defined.

(** X26. When an init container and a main container share a name, the
    entry under that name is the main container's: for main containers with
    distinct names, every terminated one is what the map holds under its
    name, whatever the init containers are called. *)
Theorem main_container_wins (pod : Pod) (s : ContainerStatus) (t : ContainerStateTerminated) :
  NoDup (csName <$> ContainerStatuses pod) ->
  s ∈ ContainerStatuses pod ->
  Terminated s = Some t ->
  GetTerminatedContainersStatusesByPod (Some pod) !! csName s = Some t.
Proof.
  intros Hnd Hin Ht. cbn [GetTerminatedContainersStatusesByPod].
  now apply foldl_collect_lookup.
Qed.

Lemma main_container_wins_witness :
  GetTerminatedContainersStatusesByPod (Some clashPod) !! "shell" = Some exit7.
Proof.
  apply (main_container_wins clashPod {| csName := "shell"; Terminated := Some exit7 |} exit7).
  - apply NoDup_singleton.
  - apply elem_of_cons. now left.
  - reflexivity.
Defined.

(** **** The pod lookup *)

(** The label selector that the lookup lists pods with. *)
Lemma podListLookup_selector (env : Env) (namespace : string) (refreshed : Job)
    (labels : gmap string string) (w : World) :
  jobSelector refreshed = Some labels ->
  let selector :=
    if decide (index labels "controller-uid" = EmptyString)
    then "batch.kubernetes.io/controller-uid=" +:+ index labels "batch.kubernetes.io/controller-uid"
    else "controller-uid=" +:+ index labels "controller-uid" in
  podListLookup env namespace refreshed w
  = Returns (podsList env w namespace selector) (record (EvPodsList namespace selector) w).
Proof.
  intros Hs. unfold podListLookup. rewrite Hs. cbn [deref bind].
  destruct (index labels "controller-uid") as [|c v] eqn:E.
  - cbn [String.length Nat.eqb]. now destruct (decide _).
  - cbn [String.length Nat.eqb]. destruct (decide _) as [H|_]; [discriminate|]. reflexivity.
Qed.

(** X27. The pod lookup first fetches the job again; if that fails the
    error is returned as it is and no pods are listed. Otherwise it lists
    pods once, selecting on the job's [controller-uid] label when the
    selector has a non-empty one and on
    [batch.kubernetes.io/controller-uid] when it has not (with an empty
    value when that is missing too). Of the pods listed only the first is
    returned; no list or an empty list gives no pod and no error; an error
    of the list is returned as it is. *)
Theorem getPodByJob_cases (env : Env) (job : Job) (w : World) :
  let w0 := record (EvJobsGet (jobNamespace job) (jobName job)) w in
  (forall e, jobsGet env w (jobNamespace job) (jobName job) = err e ->
     getPodByJob env job w = Returns (err e) w0)
  /\ (forall refreshed labels,
        jobsGet env w (jobNamespace job) (jobName job) = ok refreshed ->
        jobSelector refreshed = Some labels ->
        let selector :=
          if decide (index labels "controller-uid" = EmptyString)
          then "batch.kubernetes.io/controller-uid="
               +:+ index labels "batch.kubernetes.io/controller-uid"
          else "controller-uid=" +:+ index labels "controller-uid" in
        getPodByJob env job w
        = Returns (match podsList env w0 (jobNamespace job) selector with
                   | err e => err e
                   | ok (Some (pod :: _)) => ok (Some pod)
                   | ok _ => ok None
                   end)
            (record (EvPodsList (jobNamespace job) selector) w0)).
Proof.
  intros w0. split.
  - intros e He. unfold getPodByJob. now rewrite He.
  - intros refreshed labels Hj Hs selector. unfold getPodByJob. rewrite Hj. fold w0.
    rewrite (podListLookup_selector env (jobNamespace job) refreshed labels w0 Hs).
    cbv zeta. fold selector. cbn [bind].
    destruct (podsList env w0 (jobNamespace job) selector) as [[[|pod pods]|]|e]; reflexivity.
Qed.

Lemma getPodByJob_cases_witness :
  getPodByJob (clusterEnv OperationResultCreated) exampleJob []
  = Returns (ok (Some examplePod))
      [EvJobsGet ForgeCoreNamespace "shell-42";
       EvPodsList ForgeCoreNamespace "batch.kubernetes.io/controller-uid=c0ffee"].
Proof.
  destruct (getPodByJob_cases (clusterEnv OperationResultCreated) exampleJob []) as [_ H].
  exact (H exampleJob {[ "batch.kubernetes.io/controller-uid" := "c0ffee" ]} eq_refl eq_refl).
Defined.

(** X28. When the pod lookup of the failure path fails (and not with the
    controller's own "pod controlled by job not found"), the failed unit is
    kept: nothing is deleted, no failure record is added and no cache is
    touched. A "not found" error is returned as it is, any other wrapped as
    "unknown issue: ...". *)
Theorem failed_unit_lookup_error (env : Env) (job : Job) (action : string) (img : Image)
    (e : error) (w w2 : World) :
  getActionTypeFromJob env job = ok action ->
  String.eqb action (ClusterDeleteAction env) = false ->
  getContainerImageFromJob env job = ok img ->
  getPodByJob env job
    (record (EvLogInfo "Job failed" [("image", imgID img); ("cluster", imgCluster img)]) w)
  = Returns (err e) w2 ->
  IsPodControlledByJobNotFound e = false ->
  exists w',
    processFailedScanJob env job w
    = Returns (Some (if IsNotFound e then e else Wrapf "unknown issue: " e)) w'
    /\ deletes w' = deletes w /\ records w' = records w /\ cacheCalls w' = cacheCalls w.
Proof.
  intros Hact Hne Himg Hpod Hown.
  unfold processFailedScanJob, GetTerminatedContainersStatusesByJob.
  rewrite Hact, Himg, Hne.
  set (w1 := record (EvLogInfo "Job failed" _) w) in *.
  pose proof (getPodByJob_quiet env job w1) as Hq. rewrite Hpod in Hq |- *.
  cbn [world_of bind] in Hq |- *. rewrite Hown.
  assert (Hw2 : forall p, p (EvLogInfo "Job failed"
                               [("image", imgID img); ("cluster", imgCluster img)]) = false ->
                  (forall ns n, p (EvJobsGet ns n) = false) ->
                  (forall ns sel, p (EvPodsList ns sel) = false) ->
                  List.filter p w2 = List.filter p w).
  { intros p H1 H2 H3. rewrite (Hq p H2 H3). unfold w1. rewrite filter_record, H1.
    apply app_nil_r. }
  destruct (IsNotFound e) eqn:Hnf; cbn [bind]; eexists; (split; [reflexivity|]);
    unfold deletes, records, cacheCalls; rewrite !filter_record;
    cbn [isAnyDelete isAnyRecord isCacheCall recordContainer String.eqb Ascii.eqb Bool.eqb];
    rewrite ?app_nil_r, !Hw2 by reflexivity; repeat split.
Qed.

Lemma failed_unit_lookup_error_witness :
  exists w',
    processFailedScanJob
      (watchEnv (ok exampleJob) (err (ErrExternal "connection reset")) None) exampleJob []
    = Returns (Some (Wrapf "unknown issue: " (ErrExternal "connection reset"))) w'
    /\ deletes w' = [] /\ records w' = [] /\ cacheCalls w' = [].
Proof.
  eapply (failed_unit_lookup_error
            (watchEnv (ok exampleJob) (err (ErrExternal "connection reset")) None)
            exampleJob "provision" exampleImage (ErrExternal "connection reset") []);
    reflexivity.
Defined.

End ControllerMore.

(** ** The event predicates *)

Module PredicatesProps.
Import Predicates.

(** X29. Each function of [All] runs the predicates in order and stops at
    the first that rejects: predicates before a rejecting one having
    accepted, the verdict is a rejection, the lines logged are theirs and
    the rejecting predicate's followed by the "blocking" line, and the
    predicates after it are not run, so that not even a nil function among
    them is called. When every predicate accepts, the verdict is an
    acceptance, and the lines are all of theirs followed by the "allowing"
    line; with no predicate at all every event is accepted. *)
Theorem All_stops_at_first_rejection {E : Type} (field : Funcs -> Func E) (log : Logger)
    (e : E) (before after : list Funcs) :
  Forall (accepts field e) before ->
  (forall p, rejects field e p ->
     allLoop field log (before ++ p :: after) e
     = Some (false, (linesOf field e (before ++ [p]) ++ [blocked log])%list))
  /\ allLoop field log before e = Some (true, (linesOf field e before ++ [allowed log])%list).
Proof.
  induction 1 as [|q before (f & Hf & Hacc) _ [IHrej IHall]].
  - split; [|reflexivity].
    intros p (f & Hf & Hrej). cbn [app allLoop linesOf]. rewrite Hf.
    destruct (f e) as [v lines]. cbn [fst snd] in *. subst v. now rewrite app_nil_r.
  - split.
    + intros p Hp. cbn [app allLoop linesOf]. rewrite Hf, (IHrej p Hp).
      destruct (f e) as [v lines]. cbn [fst snd] in *. subst v.
      now rewrite <- !app_assoc.
    + cbn [allLoop linesOf]. rewrite Hf, IHall.
      destruct (f e) as [v lines]. cbn [fst snd] in *. subst v.
      now rewrite <- !app_assoc.
Qed.

Lemma All_stops_at_first_rejection_witness :
  AllCreate (All [] [ResourceNotPaused annotationUtils []; nilFuncs]) pausedBuild
  = Some (false,
          [Info [("predicate", "ResourceNotPaused"); ("eventType", "create");
                 ("namespace", "default"); ("build", "ubuntu-2204")] 4
             "Resource is paused, will not attempt to map resource";
           blocked [("predicateAggregation", "All")]]).
Proof.
  destruct (All_stops_at_first_rejection CreateFunc [("predicateAggregation", "All")]
              pausedBuild [] [nilFuncs] (List.Forall_nil _)) as [H _].
  apply (H (ResourceNotPaused annotationUtils [])).
  eexists. split; reflexivity.
Defined.

(** X30. [ResourceNotPausedAndHasFilterLabel] accepts an event exactly
    when its object is not paused and, if a label value is configured, has
    the watch label with that value: with an empty label value the label is
    not looked at and every object that is not paused passes. An update is
    judged on the new object alone. For a paused object the label is not
    examined at all. *)
Theorem ResourceNotPausedAndHasFilterLabel_verdict (u : Utils) (logger : Logger)
    (labelValue : string) (obj old : Object) :
  let fs := ResourceNotPausedAndHasFilterLabel u logger labelValue in
  let verdict := negb (HasPaused u obj)
                 && (String.eqb labelValue EmptyString || HasWatchLabel u obj labelValue) in
  (exists lines, AllCreate fs obj = Some (verdict, lines))
  /\ (exists lines, AllDelete fs obj = Some (verdict, lines))
  /\ (exists lines, AllGeneric fs obj = Some (verdict, lines))
  /\ (exists lines, AllUpdate fs {| ObjectOld := old; ObjectNew := obj |} = Some (verdict, lines))
  /\ (HasPaused u obj = true ->
      exists line, AllCreate fs obj
                   = Some (false, [line; blocked (WithValues logger
                                                    [("predicateAggregation", "All")])])).
Proof.
  intros fs verdict. unfold fs, verdict, ResourceNotPausedAndHasFilterLabel, All.
  cbn [AllCreate AllDelete AllGeneric AllUpdate allLoop ResourceNotPaused
       ResourceHasFilterLabel CreateFunc DeleteFunc GenericFunc UpdateFunc ObjectNew].
  unfold processIfNotPaused, processIfLabelMatch.
  destruct (HasPaused u obj); destruct (String.eqb labelValue EmptyString);
    destruct (HasWatchLabel u obj labelValue); cbn [negb andb orb app];
    repeat split; eauto; discriminate.
Qed.

Lemma ResourceNotPausedAndHasFilterLabel_verdict_witness :
  (exists lines,
     AllUpdate (ResourceNotPausedAndHasFilterLabel annotationUtils [] "forge")
       {| ObjectOld := pausedBuild; ObjectNew := runningBuild |} = Some (true, lines))
  /\ (exists line,
        AllCreate (ResourceNotPausedAndHasFilterLabel annotationUtils [] "forge") pausedBuild
        = Some (false, [line; blocked [("predicateAggregation", "All")]])).
Proof.
  split.
  - destruct (ResourceNotPausedAndHasFilterLabel_verdict annotationUtils [] "forge"
                runningBuild pausedBuild) as (_ & _ & _ & H & _).
    exact H.
  - destruct (ResourceNotPausedAndHasFilterLabel_verdict annotationUtils [] "forge"
                pausedBuild pausedBuild) as (_ & _ & _ & _ & H).
    exact (H eq_refl).
Defined.

End PredicatesProps.
